(** * midi2wave: the WaveNet streaming engine of [nn/wavenet.py]

    A shallow embedding of the convolution module [Conv] (batch [forward],
    cached single-step [infer_step]), of the [Wavenet] stack built on it
    ([__init__], [forward], [infer_step]) and of the autoregressive
    [inference] loop.

    Conventions of the embedding.
    - Numbers.  Tensor entries are exact rationals ([Qc]): the development
      speaks about the arithmetic the code performs on finite numbers, not
      about rounding or overflow.  Where the source makes zeros by a
      product with 0.0, which infinities and NaN do not give, the
      operation is also stated on entries that need not be finite
      ([float_entry]).  Statements about the range of an activation keep
      to what holds in floating point as well.
    - Tensors.  A tensor of shape B x C x T is held time-major, as the list
      of its T time slices; a slice (a [frame]) is the B x C matrix of all
      batch elements and channels at one time index.  Slicing, padding and
      concatenation along the time axis are then list operations.  The
      buffers of the inference loop, of two axes, are the lists of their
      columns.
    - Mutable objects.  [Conv.input_memory] is a field of the layer record;
      a method that mutates it returns the updated layer.
    - Failures.  Python exceptions are the [Raise] results of [result].
      The explicit checks of the source and the size checks of the
      convolution along the time axis are modelled.  Of torch's checks of
      the batch and channel extents of operands one is modelled, the one
      that decides whether [inference] runs: the write of a prediction
      into the logits buffer, which has no batch axis.  The others are
      not: the statements that a pass succeeds carry the hypotheses that
      the extents fit ([channels_fit], [input_fits], [features_fit],
      [cond_ready]) and, for the inference loop, that the input layer is
      the one-hot one and is given classes of its table
      ([onehot_input], [class_inputs]).
    - What lies outside the file.  [F.tanh] and [F.sigmoid], the samplers
      and the mu-law codec are arguments of the definitions that use them;
      a sampler is a function of the logits, as a seeded sampler is. *)

From Stdlib Require Import List Arith ZArith QArith Qcanon Qcabs Lia Bool.
Import ListNotations.

Close Scope Qc_scope.
Close Scope Q_scope.
Open Scope nat_scope.

(** ** Results of fallible code *)

Inductive error : Type :=
| AssertionError
| TypeError
| IndexError
| RuntimeError
| ValueError
| AttributeError
| UnboundLocalError
| ZeroDivisionError
(* not a Python exception: a path the embedding does not cover *)
| Unmodelled.

Inductive result (A : Type) : Type :=
| Ok (a : A)
| Raise (e : error).

Arguments Ok {A} a.
Arguments Raise {A} e.

Definition bind {A B : Type} (r : result A) (f : A -> result B) : result B :=
  match r with
  | Ok a => f a
  | Raise e => Raise e
  end.

Notation "'let*' x ':=' r 'in' k" := (bind r (fun x => k))
  (at level 10, x name, r at level 100, k at level 200).

(** ** Frames and signals *)

Definition frame : Type := list (list Qc).
Definition signal : Type := list frame.

(** [torch.zeros(size=[b, c, 1])] as one frame. *)
Definition zero_frame (b c : nat) : frame := repeat (repeat 0%Qc c) b.

(** [t.size(0)] and [t.size(1)] of a B x C x T tensor. *)
Definition batch_of (s : signal) : nat := length (hd [] s).
Definition channels_of (s : signal) : nat := length (hd [] (hd [] s)).

Definition frame_shape (b c : nat) (f : frame) : Prop :=
  length f = b /\ Forall (fun row => length row = c) f.

Definition signal_shape (b c : nat) (s : signal) : Prop :=
  Forall (frame_shape b c) s.

Definition frame_map (g : Qc -> Qc) (f : frame) : frame := map (map g) f.

Fixpoint zip_with {A B C : Type} (g : A -> B -> C) (l : list A) (m : list B)
  : list C :=
  match l, m with
  | a :: l', b :: m' => g a b :: zip_with g l' m'
  | _, _ => []
  end.

Definition frame_zip (g : Qc -> Qc -> Qc) (f1 f2 : frame) : frame :=
  zip_with (zip_with g) f1 f2.

(** Sum of [g 0 .. g (n-1)]. *)
Definition sum_upto (n : nat) (g : nat -> Qc) : Qc :=
  fold_right Qcplus 0%Qc (map g (seq 0 n)).

(** [torch.nn.Softsign]: x / (1 + |x|), computed exactly.  In float32
    the quotient rounds to 1.0 or -1.0 from |x| = 2^24 on, and it is NaN
    for an infinite x. *)
Definition softsign (x : Qc) : Qc := (x / (1 + Qcabs x))%Qc.

(** [torch.nn.functional.relu]. *)
Definition relu (x : Qc) : Qc := if Qclt_le_dec 0%Qc x then x else 0%Qc.

(** ** Entries that are not numbers *)

(** An entry of a float tensor is a finite number, an infinity or NaN.
    The embedding computes on the finite ones; the others matter where
    the source multiplies by 0.0 to make zeros. *)
Inductive float_entry : Type :=
| Finite (q : Qc)
| Infinite (negative : bool)
| NaN.

(** [v * 0.0] in floating point: zero (of the sign of [v]) for a finite
    [v], NaN for an infinity and for NaN. *)
Definition times_zero (v : float_entry) : float_entry :=
  match v with
  | Finite _ => Finite 0%Qc
  | Infinite _ => NaN
  | NaN => NaN
  end.


(** ** torch's one-dimensional convolution *)

Module Conv1d.

(** Weight of shape out_channels x in_channels x kernel_size. *)
Definition weight : Type := list (list (list Qc)).

Definition w_at (w : weight) (o c k : nat) : Qc :=
  nth k (nth c (nth o w []) []) 0%Qc.

Definition x_at (f : frame) (b c : nat) : Qc := nth c (nth b f []) 0%Qc.

Definition bias_at (bias : option (list Qc)) (o : nat) : Qc :=
  match bias with
  | Some bs => nth o bs 0%Qc
  | None => 0%Qc
  end.

(** One output frame, from the [ksize] input frames [tap 0 .. tap (ksize-1)]
    the kernel sits on. *)
Definition apply_taps (w : weight) (bias : option (list Qc))
    (in_ch ksize batch : nat) (tap : nat -> frame) : frame :=
  map (fun b =>
    map (fun o =>
      (bias_at bias o +
       sum_upto in_ch (fun c =>
         sum_upto ksize (fun k => w_at w o c k * x_at (tap k) b c)))%Qc)
      (seq 0 (length w)))
    (seq 0 batch).

(** [F.conv1d(input, weight, bias, stride, padding=0, dilation)].  torch
    rejects a kernel size, stride or dilation of 0, and an input shorter
    than the span of the kernel along the time axis. *)
Definition conv1d (w : weight) (bias : option (list Qc))
    (in_ch ksize strd dil : nat) (input : signal) : result signal :=
  let span := dil * (ksize - 1) + 1 in
  if (ksize =? 0) || (strd =? 0) || (dil =? 0) then Raise RuntimeError
  else if length input <? span then Raise RuntimeError
  else Ok (map (fun j =>
             apply_taps w bias in_ch ksize (batch_of input)
               (fun k => nth (j * strd + k * dil) input []))
             (seq 0 ((length input - span) / strd + 1))).

End Conv1d.

(** ** class Conv *)

Module Conv.

Record t : Type := mk {
  is_causal : bool;
  kernel_size : nat;
  in_channels : nat;
  dilation : nat;
  (* self.conv = torch.nn.Conv1d(in_channels, out_channels, kernel_size,
                                 stride, dilation, bias) *)
  stride : nat;
  conv_weight : Conv1d.weight;
  conv_bias : option (list Qc);
  use_act : bool;
  (* a deque of frames, leftmost first; None until infer_step is called *)
  input_memory : option (list frame)
}.

Definition set_input_memory (c : t) (m : option (list frame)) : t :=
  mk (is_causal c) (kernel_size c) (in_channels c) (dilation c) (stride c)
     (conv_weight c) (conv_bias c) (use_act c) m.

(** [self.conv(signal)] *)
Definition conv (c : t) (s : signal) : result signal :=
  Conv1d.conv1d (conv_weight c) (conv_bias c) (in_channels c)
    (kernel_size c) (stride c) (dilation c) s.

(** [torch.nn.functional.pad(signal, (n, 0))]: n zero slices on the left. *)
Definition pad_left (n : nat) (s : signal) : signal :=
  repeat (zero_frame (batch_of s) (channels_of s)) n ++ s.

Definition forward (c : t) (s : signal) : result signal :=
  let s := if is_causal c
           then pad_left ((kernel_size c - 1) * dilation c) s
           else s in
  let* s := conv c s in
  Ok (if use_act c then map (frame_map softsign) s else s).

(** [init_input_memory]: a deque of [dilation] zero frames. *)
Definition init_input_memory (c : t) (x : frame) : t :=
  set_input_memory c
    (Some (repeat (zero_frame (length x) (in_channels c)) (dilation c))).

(** [deque.pop()]: removes and returns the rightmost element. *)
Definition pop (q : list frame) : result (frame * list frame) :=
  match rev q with
  | [] => Raise IndexError
  | y :: r => Ok (y, rev r)
  end.

(** [infer_step] on one frame [x], the B x C x 1 tensor that lines 99-105
    of the source turn the argument into.  The Python result is [None]
    when the method falls off its end.  The layer is returned with the
    result, since the cache is written before the convolution runs. *)
Definition infer_step (c : t) (x : frame)
  : result (option signal) * t :=
  if kernel_size c =? 1 then
    ((let* y := conv c [x] in Ok (Some y)), c)
  else if is_causal c then
    let c := match input_memory c with
             | None => init_input_memory c x
             | Some _ => c
             end in
    let q := match input_memory c with Some q => q | None => [] end in
    let q := x :: q in
    match pop q with
    | Raise e => (Raise e, set_input_memory c (Some q))
    | Ok (x0, q) =>
        let c := set_input_memory c (Some q) in
        let x0_x1 := [x0; x] in
        ((let* y := Conv1d.conv1d (conv_weight c) (conv_bias c)
                      (in_channels c) (kernel_size c) 1 1 x0_x1 in
          Ok (Some y)), c)
    end
  else (Ok None, c).

End Conv.

(** [Conv(in_channels, out_channels, kernel_size, stride, dilation, bias,
    w_init_gain, is_causal, use_act)]: the constructor.  The entries of the
    weight and of the bias are what initialisation or a checkpoint put
    there; they are arguments, and [bias=False] drops the bias. *)
Definition Conv_init (in_ch ksize strd dil : nat)
    (bias is_causal use_act : bool)
    (w : Conv1d.weight) (b : list Qc) : Conv.t :=
  Conv.mk is_causal ksize in_ch dil strd w (if bias then Some b else None)
    use_act None.

(** ** class QuantizedInputLayer *)

Module QuantizedInputLayer.

Record t : Type := mk {
  embed : list (list Qc);   (* n_in_channels rows of n_out_channels *)
  use_act : bool
}.

(** The layer on one class index: it selects a row of the table.
    Indices are taken to be classes of the table. *)
Definition forward_entry (q : t) (i : Z) : list Qc :=
  let x := nth (Z.to_nat i) (embed q) [] in
  if use_act q then map softsign x else x.

(** The layer on one time slice, the class indices of the B batch
    elements. *)
Definition forward_slice (q : t) (x : list Z) : frame :=
  map (forward_entry q) x.

(** [forward]: embed, move the channel axis before the time axis,
    activate. *)
Definition forward (q : t) (x : list (list Z)) : signal :=
  map (forward_slice q) x.

End QuantizedInputLayer.

(** ** class UpsampleByRepetition *)

Module UpsampleByRepetition.

(** Every time slice is repeated [upscale] times in place. *)
Definition forward (upscale : nat) (X : signal) : signal :=
  flat_map (fun f => repeat f upscale) X.

End UpsampleByRepetition.

(** ** Operations on whole signals *)

Definition signal_map (g : Qc -> Qc) (s : signal) : signal :=
  map (frame_map g) s.

(** Elementwise [a + b] and [a * b] of two tensors of one shape.  For
    operands of different extents torch broadcasts or raises
    RuntimeError; these definitions are read on operands of one shape
    only, which the extents hypotheses of the statements provide. *)
Definition signal_add (a b : signal) : signal :=
  zip_with (frame_zip Qcplus) a b.
Definition signal_mul (a b : signal) : signal :=
  zip_with (frame_zip Qcmult) a b.

(** [t[:, :n, :]] and [t[:, n:, :]]. *)
Definition channels_to (n : nat) (s : signal) : signal :=
  map (map (firstn n)) s.
Definition channels_from (n : nat) (s : signal) : signal :=
  map (map (skipn n)) s.

(** [t.view(B, n, -1, T)[:, i, :, :]]: the [i]-th of [n] equal channel
    groups. *)
Definition channel_group (n i : nat) (s : signal) : signal :=
  map (map (fun row =>
    let size := length row / n in firstn size (skipn (i * size) row))) s.

(** A dropout mask: the factor (0, or 1/(1-p)) torch draws for the entry
    at time [t], batch element [b] and channel [c]. *)
Definition mask : Type := nat -> nat -> nat -> Qc.

Definition mapi {A B : Type} (g : nat -> A -> B) (l : list A) : list B :=
  map (fun p => g (fst p) (snd p)) (combine (seq 0 (length l)) l).

(** [torch.nn.Dropout] in training mode, with the mask it draws. *)
Definition dropout (m : mask) (s : signal) : signal :=
  mapi (fun t f =>
    mapi (fun b row => mapi (fun c v => (v * m t b c)%Qc) row) f) s.

(** [l[i] = v] on a Python list or along the time axis of a tensor. *)
Fixpoint set_at {A : Type} (i : nat) (v : A) (l : list A) : result (list A) :=
  match l, i with
  | [], _ => Raise IndexError
  | _ :: l', 0 => Ok (v :: l')
  | a :: l', S i' => let* r := set_at i' v l' in Ok (a :: r)
  end.

(** [l[i]]. *)
Definition get_at {A : Type} (i : nat) (l : list A) : result A :=
  match nth_error l i with
  | Some a => Ok a
  | None => Raise IndexError
  end.

(** ** class Wavenet *)

Module Wavenet.
Section Model.

(** One time slice of the raw audio input: the class indices of the B
    batch elements for a one-hot input layer, a frame otherwise. *)
Context {sample : Type}.

(** [F.tanh] and [F.sigmoid]. *)
Variables tanh sigmoid : Qc -> Qc.

Record t : Type := mk {
  n_layers : nat;
  max_dilation : Z;
  n_residual_channels : nat;
  n_out_channels : nat;
  upscale : nat;
  use_conditioning : bool;
  same_cond_each_resblock : bool;
  use_cond_conv : bool;
  use_skip_out : bool;
  use_res_out_conv : bool;
  res_block_gain : Qc;
  (* UpsampleByRepetition or torch.nn.ConvTranspose1d *)
  upsample : signal -> signal;
  (* built only with use_cond_conv; read only then *)
  cond_layers : Conv.t;
  dilate_layers : list Conv.t;
  res_layers : list Conv.t;
  skip_layers : list Conv.t;
  (* QuantizedInputLayer or a Conv of kernel size 1: either acts on each
     batch element and time step by itself, and this is its action on
     one entry, the channels it gives *)
  in_layer : sample -> list Qc;
  (* built only with use_skip_out; read only then *)
  conv_out : Conv.t;
  conv_end : Conv.t
}.

Definition set_dilate_layers (w : t) (ls : list Conv.t) : t :=
  mk (n_layers w) (max_dilation w) (n_residual_channels w)
     (n_out_channels w) (upscale w) (use_conditioning w)
     (same_cond_each_resblock w) (use_cond_conv w) (use_skip_out w)
     (use_res_out_conv w) (res_block_gain w) (upsample w) (cond_layers w)
     ls (res_layers w) (skip_layers w) (in_layer w) (conv_out w)
     (conv_end w).

(** [self.in_layer] on one time slice. *)
Definition in_slice (w : t) (x : list sample) : frame :=
  map (in_layer w) x.

(** The weights and biases of the layers, as initialisation or a
    checkpoint provide them. *)
Record params : Type := mk_params {
  p_cond : Conv1d.weight * list Qc;
  p_dilate : nat -> Conv1d.weight * list Qc;
  p_res : nat -> Conv1d.weight * list Qc;
  p_skip : nat -> Conv1d.weight * list Qc;
  p_out : Conv1d.weight;
  p_end : Conv1d.weight;
  p_in : sample -> list Qc;
  p_upsample : signal -> signal
}.

(** [math.floor(math.log2(max_dilation)) + 1]; [math.log2] raises
    ValueError outside the positive numbers.  The logarithm is computed
    in double precision.  Below 2^32 it cannot reach the next integer
    (the true logarithm stays more than 2^-32 under it, and the doubles
    there are 2^-48 apart or closer), so its integer part is the exact
    one.  Further up it can: 2^49 - 1 has logarithm 49.0 in double
    precision.  That range is left out. *)
Definition loop_factor (max_dilation : Z) : result nat :=
  if (max_dilation <=? 0)%Z then Raise ValueError
  else if (2 ^ 32 <=? max_dilation)%Z then Raise Unmodelled
  else Ok (Z.to_nat (Z.log2 max_dilation) + 1).

(** [__init__].  The options that only choose initial weights, dropout
    rates or the kind of upsampler and input layer are left to [params].
    Line 192, [self.downscale = 1./upsamp_scale], raises
    ZeroDivisionError for a scale of 0, before any layer is built.  What
    the constructors of torch reject otherwise is not modelled. *)
Definition init (n_layers : nat) (max_dilation : Z)
    (n_residual_channels : nat)
    (use_dilate_bias use_res_out_conv use_res_out_bias : bool)
    (res_block_gain : Qc)
    (use_skip_out : bool) (n_skip_channels : nat) (use_skip_bias : bool)
    (n_skip_to_out_channels n_out_channels : nat)
    (use_conditioning same_cond_each_resblock : bool)
    (n_cond_channels : nat) (use_cond_conv use_cond_bias use_cond_act : bool)
    (upsamp_scale : nat) (upsample_by_copy : bool)
    (p : params) : result t :=
  let upsample := if upsample_by_copy
                  then UpsampleByRepetition.forward upsamp_scale
                  else p_upsample p in
  let cond_layers :=
    Conv_init n_cond_channels 1 1 1 use_cond_bias false use_cond_act
      (fst (p_cond p)) (snd (p_cond p)) in
  let conv_out := Conv_init n_skip_channels 1 1 1 false false false
                    (p_out p) [] in
  let conv_end := Conv_init n_skip_to_out_channels 1 1 1 false false false
                    (p_end p) [] in
  if upsamp_scale =? 0 then Raise ZeroDivisionError else
  let* loop_factor := loop_factor max_dilation in
  let dilate_layers :=
    map (fun i =>
      let dilation := 2 ^ (i mod loop_factor) in
      Conv_init n_residual_channels 2 1 dilation use_dilate_bias true false
        (fst (p_dilate p i)) (snd (p_dilate p i)))
      (seq 0 n_layers) in
  let res_layers :=
    map (fun i =>
      Conv_init n_residual_channels 1 1 1 use_res_out_bias false false
        (fst (p_res p i)) (snd (p_res p i)))
      (filter (fun i => use_res_out_conv && (i <? n_layers - 1))
         (seq 0 n_layers)) in
  let skip_layers :=
    if use_skip_out then
      map (fun i =>
        Conv_init n_residual_channels 1 1 1 use_skip_bias false false
          (fst (p_skip p i)) (snd (p_skip p i)))
        (seq 0 n_layers)
    else [] in
  Ok (mk n_layers max_dilation n_residual_channels n_out_channels
        upsamp_scale use_conditioning same_cond_each_resblock
        use_cond_conv use_skip_out use_res_out_conv res_block_gain
        upsample cond_layers dilate_layers res_layers skip_layers
        (p_in p) conv_out conv_end).

(** The dropout masks one training pass draws: one per residual block
    and two in the output head. *)
Record masks : Type := mk_masks {
  drop_res : nat -> mask;
  drop_out1 : mask;
  drop_out2 : mask
}.

Definition layer_at (ls : list Conv.t) (i : nat) : result Conv.t :=
  match nth_error ls i with
  | Some c => Ok c
  | None => Raise IndexError
  end.

(** Lines 276-288 of [forward]: the conditioning input, cut to [T] time
    steps.  The [view] into residual blocks is taken where it is read. *)
Definition cond_for_forward (w : t) (features : signal) (T : nat)
  : result signal :=
  let cond_input := if upscale w =? 1 then features
                    else upsample w features in
  if length cond_input <? T then Raise AssertionError
  else
    let cond_input := if T <? length cond_input
                      then firstn T cond_input else cond_input in
    if use_cond_conv w then Conv.forward (cond_layers w) cond_input
    else Ok cond_input.

(** The gated activation unit: tanh of the first [n_residual_channels]
    channels times sigmoid of the others. *)
Definition gated (w : t) (in_act : signal) : signal :=
  let t_act := signal_map tanh (channels_to (n_residual_channels w) in_act) in
  let s_act := signal_map sigmoid
                 (channels_from (n_residual_channels w) in_act) in
  signal_mul t_act s_act.

(** Lines 316-320 of [forward], 391-395 of [infer_step]: the skip
    projection of the block, added to the running sum.  [output] is
    [None] while the variable is unbound. *)
Definition skip_accumulate (w : t) (i : nat) (acts : signal)
    (output : option signal) : result (option signal) :=
  if use_skip_out w then
    let* skip := layer_at (skip_layers w) i in
    let* y := Conv.forward skip acts in
    if i =? 0 then Ok (Some y)
    else match output with
         | Some o => Ok (Some (signal_add y o))
         | None => Raise UnboundLocalError
         end
  else Ok output.

(** Lines 322-323 and 397-398: the residual projection. *)
Definition residual_project (w : t) (i : nat) (acts : signal)
  : result signal :=
  if use_res_out_conv w && (i <? length (res_layers w)) then
    let* res := layer_at (res_layers w) i in
    Conv.forward res acts
  else Ok acts.

(** The part of a residual block after the gate, the same text in
    [forward] (lines 316-326) and in [infer_step] (lines 391-401): skip
    accumulation, residual projection, residual sum and gain. *)
Definition after_gate (w : t) (i : nat) (acts forward_input : signal)
    (output : option signal) : result (signal * option signal) :=
  let* output := skip_accumulate w i acts output in
  let* acts := residual_project w i acts in
  let forward_input := signal_add acts forward_input in
  let forward_input :=
    signal_map (fun v => (v * res_block_gain w)%Qc) forward_input in
  Ok (forward_input, output).

(** One pass of the residual block loop of [forward]. *)
Definition forward_block (w : t) (training : bool) (m : masks)
    (cond_input : signal) (i : nat) (forward_input : signal)
    (output : option signal) : result (signal * option signal) :=
  let forward_input := if training
                       then dropout (drop_res m i) forward_input
                       else forward_input in
  let* layer := layer_at (dilate_layers w) i in
  let* in_act := Conv.forward layer forward_input in
  let in_act :=
    if use_conditioning w then
      let cond_act := if same_cond_each_resblock w then cond_input
                      else channel_group (n_layers w) i cond_input in
      signal_add in_act cond_act
    else in_act in
  let acts := gated w in_act in
  after_gate w i acts forward_input output.

Fixpoint forward_blocks (w : t) (training : bool) (m : masks)
    (cond_input : signal) (idx : list nat) (forward_input : signal)
    (output : option signal) : result (signal * option signal) :=
  match idx with
  | [] => Ok (forward_input, output)
  | i :: idx' =>
      let* st := forward_block w training m cond_input i forward_input
                   output in
      forward_blocks w training m cond_input idx' (fst st) (snd st)
  end.

(** The output head of [forward] (lines 330-345). *)
Definition forward_head (w : t) (training : bool) (m : masks)
    (forward_input : signal) (output : option signal) : result signal :=
  if use_skip_out w then
    match output with
    | None => Raise UnboundLocalError
    | Some output =>
        let output := if training then dropout (drop_out1 m) output
                      else output in
        let output := signal_map relu output in
        let* output := Conv.forward (conv_out w) output in
        let output := if training then dropout (drop_out2 m) output
                      else output in
        let output := signal_map relu output in
        Conv.forward (conv_end w) output
    end
  else Ok forward_input.

(** Lines 347-354: drop the last time step, put a copy of it times 0.0
    in front.  [times_zero] is the product [v * 0.0] on the entries of
    the tensor, whatever they are taken from. *)
Definition shift_output {A : Type} (times_zero : A -> A)
    (output : list (list (list A))) : result (list (list (list A))) :=
  match rev output with
  | [] => Raise IndexError
  | last :: _ =>
      let output := removelast output in
      let first := map (map times_zero) last in
      Ok (first :: output)
  end.

(** The output of the stack before the final shift. *)
Definition forward_raw (w : t) (features : signal)
    (forward_input : list (list sample)) (training : bool) (m : masks)
  : result signal :=
  let* cond_input :=
    if use_conditioning w
    then cond_for_forward w features (length forward_input)
    else Ok [] in
  let forward_input := map (in_slice w) forward_input in
  let* st := forward_blocks w training m cond_input (seq 0 (n_layers w))
               forward_input None in
  forward_head w training m (fst st) (snd st).

(** [forward((features, forward_input), training)]. *)
Definition forward (w : t) (features : signal)
    (forward_input : list (list sample)) (training : bool) (m : masks)
  : result signal :=
  let* output := forward_raw w features forward_input training m in
  shift_output (fun v => (v * 0)%Qc) output.

(** *** Streaming *)

(** One pass of the residual block loop of [infer_step].  The dilated
    layer of the block comes back with its cache updated. *)
Definition infer_block (w : t) (cond_input : signal) (i : nat)
    (forward_input : signal) (output : option signal)
  : result (signal * option signal * t) :=
  let* layer := layer_at (dilate_layers w) i in
  let r := Conv.infer_step layer (last forward_input []) in
  let* layers := set_at i (snd r) (dilate_layers w) in
  let w := set_dilate_layers w layers in
  let* in_act := fst r in
  match in_act with
  | None => Raise TypeError
  | Some in_act =>
      let in_act :=
        if use_conditioning w then
          let cond_act := if use_cond_conv w
                          then channel_group (n_layers w) i cond_input
                          else cond_input in
          signal_add in_act cond_act
        else in_act in
      let acts := gated w in_act in
      let* st := after_gate w i acts forward_input output in
      Ok (st, w)
  end.

Fixpoint infer_blocks (w : t) (cond_input : signal) (idx : list nat)
    (forward_input : signal) (output : option signal)
  : result (signal * option signal * t) :=
  match idx with
  | [] => Ok (forward_input, output, w)
  | i :: idx' =>
      let* r := infer_block w cond_input i forward_input output in
      infer_blocks (snd r) cond_input idx' (fst (fst r)) (snd (fst r))
  end.

(** The output head of [infer_step] (lines 403-409). *)
Definition infer_head (w : t) (forward_input : signal)
    (output : option signal) : result signal :=
  if use_skip_out w then
    match output with
    | None => Raise UnboundLocalError
    | Some output =>
        let output := signal_map relu output in
        let* output := Conv.forward (conv_out w) output in
        let output := signal_map relu output in
        Conv.forward (conv_end w) output
    end
  else Ok forward_input.

(** [infer_step(cond_input, forward_input)]: one time step through the
    stack.  The result is the single output frame, of shape B x C x 1,
    and the network with the caches of its dilated layers advanced.
    The [squeeze()] of line 407 is accounted for where the result is
    stored ([logits_column]). *)
Definition infer_step (w : t) (cond_input : option frame)
    (forward_input : list sample) : result (frame * t) :=
  let forward_input := [in_slice w forward_input] in
  let* cond_input :=
    if use_conditioning w then
      match cond_input with
      | Some f => Ok [f]
      | None => Raise AttributeError
      end
    else Ok [] in
  let* r := infer_blocks w cond_input (seq 0 (n_layers w)) forward_input
              None in
  let* output := infer_head (snd r) (fst (fst r)) (snd (fst r)) in
  Ok (last output [], snd r).

(** *** The inference loop

    The loop hands the input layer one entry per batch element, a column
    of the teacher buffer or of the output-audio buffer.  That is what
    the one-hot input layer takes, class indices; a [Conv] input layer
    gets a tensor without channel axis there, and for an index outside
    the table the embedding raises IndexError.  The definitions below
    follow the loop on entries the input layer takes; the statements
    about it name that condition. *)

(** The samplers and the mu-law codec live in other modules of the
    repository ([utils], [nn.discretized_mix_logistics]).  A sampler is
    taken as a function from the logits of one time step to the sample
    it draws, the codec as acting entry by entry. *)
Variables SampleDiscretizedMixLogistics CategoricalSampler
  : list Qc -> sample.
Variable mu_law_encode : Qc -> sample.
Variable mu_law_decode : sample -> nat -> Qc.

(** What lines 429-455 of [inference] settle before the loop. *)
Record session : Type := mk_session {
  s_cond : option signal;
  s_length : nat;
  s_batch_size : nat
}.

(** Lines 448-452: the conditioning features of every time step and
    block.  The [view] into blocks is taken where it is read. *)
Definition cond_for_inference (w : t) (cond_features : signal)
    (length batch_size : nat) : result session :=
  let* cond_features :=
    if use_cond_conv w then Conv.forward (cond_layers w) cond_features
    else Ok cond_features in
  Ok (mk_session (Some cond_features) length batch_size).

Definition inference_init (w : t) (cond_features : option signal)
    (length audio_hz batch_size cond_channels : nat) : result session :=
  if use_conditioning w then
    match cond_features with
    | Some cond_features =>
        let length := List.length cond_features * upscale w in
        let batch_size := batch_of cond_features in
        let cond_features := if upscale w =? 1 then cond_features
                             else upsample w cond_features in
        cond_for_inference w cond_features length batch_size
    | None =>
        if 0 <? length then
          if (0 <? batch_size) && (0 <? cond_channels) then
            let cond_features :=
              repeat (zero_frame batch_size cond_channels) length in
            cond_for_inference w cond_features length batch_size
          else Raise AssertionError
        else Raise AssertionError
    end
  else Ok (mk_session cond_features (length * audio_hz) batch_size).

(** Lines 483-489: the conditioning of time step [s].  The tensor has
    four axes exactly when [same_cond_each_resblock] is off. *)
Definition cond_sample_at (w : t) (cond_features : option signal) (s : nat)
  : result (option frame) :=
  if use_conditioning w then
    match cond_features with
    | None => Raise TypeError
    | Some cf =>
        if use_cond_conv w then
          if same_cond_each_resblock w then Raise IndexError
          else let* f := get_at s cf in Ok (Some f)
        else
          if same_cond_each_resblock w
          then let* f := get_at s cf in Ok (Some f)
          else Raise Unmodelled
    end
  else Ok None.

(** Lines 491-500: the input of time step [s], a column of the teacher
    buffer or of the output-audio buffer.  With [randomize_input] on,
    the test [random.uniform < rand_sample_chance] compares a function
    with a number, which raises TypeError. *)
Definition forward_sample_at (randomize_input : bool)
    (rand_sample_chance : Qc) (teacher_audio : option (list (list sample)))
    (output_audio : list (list sample)) (s : nat) : result (list sample) :=
  if randomize_input then Raise TypeError
  else
    match teacher_audio with
    | Some teacher_audio =>
        if s <? length teacher_audio then get_at s teacher_audio
        else get_at s output_audio
    | None => get_at s output_audio
    end.

(** [t.squeeze()] on a shape: the axes of extent 1 go. *)
Definition squeeze (shape : list nat) : list nat :=
  filter (fun n => negb (n =? 1)) shape.

(** An indexed assignment drops the leading axes of extent 1 of the
    value it is given. *)
Fixpoint strip_ones (shape : list nat) : list nat :=
  match shape with
  | 1 :: shape' => strip_ones shape'
  | _ => shape
  end.

(** The value of [logits[:, s+1] = pred] (line 502).  A column of the
    logits buffer has [n_out_channels] entries and no batch axis.
    [pred] is the B x C x 1 result of [infer_step], squeezed (line 407)
    when the skip output is used.  torch expands the value to the
    column: a value without axes fills it, a vector of [n_out_channels]
    entries is copied, and any other shape raises RuntimeError. *)
Definition logits_column (w : t) (pred : frame) : result (list Qc) :=
  let shape := [length pred; length (hd [] pred); 1] in
  let shape := if use_skip_out w then squeeze shape
               else strip_ones shape in
  match shape with
  | [] => Ok (repeat (Conv1d.x_at pred 0 0) (n_out_channels w))
  | [n] => if n =? n_out_channels w then Ok (concat pred)
           else Raise RuntimeError
  | _ => Raise RuntimeError
  end.

(** [buf[:, i] = v] for a single value [v]: every entry of column [i]
    becomes [v]. *)
Definition fill_at {A : Type} (i : nat) (v : A) (buf : list (list A))
  : result (list (list A)) :=
  let* column := get_at i buf in
  set_at i (map (fun _ => v) column) buf.

(** The buffers of the loop, as the lists of their columns, and the
    network. *)
Record loop_state : Type := mk_loop {
  logits : list (list Qc);
  output_audio : list (list sample);
  net : t
}.

(** The body of the inference loop (lines 483-504). *)
Definition inference_step (use_logistic_mix randomize_input : bool)
    (rand_sample_chance : Qc) (teacher_audio : option (list (list sample)))
    (cond_features : option signal) (s : nat) (st : loop_state)
  : result loop_state :=
  let sampler := if use_logistic_mix then SampleDiscretizedMixLogistics
                 else CategoricalSampler in
  let* cond_sample := cond_sample_at (net st) cond_features s in
  let* forward_sample :=
    forward_sample_at randomize_input rand_sample_chance teacher_audio
      (output_audio st) s in
  let* r := infer_step (net st) cond_sample forward_sample in
  let* column := logits_column (net st) (fst r) in
  let* logits := set_at (s + 1) column (logits st) in
  let* l := get_at (s + 1) logits in
  let* output_audio := fill_at (s + 1) (sampler l) (output_audio st) in
  Ok (mk_loop logits output_audio (snd r)).

Fixpoint inference_loop (use_logistic_mix randomize_input : bool)
    (rand_sample_chance : Qc) (teacher_audio : option (list (list sample)))
    (cond_features : option signal) (steps : list nat) (st : loop_state)
  : result loop_state :=
  match steps with
  | [] => Ok st
  | s :: steps' =>
      let* st := inference_step use_logistic_mix randomize_input
                   rand_sample_chance teacher_audio cond_features s st in
      inference_loop use_logistic_mix randomize_input rand_sample_chance
        teacher_audio cond_features steps' st
  end.

(** The buffers before the first step (lines 458-460): zeros, and their
    mu-law code. *)
Definition initial_state (w : t) (ss : session) : loop_state :=
  mk_loop (repeat (repeat 0%Qc (n_out_channels w)) (s_length ss))
    (repeat (repeat (mu_law_encode 0%Qc) (s_batch_size ss))
       (s_length ss + 1))
    w.

(** [inference(...)].  The result is the decoded audio, one column per
    time index, together with the final buffers and network. *)
Definition inference (w : t) (cond_features : option signal)
    (use_logistic_mix : bool) (teacher_audio : option (list (list sample)))
    (mu_quantization : nat) (randomize_input : bool)
    (rand_sample_chance : Qc)
    (length audio_hz batch_size cond_channels : nat)
  : result (list (list Qc) * loop_state) :=
  let* ss := inference_init w cond_features length audio_hz batch_size
               cond_channels in
  let* st := inference_loop use_logistic_mix randomize_input
               rand_sample_chance teacher_audio (s_cond ss)
               (seq 0 (s_length ss - 1)) (initial_state w ss) in
  Ok (map (map (fun a => mu_law_decode a mu_quantization))
        (output_audio st), st).

End Model.
End Wavenet.

(** ** Auxiliary definitions for the statements about [Conv] *)

(** Not a method of the source: the driver the claims about streaming
    speak of.  [infer_step] is called once per time step, in order, and
    the one-frame outputs are concatenated along the time axis; the layer
    comes back as the last call left it. *)
Fixpoint stream_steps (c : Conv.t) (xs : signal) : result signal * Conv.t :=
  match xs with
  | [] => (Ok [], c)
  | x :: xs' =>
      match Conv.infer_step c x with
      | (Ok (Some y), c') =>
          match stream_steps c' xs' with
          | (Ok ys, c'') => (Ok (y ++ ys), c'')
          | (Raise e, c'') => (Raise e, c'')
          end
      | (Ok None, c') => (Raise TypeError, c')
      | (Raise e, c') => (Raise e, c')
      end
  end.

(** The content of the cache of a layer of dilation [d] that has been fed
    the frames [h] (oldest first) after starting from [d] copies of [z]. *)
Definition history_mem (d : nat) (z : frame) (h : list frame) : list frame :=
  firstn d (rev h ++ repeat z d).

(** The output frame of a two-tap layer whose window is [x0; x]. *)
Definition window_out (c : Conv.t) (x0 x : frame) : frame :=
  Conv1d.apply_taps (Conv.conv_weight c) (Conv.conv_bias c)
    (Conv.in_channels c) 2 (length x0) (fun k => nth k [x0; x] []).

(** The output frame of a one-tap layer on the frame [x]. *)
Definition point_out (c : Conv.t) (x : frame) : frame :=
  Conv1d.apply_taps (Conv.conv_weight c) (Conv.conv_bias c)
    (Conv.in_channels c) 1 (length x) (fun k => nth k [x] []).

(** ** Well-formed networks *)

(** A dilated layer as [__init__] builds it: causal, two taps, stride 1. *)
Definition dilated_layer (c : Conv.t) : Prop :=
  Conv.kernel_size c = 2 /\ Conv.is_causal c = true /\
  Conv.stride c = 1 /\ 1 <= Conv.dilation c.

(** A layer of kernel size 1 and stride 1: it acts on each time step. *)
Definition pointwise_layer (c : Conv.t) : Prop :=
  Conv.kernel_size c = 1 /\ Conv.stride c = 1 /\ 1 <= Conv.dilation c.

(** The shape [__init__] gives a network. *)
Definition well_formed {sample : Type} (w : @Wavenet.t sample) : Prop :=
  length (Wavenet.dilate_layers w) = Wavenet.n_layers w /\
  Forall dilated_layer (Wavenet.dilate_layers w) /\
  Forall pointwise_layer (Wavenet.res_layers w) /\
  Forall pointwise_layer (Wavenet.skip_layers w) /\
  pointwise_layer (Wavenet.cond_layers w) /\
  pointwise_layer (Wavenet.conv_out w) /\
  pointwise_layer (Wavenet.conv_end w) /\
  (Wavenet.use_skip_out w = true ->
   length (Wavenet.skip_layers w) = Wavenet.n_layers w /\
   1 <= Wavenet.n_layers w).

(** The output head [inference] reads its logits from: the skip output,
    whose last layer has [n_out_channels] output channels. *)
Definition logits_head {sample : Type} (w : @Wavenet.t sample) : Prop :=
  Wavenet.use_skip_out w = true /\
  length (Conv.conv_weight (Wavenet.conv_end w)) = Wavenet.n_out_channels w.

(** Every time slice holds [b] batch elements. *)
Definition has_batch (b : nat) (s : signal) : Prop :=
  Forall (fun f : frame => length f = b) s.

(** The caches of the dilated layers hold frames of [b] batch elements. *)
Definition caches_batch {sample : Type} (b : nat) (w : @Wavenet.t sample)
  : Prop :=
  Forall (fun c => match Conv.input_memory c with
                   | Some q => has_batch b q
                   | None => True
                   end) (Wavenet.dilate_layers w).

(** The conditioning input of [forward] at sample rate (lines 277-280). *)
Definition upsampled {sample : Type} (w : @Wavenet.t sample)
    (features : signal) : signal :=
  if Wavenet.upscale w =? 1 then features else Wavenet.upsample w features.

(** The network with the caches of its dilated layers dropped: what is
    left is everything construction and the weights determine. *)
Definition forget_caches {sample : Type} (w : @Wavenet.t sample)
  : @Wavenet.t sample :=
  Wavenet.set_dilate_layers w
    (map (fun c => Conv.set_input_memory c None) (Wavenet.dilate_layers w)).

(** The channels of the conditioning input the loop hands to the stack:
    those of one gate, once for every block when the conditioning
    convolution makes them. *)
Definition cond_width {sample : Type} (w : @Wavenet.t sample) : nat :=
  if Wavenet.use_cond_conv w
  then Wavenet.n_layers w * (2 * Wavenet.n_residual_channels w)
  else 2 * Wavenet.n_residual_channels w.

(** The conditioning a session of batch size [b] needs for its first
    [steps] time steps: a tensor that long, of [b] batch elements, laid
    out as the loop reads it (one group of channels per block exactly when
    the conditioning convolution made them). *)
Definition cond_ready {sample : Type} (w : @Wavenet.t sample)
    (cond : option signal) (b steps : nat) : Prop :=
  Wavenet.use_conditioning w = true ->
  Wavenet.use_cond_conv w = negb (Wavenet.same_cond_each_resblock w) /\
  exists cf : signal,
    cond = Some cf /\ steps <= length cf /\
    signal_shape b (cond_width w) cf.

(** The channel count to ask for when [inference] is to make up the
    conditioning tensor: what the conditioning convolution takes, which
    then gives the channels of every block; or those channels themselves
    when there is no such convolution. *)
Definition cond_channels_fit {sample : Type} (w : @Wavenet.t sample)
    (cond_channels : nat) : Prop :=
  if Wavenet.use_cond_conv w
  then Conv.in_channels (Wavenet.cond_layers w) = cond_channels /\
       length (Conv.conv_weight (Wavenet.cond_layers w)) = cond_width w
  else cond_channels = cond_width w.

(** A network none of whose dilated layers has been stepped yet. *)
Definition fresh {sample : Type} (w : @Wavenet.t sample) : Prop :=
  Forall (fun c => Conv.input_memory c = None) (Wavenet.dilate_layers w).

(** The columns of a buffer of the loop hold [b] entries; so do those of
    the teacher buffer, when there is one. *)
Definition columns_batch {A : Type} (b : nat) (buf : list (list A)) : Prop :=
  Forall (fun column => length column = b) buf.

Definition teacher_batch {A : Type} (b : nat)
    (teacher : option (list (list A))) : Prop :=
  match teacher with
  | Some buf => columns_batch b buf
  | None => True
  end.

(** What the inference loop keeps true of its state: the network is the
    initial one up to the caches, which hold frames of [b] batch elements,
    and the buffers keep their extents. *)
Definition loop_inv {sample : Type} (w0 : @Wavenet.t sample) (b L : nat)
    (st : @Wavenet.loop_state sample) : Prop :=
  forget_caches (Wavenet.net st) = forget_caches w0 /\
  length (Wavenet.logits st) = L /\
  length (Wavenet.output_audio st) = L + 1 /\
  caches_batch b (Wavenet.net st) /\
  columns_batch b (Wavenet.output_audio st).

(** The length of the skip accumulator, when it is bound, and its batch
    size. *)
Definition opt_length (T : nat) (o : option signal) : Prop :=
  match o with
  | Some s => length s = T
  | None => True
  end.

Definition opt_batch (b : nat) (o : option signal) : Prop :=
  match o with
  | Some s => has_batch b s
  | None => True
  end.

(** ** Concrete layers and inputs used in the examples *)

Definition qz (z : Z) : Qc := Q2Qc (inject_Z z).

(** One input channel, one output channel, taps 1 and 10, bias 100,
    dilation 2, causal. *)
Definition conv_k2_d2 : Conv.t :=
  Conv.mk true 2 1 2 1 [[[qz 1; qz 10]]] (Some [qz 100]) false None.

(** The same taps on a layer that is not causal. *)
Definition conv_k2_noncausal : Conv.t :=
  Conv.mk false 2 1 2 1 [[[qz 1; qz 10]]] (Some [qz 100]) false None.

(** Kernel size 1, weight 1, no bias; causal, stride 2. *)
Definition conv_k1_stride2 : Conv.t :=
  Conv.mk true 1 1 1 2 [[[qz 1]]] None false None.

(** Kernel size 1, weight 1, no bias; causal, with the Softsign activation. *)
Definition conv_k1_act : Conv.t :=
  Conv.mk true 1 1 1 1 [[[qz 1]]] None true None.

(** Kernel size 1, weight 3, bias 1; causal. *)
Definition conv_k1 : Conv.t :=
  Conv.mk true 1 1 1 1 [[[qz 3]]] (Some [qz 1]) false None.

(** Batch size 1, one channel, four time steps: 1, 2, 3, 4. *)
Definition ramp4 : signal := [[[qz 1]]; [[qz 2]]; [[qz 3]]; [[qz 4]]].

(** ** A small network used in the examples *)

(** Rational stand-ins for tanh and sigmoid, to run the examples with:
    like them increasing, with tanh_q 0 = 0 and sigmoid_q 0 = 1/2, and
    with values in (-1, 1) and (0, 1). *)
Definition tanh_q (x : Qc) : Qc := softsign x.
Definition sigmoid_q (x : Qc) : Qc := ((1 + softsign x) / Q2Qc 2)%Qc.

(** A sampler stub: class 2 where the first logit is above 3/5, class 1
    elsewhere. *)
Definition sampler_stub (l : list Qc) : Z :=
  if Qclt_le_dec (Q2Qc (3 # 5)) (hd 0%Qc l) then 2%Z else 1%Z.

(** Codec stubs: every amplitude encodes to class 1; a class decodes to
    its number. *)
Definition encode_stub (x : Qc) : Z := 1%Z.
Definition decode_stub (s : Z) (mu : nat) : Qc := qz s.

(** Four classes, embedded as the numbers 0 to 3. *)
Definition tiny_embedding : QuantizedInputLayer.t :=
  QuantizedInputLayer.mk [[qz 0]; [qz 1]; [qz 2]; [qz 3]] false.

(** The dilated layers send the sum of their two taps to the tanh half
    and 0 to the sigmoid half; the skip layers and the first layer of the
    head copy their input; the last layer gives the two logits x and
    2 x. *)
Definition tiny_params : @Wavenet.params Z :=
  Wavenet.mk_params ([], [])
    (fun _ => ([[[qz 1; qz 1]]; [[qz 0; qz 0]]], []))
    (fun _ => ([], [])) (fun _ => ([[[qz 1]]], [])) [[[qz 1]]]
    [[[qz 1]]; [[qz 2]]]
    (QuantizedInputLayer.forward_entry tiny_embedding) (fun s => s).

(** Two blocks (dilations 1 and 2), one residual channel, gain 1, the
    skip output with one skip channel and two output channels, no
    residual projection; with or without conditioning (two channels, the
    same for every block, no conditioning convolution). *)
Definition tiny_net (use_conditioning : bool) : @Wavenet.t Z :=
  Wavenet.mk 2 2 1 2 1 use_conditioning true false true false (qz 1)
    (UpsampleByRepetition.forward 1)
    (Conv_init 2 1 1 1 false false false [] [])
    [Conv_init 1 2 1 1 false true false [[[qz 1; qz 1]]; [[qz 0; qz 0]]] [];
     Conv_init 1 2 1 2 false true false [[[qz 1; qz 1]]; [[qz 0; qz 0]]] []]
    []
    [Conv_init 1 1 1 1 false false false [[[qz 1]]] [];
     Conv_init 1 1 1 1 false false false [[[qz 1]]] []]
    (QuantizedInputLayer.forward_entry tiny_embedding)
    (Conv_init 1 1 1 1 false false false [[[qz 1]]] [])
    (Conv_init 1 1 1 1 false false false [[[qz 1]]; [[qz 2]]] []).

(** Masks that drop nothing. *)
Definition no_masks : Wavenet.masks :=
  Wavenet.mk_masks (fun _ _ _ _ => 1%Qc) (fun _ _ _ => 1%Qc)
    (fun _ _ _ => 1%Qc).

(** [inference] on the small network with the stubs. *)
Definition tiny_inference (w : @Wavenet.t Z)
    (cond_features : option signal) (teacher : option (list (list Z)))
    (randomize_input : bool)
    (length audio_hz batch_size cond_channels : nat)
  : result (list (list Qc) * @Wavenet.loop_state Z) :=
  Wavenet.inference tanh_q sigmoid_q sampler_stub sampler_stub encode_stub
    decode_stub w cond_features false teacher 256 randomize_input
    (Q2Qc (1 # 2)) length audio_hz batch_size cond_channels.

(** ** Auxiliary definitions for the further properties *)

(** Every entry of a tensor lies between -1 and 1, the bounds included:
    in float32 Softsign reaches them (from |x| = 2^24 on). *)
Definition within_unit (v : Qc) : Prop := (- (1) <= v)%Qc /\ (v <= 1)%Qc.

Definition signal_within_unit (s : signal) : Prop :=
  Forall (Forall (Forall within_unit)) s.

(** One input channel, one output channel, three taps; causal. *)
Definition conv_k3 : Conv.t :=
  Conv.mk true 3 1 1 1 [[[qz 1; qz 10; qz 100]]] None false None.

(** Kernel size 2, dilation 2, stride 2; not causal. *)
Definition conv_k2_d2_s2 : Conv.t :=
  Conv.mk false 2 1 2 2 [[[qz 1; qz 10]]] None false None.

(** A table of [n_out] columns, and class indices that are rows of it. *)
Definition table_width (n_out : nat) (q : QuantizedInputLayer.t) : Prop :=
  Forall (fun row => length row = n_out) (QuantizedInputLayer.embed q).

Definition classes_of (q : QuantizedInputLayer.t) (x : list (list Z))
  : Prop :=
  Forall (Forall (fun i =>
    (0 <= i < Z.of_nat (length (QuantizedInputLayer.embed q)))%Z)) x.

(** A class of the table of a one-hot input layer: the index of a row. *)
Definition class_of (q : QuantizedInputLayer.t) (i : Z) : Prop :=
  (0 <= i < Z.of_nat (length (QuantizedInputLayer.embed q)))%Z.

(** The network was built with [onehot_input] set: its input layer is
    the [QuantizedInputLayer] [q], a table of [n_residual_channels]
    columns.  The inference loop is about these networks: it hands the
    input layer one class index per batch element, which a [Conv] input
    layer does not take (a tensor without channel axis). *)
Definition onehot_input (w : @Wavenet.t Z) (q : QuantizedInputLayer.t)
  : Prop :=
  (forall i : Z,
     Wavenet.in_layer w i = QuantizedInputLayer.forward_entry q i) /\
  table_width (Wavenet.n_residual_channels w) q.

(** What the inference loop feeds a one-hot input layer are classes of
    its table: the start symbol [mu_law_encode(0)], whatever the sampler
    returns, and the teacher samples. *)
Definition class_inputs (q : QuantizedInputLayer.t)
    (sampler : list Qc -> Z) (mu_law_encode : Qc -> Z)
    (teacher_audio : option (list (list Z))) : Prop :=
  class_of q (mu_law_encode 0%Qc) /\
  (forall l : list Qc, class_of q (sampler l)) /\
  match teacher_audio with
  | Some buf => classes_of q buf
  | None => True
  end.

(** The extents torch gives the weight and the bias of a convolution of
    [i] input channels, [o] output channels and [k] taps. *)
Definition conv_extents (i o k : nat) (c : Conv.t) : Prop :=
  Conv.in_channels c = i /\ Conv.kernel_size c = k /\
  length (Conv.conv_weight c) = o /\
  Forall (fun f => length f = i /\ Forall (fun taps => length taps = k) f)
    (Conv.conv_weight c) /\
  match Conv.conv_bias c with
  | Some bias => length bias = o
  | None => True
  end.

(** The channels of the conditioning input of the residual blocks: those
    of one gate, or of one gate per block. *)
Definition cond_out_channels {sample : Type} (w : @Wavenet.t sample)
  : nat :=
  if Wavenet.same_cond_each_resblock w
  then 2 * Wavenet.n_residual_channels w
  else Wavenet.n_layers w * (2 * Wavenet.n_residual_channels w).

(** The channel extents of the layers are those [__init__] gives them,
    for some numbers of skip channels and of channels inside the output
    head: what one layer gives out the next takes in.  There is at least
    one channel of each kind and at least one residual block. *)
Definition channels_fit {sample : Type} (w : @Wavenet.t sample) : Prop :=
  1 <= Wavenet.n_residual_channels w /\ 1 <= Wavenet.n_layers w /\
  Forall (conv_extents (Wavenet.n_residual_channels w)
            (2 * Wavenet.n_residual_channels w) 2)
    (Wavenet.dilate_layers w) /\
  Forall (conv_extents (Wavenet.n_residual_channels w)
            (Wavenet.n_residual_channels w) 1)
    (Wavenet.res_layers w) /\
  (Wavenet.use_skip_out w = true ->
   exists n_skip_channels n_skip_to_out_channels : nat,
     1 <= n_skip_channels /\ 1 <= n_skip_to_out_channels /\
     1 <= Wavenet.n_out_channels w /\
     Forall (conv_extents (Wavenet.n_residual_channels w)
               n_skip_channels 1)
       (Wavenet.skip_layers w) /\
     conv_extents n_skip_channels n_skip_to_out_channels 1
       (Wavenet.conv_out w) /\
     conv_extents n_skip_to_out_channels (Wavenet.n_out_channels w) 1
       (Wavenet.conv_end w)) /\
  (Wavenet.use_conditioning w = true -> Wavenet.use_cond_conv w = true ->
   1 <= Conv.in_channels (Wavenet.cond_layers w) /\
   conv_extents (Conv.in_channels (Wavenet.cond_layers w))
     (cond_out_channels w) 1 (Wavenet.cond_layers w)).

(** The audio input of [forward] fits the network: [b] batch elements,
    at least one, at every time step, and entries the input layer turns
    into [n_residual_channels] channels (classes of the table, for a
    one-hot input layer). *)
Definition input_fits {sample : Type} (w : @Wavenet.t sample) (b : nat)
    (xs : list (list sample)) : Prop :=
  1 <= b /\ columns_batch b xs /\
  Forall (Forall (fun x =>
    length (Wavenet.in_layer w x) = Wavenet.n_residual_channels w)) xs.

(** The conditioning channels the network takes: those of the
    conditioning convolution, or those the residual blocks read when
    there is none. *)
Definition cond_in_channels {sample : Type} (w : @Wavenet.t sample)
  : nat :=
  if Wavenet.use_cond_conv w
  then Conv.in_channels (Wavenet.cond_layers w)
  else cond_out_channels w.

(** The features fit the network: they have at least one frame, [b]
    batch elements and the conditioning channels the network takes, as
    given and at sample rate (either upsampler keeps the channels). *)
Definition features_fit {sample : Type} (w : @Wavenet.t sample) (b : nat)
    (features : signal) : Prop :=
  Wavenet.use_conditioning w = true ->
  features <> [] /\
  signal_shape b (cond_in_channels w) features /\
  signal_shape b (cond_in_channels w) (upsampled w features).






(** The four classes of [tiny_embedding], with the activation on. *)
Definition tiny_embedding_act : QuantizedInputLayer.t :=
  QuantizedInputLayer.mk [[qz 0]; [qz 1]; [qz 2]; [qz 3]] true.

(** A dilated layer as [__init__] leaves it: no more than [max_dilation]
    apart its two taps, no activation, no cache yet. *)
Definition built_dilated (max_dilation : Z) (c : Conv.t) : Prop :=
  dilated_layer c /\
  (Z.of_nat (Conv.dilation c) <= max_dilation)%Z /\
  Conv.use_act c = false /\ Conv.input_memory c = None.

(** Not a method of the source: the driver the statements about
    streaming the whole stack speak of.  [Wavenet.infer_step] is called
    once per time step, in order, from step [s] on, each call on the
    network the one before left; step [s] gets the conditioning of time
    [s], when there is one.  The one-frame outputs are put together
    along the time axis. *)
Fixpoint infer_steps {sample : Type} (tanh sigmoid : Qc -> Qc)
    (w : @Wavenet.t sample) (cond : signal) (s : nat)
    (xs : list (list sample)) : result (signal * @Wavenet.t sample) :=
  match xs with
  | [] => Ok ([], w)
  | x :: xs' =>
      let* r := Wavenet.infer_step tanh sigmoid w (nth_error cond s) x in
      let* rs := infer_steps tanh sigmoid (snd r) cond (S s) xs' in
      Ok (fst r :: fst rs, snd rs)
  end.

(** The time step [t] of a tensor, as a tensor of one time step. *)
Definition slice (t : nat) (s : signal) : signal := [nth t s []].

(** A dilated layer that has been fed the first [t] time steps of [X],
    of [b] batch elements: no cache before the first step, the last
    [dilation] inputs behind zero frames afterwards. *)
Definition layer_state (c : Conv.t) (b t : nat) (X : signal) : Conv.t :=
  Conv.set_input_memory c
    (if t =? 0 then None
     else Some (history_mem (Conv.dilation c)
                  (zero_frame b (Conv.in_channels c)) (firstn t X))).

(** The inputs of the residual blocks [idx] in a pass of [forward]
    without dropout, one tensor per block. *)
Fixpoint block_inputs {sample : Type} (tanh sigmoid : Qc -> Qc)
    (w : @Wavenet.t sample) (m : Wavenet.masks) (cond_input : signal)
    (idx : list nat) (forward_input : signal) (output : option signal)
  : list signal :=
  match idx with
  | [] => []
  | i :: idx' =>
      forward_input ::
      match Wavenet.forward_block tanh sigmoid w false m cond_input i
              forward_input output with
      | Ok st => block_inputs tanh sigmoid w m cond_input idx' (fst st)
                   (snd st)
      | Raise _ => []
      end
  end.

(** The dilated layers [ls] are those of [w0], layer [j] having been fed
    the first [time j] steps of the [j]-th of the tensors [Xs]. *)
Definition layers_fed {sample : Type} (w0 : @Wavenet.t sample) (b : nat)
    (Xs : list signal) (time : nat -> nat) (ls : list Conv.t) : Prop :=
  length ls = length (Wavenet.dilate_layers w0) /\
  forall (j : nat) (c : Conv.t),
    nth_error (Wavenet.dilate_layers w0) j = Some c ->
    nth_error ls j = Some (layer_state c b (time j) (nth j Xs [])).

(** Conditioning for three time steps of the small network: batch size
    1, two channels. *)
Definition tiny_cond : signal :=
  [[[qz 1; qz 0]]; [[qz 0; qz 1]]; [[qz 2; qz 2]]].

(** The upsampler of [w] is [UpsampleByRepetition], or is not called
    ([upscale] is 1). *)
Definition upsamples_by_copy {sample : Type} (w : @Wavenet.t sample)
  : Prop :=
  Wavenet.upscale w = 1 \/
  Wavenet.upsample w = UpsampleByRepetition.forward (Wavenet.upscale w).

(** The small network without its residual blocks. *)
Definition tiny_net_no_blocks : @Wavenet.t Z :=
  Wavenet.mk 0 2 1 2 1 false true false true false (qz 1)
    (UpsampleByRepetition.forward 1)
    (Conv_init 2 1 1 1 false false false [] [])
    [] [] []
    (QuantizedInputLayer.forward_entry tiny_embedding)
    (Conv_init 1 1 1 1 false false false [[[qz 1]]] [])
    (Conv_init 1 1 1 1 false false false [[[qz 1]]; [[qz 2]]] []).

(** The time steps the dilated layers [a .. a+k-1] of [ls] look back,
    together: the sum of their dilations. *)
Definition span_from (ls : list Conv.t) (a k : nat) : nat :=
  list_sum (map Conv.dilation (firstn k (skipn a ls))).

(** How far back an output step of the stack looks: the sum of the
    dilations of all its dilated layers. *)
Definition receptive_span {sample : Type} (w : @Wavenet.t sample) : nat :=
  list_sum (map Conv.dilation (Wavenet.dilate_layers w)).

(** Two tensors have the same time steps [lo .. hi]; two optional
    tensors are both unbound, or both bound with the same time steps
    [lo .. hi]. *)
Definition agree_on (lo hi : nat) (X X' : signal) : Prop :=
  forall j : nat, lo <= j <= hi -> slice j X = slice j X'.

Definition opt_agree_on (lo hi : nat) (O O' : option signal) : Prop :=
  forall j : nat, lo <= j <= hi ->
    option_map (slice j) O = option_map (slice j) O'.

(** * Properties *)

(** Equality of computed tensors: entries are compared as canonical
    rationals. *)
Ltac qc_canon := apply Qc_is_canon; vm_compute; reflexivity.

Ltac eq_by_eval :=
  vm_compute;
  repeat first
    [ reflexivity
    | match goal with |- @eq Qc _ _ => qc_canon end
    | progress f_equal ].

(** ** Lists, sums and taps *)

Lemma sum_upto_ext (n : nat) (f g : nat -> Qc) :
  (forall i, i < n -> f i = g i) -> sum_upto n f = sum_upto n g.
Proof.
  intros H. unfold sum_upto. f_equal.
  apply map_ext_in. intros i Hi. apply in_seq in Hi. apply H. lia.
Qed.

Lemma apply_taps_ext w bias in_ch ksize batch (tap tap' : nat -> frame) :
  (forall k, k < ksize -> tap k = tap' k) ->
  Conv1d.apply_taps w bias in_ch ksize batch tap =
  Conv1d.apply_taps w bias in_ch ksize batch tap'.
Proof.
  intros H. unfold Conv1d.apply_taps.
  apply map_ext. intros b. apply map_ext. intros o. f_equal.
  apply sum_upto_ext. intros c _. apply sum_upto_ext. intros k Hk.
  now rewrite (H k Hk).
Qed.

Lemma firstn_snoc_nth {A} (d : nat) (l : list A) (z : A) :
  d < length l -> firstn (S d) l = firstn d l ++ [nth d l z].
Proof.
  revert l. induction d; intros [|a l] H; simpl in *; try lia.
  - reflexivity.
  - f_equal. apply IHd. lia.
Qed.

Lemma map_seq_S {A} (f : nat -> A) (n : nat) :
  map f (seq 0 (S n)) = f 0 :: map (fun j => f (S j)) (seq 0 n).
Proof.
  simpl. f_equal. rewrite <- seq_shift, map_map. reflexivity.
Qed.

(** ** The cache of a causal two-tap layer *)

Lemma pop_snoc (q : list frame) (y : frame) :
  Conv.pop (q ++ [y]) = Ok (y, q).
Proof.
  unfold Conv.pop. rewrite rev_app_distr. simpl. now rewrite rev_involutive.
Qed.

Lemma pop_push (d : nat) (x : frame) (l : list frame) :
  d <= length l ->
  Conv.pop (x :: firstn d l) = Ok (nth d (x :: l) [], firstn d (x :: l)).
Proof.
  intros H.
  assert (E : x :: firstn d l = firstn d (x :: l) ++ [nth d (x :: l) []]).
  { rewrite <- firstn_snoc_nth by (simpl; lia). reflexivity. }
  rewrite E. apply pop_snoc.
Qed.

Lemma history_mem_length d z h : length (history_mem d z h) = d.
Proof.
  unfold history_mem. rewrite length_firstn, length_app, repeat_length. lia.
Qed.

Lemma rev_repeat_same {A} (z : A) (d : nat) : rev (repeat z d) = repeat z d.
Proof.
  induction d; simpl; [reflexivity|].
  rewrite IHd. clear IHd. induction d; simpl; [reflexivity|].
  now rewrite IHd.
Qed.

(** The frame that leaves the cache is the one [d] positions before the
    current frame in the zero-padded sequence. *)
Lemma evicted_frame (d : nat) (x z : frame) (h : list frame) :
  nth d (x :: rev h ++ repeat z d) [] =
  nth (length h) (repeat z d ++ h ++ [x]) [].
Proof.
  assert (E : x :: rev h ++ repeat z d = rev (repeat z d ++ h ++ [x])).
  { rewrite !rev_app_distr, rev_repeat_same. reflexivity. }
  rewrite E, rev_nth.
  - f_equal. rewrite !length_app, repeat_length. simpl. lia.
  - rewrite !length_app, repeat_length. simpl. lia.
Qed.

Lemma infer_step_cached (c : Conv.t) (x z : frame) (h : list frame) :
  Conv.kernel_size c = 2 -> Conv.is_causal c = true ->
  Conv.input_memory c = Some (history_mem (Conv.dilation c) z h) ->
  Conv.infer_step c x =
    (Ok (Some [window_out c
                 (nth (length h) (repeat z (Conv.dilation c) ++ h ++ [x]) [])
                 x]),
     Conv.set_input_memory c
       (Some (history_mem (Conv.dilation c) z (h ++ [x])))).
Proof.
  intros HK HC HM. rewrite <- evicted_frame.
  unfold Conv.infer_step. rewrite HK, HC, HM. simpl Nat.eqb. cbv iota.
  rewrite HM. unfold history_mem.
  rewrite pop_push by (rewrite length_app, repeat_length; lia).
  rewrite rev_app_distr. simpl rev. simpl app.
  cbn [Conv.conv_weight Conv.conv_bias Conv.in_channels Conv.kernel_size
       Conv.set_input_memory].
  rewrite HK. reflexivity.
Qed.

Lemma infer_step_fresh (c : Conv.t) (x : frame) :
  Conv.kernel_size c = 2 -> Conv.is_causal c = true ->
  Conv.input_memory c = None ->
  Conv.infer_step c x = Conv.infer_step (Conv.init_input_memory c x) x.
Proof.
  intros HK HC HM. unfold Conv.infer_step. rewrite HM.
  cbn [Conv.init_input_memory Conv.set_input_memory Conv.kernel_size
       Conv.is_causal Conv.input_memory].
  rewrite HK, HC. reflexivity.
Qed.

Lemma stream_cached (xs : signal) :
  forall (c : Conv.t) (z : frame) (h : list frame),
  Conv.kernel_size c = 2 -> Conv.is_causal c = true ->
  Conv.input_memory c = Some (history_mem (Conv.dilation c) z h) ->
  stream_steps c xs =
    (Ok (map (fun j =>
           window_out c
             (nth (length h + j) (repeat z (Conv.dilation c) ++ h ++ xs) [])
             (nth j xs []))
           (seq 0 (length xs))),
     Conv.set_input_memory c
       (Some (history_mem (Conv.dilation c) z (h ++ xs)))).
Proof.
  induction xs as [|x xs IH]; intros c z h HK HC HM.
  - simpl. rewrite app_nil_r. f_equal. destruct c; simpl in *. now rewrite HM.
  - cbn [stream_steps]. rewrite (infer_step_cached c x z h HK HC HM).
    rewrite (IH _ z (h ++ [x])); [|assumption|assumption|reflexivity].
    cbn [Conv.set_input_memory Conv.dilation Conv.is_causal Conv.kernel_size
         Conv.in_channels Conv.stride Conv.conv_weight Conv.conv_bias
         Conv.use_act].
    rewrite <- !app_assoc. simpl app. f_equal.
    cbn [length]. rewrite map_seq_S. rewrite Nat.add_0_r.
    f_equal. apply (f_equal2 cons).
    + simpl nth. f_equal.
      replace (repeat z (Conv.dilation c) ++ h ++ x :: xs)
        with ((repeat z (Conv.dilation c) ++ h ++ [x]) ++ xs)
        by (rewrite <- !app_assoc; reflexivity).
      rewrite (app_nth1 (repeat z (Conv.dilation c) ++ h ++ [x]) xs);
        [reflexivity|].
      rewrite !length_app, repeat_length. simpl. lia.
    + apply map_ext. intros j. rewrite length_app. simpl.
      replace (length h + 1 + j) with (length h + S j) by lia. reflexivity.
Qed.

Lemma history_mem_nil (d : nat) (z : frame) :
  history_mem d z [] = repeat z d.
Proof.
  unfold history_mem. simpl. rewrite <- (repeat_length z d) at 1.
  apply firstn_all.
Qed.

Lemma stream_fresh (c : Conv.t) (x : frame) (xs : signal) :
  Conv.kernel_size c = 2 -> Conv.is_causal c = true ->
  Conv.input_memory c = None ->
  stream_steps c (x :: xs) =
  stream_steps (Conv.init_input_memory c x) (x :: xs).
Proof.
  intros HK HC HM. cbn [stream_steps].
  now rewrite (infer_step_fresh c x HK HC HM).
Qed.

(** The whole streaming run of a fresh causal two-tap layer. *)
Lemma stream_two_tap (c : Conv.t) (x : frame) (xs : signal) :
  Conv.kernel_size c = 2 -> Conv.is_causal c = true ->
  Conv.input_memory c = None ->
  let d := Conv.dilation c in
  let z := zero_frame (length x) (Conv.in_channels c) in
  stream_steps c (x :: xs) =
    (Ok (map (fun j =>
           window_out c (nth j (repeat z d ++ x :: xs) [])
                        (nth j (x :: xs) []))
           (seq 0 (length (x :: xs)))),
     Conv.set_input_memory c (Some (history_mem d z (x :: xs)))).
Proof.
  intros HK HC HM d z. rewrite (stream_fresh c x xs HK HC HM).
  rewrite (stream_cached (x :: xs) (Conv.init_input_memory c x) z []);
    [reflexivity|assumption|assumption|].
  cbn [Conv.init_input_memory Conv.set_input_memory Conv.input_memory
       Conv.dilation Conv.in_channels].
  now rewrite history_mem_nil.
Qed.

(** ** Kernel size 1 in streaming mode *)

Lemma infer_step_k1 (c : Conv.t) (x : frame) :
  Conv.kernel_size c = 1 ->
  Conv.infer_step c x = ((let* y := Conv.conv c [x] in Ok (Some y)), c).
Proof.
  intros HK. unfold Conv.infer_step. now rewrite HK.
Qed.

Lemma stream_k1_state (xs : signal) (c : Conv.t) :
  Conv.kernel_size c = 1 -> snd (stream_steps c xs) = c.
Proof.
  intros HK. induction xs as [|x xs IH]; [reflexivity|].
  cbn [stream_steps]. rewrite (infer_step_k1 c x HK).
  destruct (Conv.conv c [x]) as [y|e]; cbn [bind]; [|reflexivity].
  destruct (stream_steps c xs) as [[ys|e] c']; simpl in *; assumption.
Qed.

(** C10: a layer of kernel size 1 is stateless in streaming mode.  The step
    returns [self.conv] applied to the frame, the layer comes back exactly
    as it was, and so it does after any run of steps: [input_memory] is
    neither initialised nor changed. *)
Theorem kernel1_infer_step_stateless (c : Conv.t) (x : frame) :
  Conv.kernel_size c = 1 ->
  fst (Conv.infer_step c x) = (let* y := Conv.conv c [x] in Ok (Some y)) /\
  snd (Conv.infer_step c x) = c /\
  Conv.input_memory (snd (Conv.infer_step c x)) = Conv.input_memory c /\
  forall xs : signal,
    Conv.input_memory (snd (stream_steps c xs)) = Conv.input_memory c.
Proof.
  intros HK. rewrite (infer_step_k1 c x HK). cbn [fst snd].
  repeat split. intros xs. now rewrite (stream_k1_state xs c HK).
Qed.

Lemma kernel1_infer_step_stateless_witness :
  Conv.kernel_size conv_k1 = 1 /\
  fst (Conv.infer_step conv_k1 [[qz 2]]) = Ok (Some [[[qz 7]]]) /\
  Conv.input_memory (snd (Conv.infer_step conv_k1 [[qz 2]])) = None.
Proof.
  destruct (kernel1_infer_step_stateless conv_k1 [[qz 2]] eq_refl)
    as (H1 & H2 & H3 & _).
  split; [reflexivity|]. split.
  - rewrite H1. eq_by_eval.
  - rewrite H3. reflexivity.
Defined.

(** ** A layer that is neither of kernel size 1 nor causal *)

(** C8 (as the code has it): on a layer with kernel size above 1 that is
    not causal, [infer_step] raises nothing; it falls off its end, which
    returns [None], and the layer is left as it was. *)
Theorem noncausal_infer_step_returns_none (c : Conv.t) (x : frame) :
  1 < Conv.kernel_size c -> Conv.is_causal c = false ->
  Conv.infer_step c x = (Ok None, c).
Proof.
  intros HK HC. unfold Conv.infer_step. rewrite HC.
  destruct (Nat.eqb_spec (Conv.kernel_size c) 1) as [E|E]; [lia|reflexivity].
Qed.

Lemma noncausal_infer_step_returns_none_witness :
  1 < Conv.kernel_size conv_k2_noncausal /\
  Conv.is_causal conv_k2_noncausal = false /\
  Conv.infer_step conv_k2_noncausal [[qz 1]] = (Ok None, conv_k2_noncausal).
Proof.
  split; [simpl; lia|]. split; [reflexivity|].
  apply (noncausal_infer_step_returns_none conv_k2_noncausal [[qz 1]]).
  - simpl. lia.
  - reflexivity.
Defined.

(** C8, the claim as stated fails: no error is raised for the non-causal
    two-tap layer; the call returns [None] and changes nothing. *)
Lemma noncausal_infer_step_no_error :
  1 < Conv.kernel_size conv_k2_noncausal /\
  Conv.is_causal conv_k2_noncausal = false /\
  (forall e, fst (Conv.infer_step conv_k2_noncausal [[qz 1]]) <> Raise e) /\
  fst (Conv.infer_step conv_k2_noncausal [[qz 1]]) = Ok None /\
  snd (Conv.infer_step conv_k2_noncausal [[qz 1]]) = conv_k2_noncausal.
Proof.
  split; [simpl; lia|]. split; [reflexivity|]. split.
  - intros e. cbv [Conv.infer_step conv_k2_noncausal Conv.kernel_size
                   Conv.is_causal Nat.eqb fst]. discriminate.
  - split; reflexivity.
Qed.

(** ** The cache invariant *)

(** C2: on a causal two-tap layer of dilation [d], [init_input_memory]
    makes the cache [d] zero frames, and after the first and every later
    [infer_step] the cache holds exactly [d] frames: the last [d] inputs,
    newest first, completed with zero frames.  Each step thus pushes its
    frame and drops the one that is [d] steps old, which is the frame the
    step convolves with the current one: entry [j] of the input padded
    with [d] zero frames on the left, for step [j]. *)
Theorem cache_length_is_dilation (c : Conv.t) (x : frame) :
  Conv.kernel_size c = 2 -> Conv.is_causal c = true ->
  Conv.input_memory c = None ->
  let d := Conv.dilation c in
  let z := zero_frame (length x) (Conv.in_channels c) in
  Conv.input_memory (Conv.init_input_memory c x) = Some (repeat z d) /\
  forall xs : signal,
    exists q : list frame,
      Conv.input_memory (snd (stream_steps c (x :: xs))) = Some q /\
      length q = d /\
      q = firstn d (rev (x :: xs) ++ repeat z d) /\
      fst (stream_steps c (x :: xs)) =
        Ok (map (fun j =>
              window_out c (nth j (repeat z d ++ x :: xs) [])
                           (nth j (x :: xs) []))
              (seq 0 (length (x :: xs)))).
Proof.
  intros HK HC HM d z. split; [reflexivity|].
  intros xs. exists (history_mem d z (x :: xs)).
  rewrite (stream_two_tap c x xs HK HC HM).
  cbn [fst snd Conv.set_input_memory Conv.input_memory].
  split; [reflexivity|]. split; [apply history_mem_length|].
  split; reflexivity.
Qed.

Lemma cache_length_is_dilation_witness :
  Conv.kernel_size conv_k2_d2 = 2 /\ Conv.is_causal conv_k2_d2 = true /\
  Conv.input_memory conv_k2_d2 = None /\
  Conv.input_memory (Conv.init_input_memory conv_k2_d2 [[qz 1]]) =
    Some [[[qz 0]]; [[qz 0]]] /\
  Conv.input_memory (snd (stream_steps conv_k2_d2 ramp4)) =
    Some [[[qz 4]]; [[qz 3]]].
Proof.
  destruct (cache_length_is_dilation conv_k2_d2 [[qz 1]]
              eq_refl eq_refl eq_refl) as [H1 H2].
  split; [reflexivity|]. split; [reflexivity|]. split; [reflexivity|].
  split.
  - rewrite H1. eq_by_eval.
  - destruct (H2 (tl ramp4)) as (q & Hq & _ & Hf & _).
    change ([[qz 1]] :: tl ramp4) with ramp4 in Hq.
    rewrite Hq, Hf. eq_by_eval.
Defined.

(** ** Batch mode against streaming mode *)

Lemma zero_frame_shape (b c : nat) : frame_shape b c (zero_frame b c).
Proof.
  unfold frame_shape, zero_frame. split; [apply repeat_length|].
  apply Forall_forall. intros row Hrow. apply repeat_spec in Hrow.
  subst. apply repeat_length.
Qed.

Lemma signal_shape_hd (b c : nat) (x : frame) (xs : signal) :
  signal_shape b c (x :: xs) ->
  batch_of (x :: xs) = b /\
  zero_frame (batch_of (x :: xs)) (channels_of (x :: xs)) = zero_frame b c.
Proof.
  intros H. inversion H as [|? ? [Hb Hc] _]; subst.
  unfold batch_of, channels_of. simpl hd. split; [reflexivity|].
  destruct x as [|row x]; [reflexivity|].
  inversion Hc; subst. reflexivity.
Qed.

Lemma signal_shape_nth (b c : nat) (s : signal) (j : nat) :
  signal_shape b c s -> j < length s -> length (nth j s []) = b.
Proof.
  intros H Hj. unfold signal_shape in H. rewrite Forall_forall in H.
  apply (H (nth j s [])). now apply nth_In.
Qed.

Lemma signal_shape_pad (b c n : nat) (s : signal) :
  signal_shape b c s -> signal_shape b c (repeat (zero_frame b c) n ++ s).
Proof.
  intros H. apply Forall_app. split; [|assumption].
  apply Forall_forall. intros f Hf. apply repeat_spec in Hf. subst.
  apply zero_frame_shape.
Qed.

Lemma map_nth_seq {A B} (f : A -> B) (l : list A) (d : A) :
  map (fun j => f (nth j l d)) (seq 0 (length l)) = map f l.
Proof.
  induction l as [|a l IH]; [reflexivity|].
  cbn [length]. rewrite map_seq_S. simpl nth. now rewrite IH.
Qed.

(** Batch mode of a causal two-tap layer, stride 1, no activation. *)
Lemma forward_two_tap (c : Conv.t) (b : nat) (x : frame) (xs : signal) :
  Conv.kernel_size c = 2 -> Conv.is_causal c = true ->
  Conv.stride c = 1 -> 1 <= Conv.dilation c -> Conv.use_act c = false ->
  signal_shape b (Conv.in_channels c) (x :: xs) ->
  let d := Conv.dilation c in
  let z := zero_frame b (Conv.in_channels c) in
  Conv.forward c (x :: xs) =
    Ok (map (fun j =>
          window_out c (nth j (repeat z d ++ x :: xs) [])
                       (nth j (x :: xs) []))
          (seq 0 (length (x :: xs)))).
Proof.
  intros HK HC HS HD HA Hsh d z.
  destruct (signal_shape_hd b (Conv.in_channels c) x xs Hsh) as [Hb Hz].
  unfold Conv.forward, Conv.pad_left, Conv.conv.
  rewrite HC, HK, HS, HA, Hz. fold z. fold d.
  change (2 - 1) with 1. rewrite Nat.mul_1_l.
  unfold Conv1d.conv1d.
  replace ((2 =? 0) || (1 =? 0) || (d =? 0)) with false
    by (destruct (Nat.eqb_spec d 0); [lia|reflexivity]).
  rewrite length_app, repeat_length. cbn [length].
  destruct (Nat.ltb_spec (d + S (length xs)) (d * (2 - 1) + 1)) as [L|L];
    [lia|].
  cbn [bind]. f_equal.
  replace ((d + S (length xs) - (d * (2 - 1) + 1)) / 1 + 1)
    with (S (length xs)) by (rewrite Nat.div_1_r; lia).
  apply map_ext_in. intros j Hj. apply in_seq in Hj.
  assert (Hpad : signal_shape b (Conv.in_channels c) (repeat z d ++ x :: xs))
    by (apply signal_shape_pad; assumption).
  unfold window_out.
  rewrite (signal_shape_nth b (Conv.in_channels c) _ j Hpad)
    by (rewrite length_app, repeat_length; simpl; lia).
  replace (batch_of (repeat z d ++ x :: xs)) with b.
  - apply apply_taps_ext. intros k Hk.
    destruct k as [|[|k]]; [| |lia].
    + replace (j * 1 + 0 * d) with j by lia. reflexivity.
    + replace (j * 1 + 1 * d) with (d + j) by lia.
      rewrite app_nth2 by (rewrite repeat_length; lia).
      rewrite repeat_length. replace (d + j - d) with j by lia.
      reflexivity.
  - unfold batch_of, d. destruct (Conv.dilation c) as [|d']; [lia|].
    simpl. unfold z. symmetry. apply zero_frame_shape.
Qed.

Lemma conv_single_frame (c : Conv.t) (x : frame) :
  Conv.kernel_size c = 1 -> Conv.stride c = 1 -> 1 <= Conv.dilation c ->
  Conv.conv c [x] = Ok [point_out c x].
Proof.
  intros HK HS HD. unfold Conv.conv, Conv1d.conv1d. rewrite HK, HS.
  replace ((1 =? 0) || (1 =? 0) || (Conv.dilation c =? 0)) with false
    by (destruct (Nat.eqb_spec (Conv.dilation c) 0); [lia|reflexivity]).
  rewrite Nat.sub_diag, Nat.mul_0_r. cbn. unfold point_out. do 2 f_equal.
Qed.

Lemma stream_one_tap (xs : signal) (c : Conv.t) :
  Conv.kernel_size c = 1 -> Conv.stride c = 1 -> 1 <= Conv.dilation c ->
  stream_steps c xs = (Ok (map (point_out c) xs), c).
Proof.
  intros HK HS HD. induction xs as [|x xs IH]; [reflexivity|].
  cbn [stream_steps]. rewrite (infer_step_k1 c x HK).
  rewrite (conv_single_frame c x HK HS HD). cbn [bind]. rewrite IH.
  reflexivity.
Qed.

(** Batch mode of a causal layer of kernel size 1, stride 1, no activation. *)
Lemma forward_one_tap (c : Conv.t) (b : nat) (x : frame) (xs : signal) :
  Conv.kernel_size c = 1 -> Conv.is_causal c = true ->
  Conv.stride c = 1 -> 1 <= Conv.dilation c -> Conv.use_act c = false ->
  signal_shape b (Conv.in_channels c) (x :: xs) ->
  Conv.forward c (x :: xs) = Ok (map (point_out c) (x :: xs)).
Proof.
  intros HK HC HS HD HA Hsh.
  destruct (signal_shape_hd b (Conv.in_channels c) x xs Hsh) as [Hb _].
  unfold Conv.forward, Conv.pad_left, Conv.conv.
  rewrite HC, HK, HS, HA. rewrite Nat.sub_diag. cbn [Nat.mul repeat app].
  unfold Conv1d.conv1d.
  replace ((1 =? 0) || (1 =? 0) || (Conv.dilation c =? 0)) with false
    by (destruct (Nat.eqb_spec (Conv.dilation c) 0); [lia|reflexivity]).
  rewrite Nat.sub_diag, Nat.mul_0_r. cbn [Nat.add length Nat.ltb Nat.leb].
  cbn [bind]. f_equal.
  replace ((S (length xs) - 1) / 1 + 1) with (length (x :: xs))
    by (rewrite Nat.div_1_r; simpl; lia).
  rewrite <- (map_nth_seq (point_out c) (x :: xs) []).
  apply map_ext_in. intros j Hj. apply in_seq in Hj.
  unfold point_out. rewrite Hb.
  rewrite (signal_shape_nth b (Conv.in_channels c) _ j Hsh)
    by (simpl in *; lia).
  apply apply_taps_ext. intros k Hk.
  replace k with 0 by lia. rewrite Nat.mul_1_r, Nat.add_0_r. reflexivity.
Qed.

(** C1 (as the code has it): for a causal layer of kernel size 1 or 2,
    stride 1, dilation at least 1 and no output activation, and a
    non-empty input of shape B x in_channels x L, streaming the sequence
    through a fresh layer gives exactly the frames of the batch pass. *)
Theorem stream_equals_forward (c : Conv.t) (b : nat) (xs : signal) :
  Conv.is_causal c = true ->
  Conv.kernel_size c = 1 \/ Conv.kernel_size c = 2 ->
  Conv.stride c = 1 -> 1 <= Conv.dilation c -> Conv.use_act c = false ->
  Conv.input_memory c = None ->
  xs <> [] -> signal_shape b (Conv.in_channels c) xs ->
  exists ys : signal,
    Conv.forward c xs = Ok ys /\
    fst (stream_steps c xs) = Ok ys /\
    length ys = length xs.
Proof.
  intros HC HK HS HD HA HM Hne Hsh.
  destruct xs as [|x xs]; [congruence|]. clear Hne.
  destruct HK as [HK|HK].
  - exists (map (point_out c) (x :: xs)).
    rewrite (forward_one_tap c b x xs HK HC HS HD HA Hsh).
    rewrite (stream_one_tap (x :: xs) c HK HS HD).
    repeat split. apply length_map.
  - assert (Hx : length x = b) by (inversion Hsh as [|? ? [Hb _] _]; exact Hb).
    eexists. rewrite (forward_two_tap c b x xs HK HC HS HD HA Hsh).
    rewrite (stream_two_tap c x xs HK HC HM). rewrite Hx. cbn [fst].
    repeat split. now rewrite length_map, length_seq.
Qed.

Lemma stream_equals_forward_witness :
  Conv.is_causal conv_k2_d2 = true /\
  (Conv.kernel_size conv_k2_d2 = 1 \/ Conv.kernel_size conv_k2_d2 = 2) /\
  Conv.stride conv_k2_d2 = 1 /\ 1 <= Conv.dilation conv_k2_d2 /\
  Conv.use_act conv_k2_d2 = false /\ Conv.input_memory conv_k2_d2 = None /\
  ramp4 <> [] /\ signal_shape 1 (Conv.in_channels conv_k2_d2) ramp4 /\
  Conv.forward conv_k2_d2 ramp4 =
    Ok [[[qz 110]]; [[qz 120]]; [[qz 131]]; [[qz 142]]] /\
  fst (stream_steps conv_k2_d2 ramp4) = Conv.forward conv_k2_d2 ramp4.
Proof.
  assert (Hsh : signal_shape 1 (Conv.in_channels conv_k2_d2) ramp4)
    by (repeat constructor).
  assert (Hne : ramp4 <> []) by discriminate.
  assert (Hd : 1 <= Conv.dilation conv_k2_d2) by (simpl; lia).
  destruct (stream_equals_forward conv_k2_d2 1 ramp4 eq_refl
              (or_intror eq_refl) eq_refl Hd eq_refl eq_refl Hne Hsh)
    as (ys & Hf & Hs & _).
  split; [reflexivity|]. split; [right; reflexivity|].
  split; [reflexivity|]. split; [exact Hd|]. split; [reflexivity|].
  split; [reflexivity|]. split; [exact Hne|]. split; [exact Hsh|].
  split; [eq_by_eval|now rewrite Hs, Hf].
Defined.

(** C1, the claim as stated fails.  With stride 2, batch mode keeps every
    second frame and streaming keeps them all: [infer_step] does not look
    at the stride.  With the Softsign activation switched on, batch mode
    applies it and the streaming step does not. *)
Lemma stream_differs_from_forward :
  (Conv.is_causal conv_k1_stride2 = true /\
   Conv.kernel_size conv_k1_stride2 = 1 /\
   Conv.input_memory conv_k1_stride2 = None /\
   Conv.forward conv_k1_stride2 ramp4 = Ok [[[qz 1]]; [[qz 3]]] /\
   fst (stream_steps conv_k1_stride2 ramp4) =
     Ok [[[qz 1]]; [[qz 2]]; [[qz 3]]; [[qz 4]]] /\
   fst (stream_steps conv_k1_stride2 ramp4) <>
     Conv.forward conv_k1_stride2 ramp4) /\
  (Conv.is_causal conv_k1_act = true /\
   Conv.kernel_size conv_k1_act = 1 /\
   Conv.stride conv_k1_act = 1 /\
   Conv.input_memory conv_k1_act = None /\
   Conv.forward conv_k1_act [[[qz 1]]] = Ok [[[Q2Qc (1 # 2)]]] /\
   fst (stream_steps conv_k1_act [[[qz 1]]]) = Ok [[[qz 1]]] /\
   fst (stream_steps conv_k1_act [[[qz 1]]]) <>
     Conv.forward conv_k1_act [[[qz 1]]]).
Proof.
  split.
  - repeat split; try eq_by_eval. vm_compute. discriminate.
  - repeat split; try eq_by_eval. vm_compute. discriminate.
Qed.

(** ** The dilations of the stack *)


Lemma loop_factor_ok (M : Z) (lf : nat) :
  Wavenet.loop_factor M = Ok lf ->
  (1 <= M < 2 ^ 32)%Z /\ lf = Z.to_nat (Z.log2 M) + 1.
Proof.
  unfold Wavenet.loop_factor.
  destruct (Z.leb_spec M 0) as [L|L]; [discriminate|].
  destruct (Z.leb_spec (2 ^ 32) M) as [U|U]; [discriminate|].
  intros H. injection H as <-. split; [lia|reflexivity].
Qed.

Lemma loop_factor_small (M : Z) :
  (1 <= M < 2 ^ 32)%Z ->
  Wavenet.loop_factor M = Ok (Z.to_nat (Z.log2 M) + 1).
Proof.
  intros H. unfold Wavenet.loop_factor.
  destruct (Z.leb_spec M 0) as [L|L]; [lia|].
  destruct (Z.leb_spec (2 ^ 32) M) as [U|U]; [lia|reflexivity].
Qed.

(** What [__init__] returns, when it does: the scale is not 0 and
    [max_dilation] is in the range of [loop_factor]. *)
Ltac init_returned H :=
  unfold Wavenet.init in H;
  match type of H with
  | (if ?n =? 0 then _ else _) = _ =>
      let E := fresh "Escale" in
      destruct (Nat.eqb_spec n 0) as [E|E]; [discriminate H|]
  end;
  match type of H with
  | context [Wavenet.loop_factor ?M] =>
      let E := fresh "Elf" in
      destruct (Wavenet.loop_factor M) eqn:E; [|discriminate H];
      apply loop_factor_ok in E; destruct E as [HM ->]
  end;
  cbn [bind] in H.


(** ** Prefixes: what a truncated input gives *)

Lemma firstn_zip_with {A B C} (g : A -> B -> C) (n : nat) :
  forall (l : list A) (m : list B),
    firstn n (zip_with g l m) = zip_with g (firstn n l) (firstn n m).
Proof.
  induction n; intros [|a l] [|b m]; simpl; try reflexivity.
  now rewrite IHn.
Qed.

Lemma length_zip_with {A B C} (g : A -> B -> C) :
  forall (l : list A) (m : list B),
    length (zip_with g l m) = Nat.min (length l) (length m).
Proof.
  induction l; intros [|b m]; simpl; try reflexivity. now rewrite IHl.
Qed.

Lemma length_mapi {A B} (g : nat -> A -> B) (l : list A) :
  length (mapi g l) = length l.
Proof.
  unfold mapi. rewrite length_map, length_combine, length_seq. lia.
Qed.

Lemma firstn_combine {A B} (n : nat) :
  forall (l : list A) (m : list B),
    firstn n (combine l m) = combine (firstn n l) (firstn n m).
Proof.
  induction n; intros [|a l] [|b m]; simpl; try reflexivity.
  now rewrite IHn.
Qed.

Lemma firstn_seq_min (n : nat) : forall (a len : nat),
  firstn n (seq a len) = seq a (Nat.min n len).
Proof.
  induction n; intros a [|len]; simpl; try reflexivity. now rewrite IHn.
Qed.

Lemma firstn_mapi {A B} (g : nat -> A -> B) (n : nat) (l : list A) :
  firstn n (mapi g l) = mapi g (firstn n l).
Proof.
  unfold mapi. rewrite firstn_map, firstn_combine, firstn_seq_min.
  rewrite length_firstn. reflexivity.
Qed.

Lemma firstn_dropout (m : mask) (n : nat) (s : signal) :
  firstn n (dropout m s) = dropout m (firstn n s).
Proof. apply firstn_mapi. Qed.

Lemma length_dropout (m : mask) (s : signal) :
  length (dropout m s) = length s.
Proof. apply length_mapi. Qed.

Lemma batch_of_firstn (n : nat) (s : signal) :
  1 <= n -> batch_of (firstn n s) = batch_of s.
Proof.
  intros H. destruct n; [lia|]. destruct s; reflexivity.
Qed.

Lemma channels_of_firstn (n : nat) (s : signal) :
  1 <= n -> channels_of (firstn n s) = channels_of s.
Proof.
  intros H. destruct n; [lia|]. destruct s; reflexivity.
Qed.

Lemma nth_firstn_lt {A} (n j : nat) (l : list A) (d : A) :
  j < n -> nth j (firstn n l) d = nth j l d.
Proof.
  revert j l. induction n; intros j l H; [lia|].
  destruct l as [|a l]; [now destruct j|].
  destruct j; simpl; [reflexivity|]. apply IHn. lia.
Qed.

Lemma nth_pad_firstn (z : frame) (d n i : nat) (s : signal) :
  i < d + n ->
  nth i (repeat z d ++ firstn n s) [] = nth i (repeat z d ++ s) [].
Proof.
  intros H. destruct (Nat.lt_ge_cases i d) as [L|L].
  - rewrite !app_nth1 by (rewrite repeat_length; lia). reflexivity.
  - rewrite !app_nth2 by (rewrite repeat_length; lia).
    rewrite repeat_length. apply nth_firstn_lt. lia.
Qed.

(** The batch pass of a layer of the network, frame by frame. *)
Lemma conv_forward_taps (c : Conv.t) :
  dilated_layer c \/ pointwise_layer c ->
  exists p : nat,
    Conv.dilation c * (Conv.kernel_size c - 1) = p /\
    forall s : signal, s <> [] ->
      Conv.forward c s =
        Ok ((if Conv.use_act c then map (frame_map softsign)
             else fun y => y)
             (map (fun j =>
                Conv1d.apply_taps (Conv.conv_weight c) (Conv.conv_bias c)
                  (Conv.in_channels c) (Conv.kernel_size c)
                  (batch_of (Conv.pad_left p s))
                  (fun k => nth (j * 1 + k * Conv.dilation c)
                              (Conv.pad_left p s) []))
                (seq 0 (length s)))).
Proof.
  intros Hc.
  assert (Hpad : exists p,
    (if Conv.is_causal c
     then (Conv.kernel_size c - 1) * Conv.dilation c else 0) = p /\
    Conv.dilation c * (Conv.kernel_size c - 1) = p /\
    Conv.kernel_size c <> 0 /\ Conv.stride c = 1 /\ Conv.dilation c <> 0).
  { destruct Hc as [(HK & HC & HS & HD)|(HK & HS & HD)].
    - exists (Conv.dilation c). rewrite HK, HC. simpl. repeat split; lia.
    - exists 0. rewrite HK. destruct (Conv.is_causal c); simpl;
        repeat split; lia. }
  destruct Hpad as (p & Hp1 & Hp2 & HK0 & HS & HD0).
  exists p. split; [exact Hp2|].
  intros s Hs. unfold Conv.forward.
  assert (E : (if Conv.is_causal c
               then Conv.pad_left
                      ((Conv.kernel_size c - 1) * Conv.dilation c) s
               else s) = Conv.pad_left p s).
  { destruct (Conv.is_causal c).
    - now rewrite Hp1.
    - subst p. reflexivity. }
  rewrite E. unfold Conv.conv, Conv1d.conv1d. rewrite HS, Hp2.
  replace ((Conv.kernel_size c =? 0) || (1 =? 0) || (Conv.dilation c =? 0))
    with false.
  2:{ destruct (Nat.eqb_spec (Conv.kernel_size c) 0); [lia|].
      destruct (Nat.eqb_spec (Conv.dilation c) 0); [lia|reflexivity]. }
  assert (Hl : length (Conv.pad_left p s) = p + length s).
  { unfold Conv.pad_left. now rewrite length_app, repeat_length. }
  rewrite Hl.
  assert (0 < length s) by (destruct s; [congruence|simpl; lia]).
  destruct (Nat.ltb_spec (p + length s) (p + 1)) as [L|L]; [lia|].
  cbn [bind]. rewrite Nat.div_1_r.
  replace (p + length s - (p + 1) + 1) with (length s) by lia.
  destruct (Conv.use_act c); reflexivity.
Qed.

(** The layers the network is made of: on a non-empty input the batch pass
    succeeds, keeps the length, and commutes with truncation. *)
Lemma conv_forward_time_local (c : Conv.t) (xs : signal) :
  dilated_layer c \/ pointwise_layer c ->
  xs <> [] ->
  exists ys : signal,
    Conv.forward c xs = Ok ys /\ length ys = length xs /\
    forall n : nat, 1 <= n ->
      Conv.forward c (firstn n xs) = Ok (firstn n ys).
Proof.
  intros Hc Hne.
  destruct (conv_forward_taps c Hc) as (p & Hp2 & Hfw).
  eexists. split; [apply Hfw; exact Hne|]. split.
  { destruct (Conv.use_act c); now rewrite ?length_map, length_seq. }
  intros n Hn.
  assert (Hne' : firstn n xs <> []).
  { destruct n; [lia|]. destruct xs; [congruence|discriminate]. }
  rewrite (Hfw _ Hne'). f_equal.
  assert (Hmap : forall (g : frame -> frame) (l : signal),
            firstn n ((if Conv.use_act c then map g else fun y => y) l) =
            (if Conv.use_act c then map g else fun y => y) (firstn n l)).
  { intros g l. destruct (Conv.use_act c); [apply firstn_map|reflexivity]. }
  rewrite Hmap. f_equal. rewrite firstn_map, firstn_seq_min, length_firstn.
  apply map_ext_in. intros j Hj. apply in_seq in Hj.
  unfold Conv.pad_left.
  rewrite batch_of_firstn, channels_of_firstn by exact Hn.
  set (z := zero_frame (batch_of xs) (channels_of xs)).
  assert (Hb : batch_of (repeat z p ++ firstn n xs) =
               batch_of (repeat z p ++ xs)).
  { destruct p; simpl; [apply batch_of_firstn; exact Hn|reflexivity]. }
  rewrite Hb. apply apply_taps_ext. intros k Hk.
  apply nth_pad_firstn.
  assert (k * Conv.dilation c <= p) by (rewrite <- Hp2; nia).
  lia.
Qed.

(** ** Batch and channel extents *)

Lemma apply_taps_shape w bias in_ch ksize batch (tap : nat -> frame) :
  frame_shape batch (length w)
    (Conv1d.apply_taps w bias in_ch ksize batch tap).
Proof.
  unfold frame_shape, Conv1d.apply_taps. split.
  - now rewrite length_map, length_seq.
  - apply Forall_forall. intros row Hrow. apply in_map_iff in Hrow.
    destruct Hrow as (b & <- & _). now rewrite length_map, length_seq.
Qed.

Lemma frame_map_shape (g : Qc -> Qc) (b c : nat) (f : frame) :
  frame_shape b c f -> frame_shape b c (frame_map g f).
Proof.
  intros [Hb Hc]. unfold frame_shape, frame_map. split.
  - now rewrite length_map.
  - apply Forall_forall. intros row Hrow. apply in_map_iff in Hrow.
    destruct Hrow as (r & <- & Hr). rewrite length_map.
    rewrite Forall_forall in Hc. now apply Hc.
Qed.

Lemma batch_of_pad_left (p : nat) (s : signal) :
  batch_of (Conv.pad_left p s) = batch_of s.
Proof.
  unfold Conv.pad_left. destruct p; [reflexivity|].
  unfold batch_of. simpl. unfold zero_frame. apply repeat_length.
Qed.

(** A layer of the network gives every batch element of its input one
    row of as many entries as it has output channels. *)
Lemma conv_forward_shape (c : Conv.t) (xs ys : signal) :
  dilated_layer c \/ pointwise_layer c -> xs <> [] ->
  Conv.forward c xs = Ok ys ->
  signal_shape (batch_of xs) (length (Conv.conv_weight c)) ys.
Proof.
  intros Hc Hne Hy.
  destruct (conv_forward_taps c Hc) as (p & _ & Hfw).
  rewrite (Hfw xs Hne) in Hy. injection Hy as <-.
  rewrite batch_of_pad_left.
  apply Forall_forall. intros f Hf.
  destruct (Conv.use_act c).
  - apply in_map_iff in Hf. destruct Hf as (g & <- & Hg).
    apply in_map_iff in Hg. destruct Hg as (j & <- & _).
    apply frame_map_shape, apply_taps_shape.
  - apply in_map_iff in Hf. destruct Hf as (j & <- & _).
    apply apply_taps_shape.
Qed.

Section ForwardFacts.

Context {sample : Type}.
Variables tanh sigmoid : Qc -> Qc.
Variable w : @Wavenet.t sample.
Hypothesis Hwf : well_formed w.

Lemma layer_at_some (ls : list Conv.t) (P : Conv.t -> Prop) (i : nat) :
  Forall P ls -> i < length ls ->
  exists c, Wavenet.layer_at ls i = Ok c /\ P c.
Proof.
  intros HF Hi. unfold Wavenet.layer_at.
  destruct (nth_error ls i) as [c|] eqn:E.
  - exists c. split; [reflexivity|].
    rewrite Forall_forall in HF. apply HF. now apply nth_error_In with i.
  - apply nth_error_None in E. lia.
Qed.

Lemma not_nil_of_length (T : nat) (s : signal) :
  1 <= T -> length s = T -> s <> [].
Proof. intros H1 H2 E. subst s. simpl in H2. lia. Qed.

Lemma firstn_signal_add (n : nat) (a b : signal) :
  firstn n (signal_add a b) = signal_add (firstn n a) (firstn n b).
Proof. apply firstn_zip_with. Qed.

Lemma length_signal_add (T : nat) (a b : signal) :
  length a = T -> length b = T -> length (signal_add a b) = T.
Proof.
  intros Ha Hb. unfold signal_add. rewrite length_zip_with. lia.
Qed.

Lemma firstn_gated (n : nat) (s : signal) :
  firstn n (Wavenet.gated tanh sigmoid w s) =
  Wavenet.gated tanh sigmoid w (firstn n s).
Proof.
  unfold Wavenet.gated, signal_mul, signal_map, channels_to, channels_from.
  rewrite firstn_zip_with, !firstn_map. reflexivity.
Qed.

Lemma length_gated (s : signal) :
  length (Wavenet.gated tanh sigmoid w s) = length s.
Proof.
  unfold Wavenet.gated, signal_mul, signal_map, channels_to, channels_from.
  cbv zeta. rewrite length_zip_with, !length_map. apply Nat.min_id.
Qed.

Lemma skip_accumulate_local (i T : nat) (acts : signal) (o : option signal) :
  i < Wavenet.n_layers w -> 1 <= T ->
  length acts = T -> opt_length T o ->
  (Wavenet.use_skip_out w = true -> i <> 0 -> o <> None) ->
  exists o' : option signal,
    Wavenet.skip_accumulate w i acts o = Ok o' /\
    opt_length T o' /\
    (Wavenet.use_skip_out w = true -> o' <> None) /\
    forall n : nat, 1 <= n ->
      Wavenet.skip_accumulate w i (firstn n acts) (option_map (firstn n) o) =
      Ok (option_map (firstn n) o').
Proof.
  intros Hi HT Ha Ho Hbound.
  destruct Hwf as (Hlen & Hdil & Hres & Hskip & _ & _ & _ & Hso).
  assert (Hane : acts <> []) by (apply (not_nil_of_length T); assumption).
  unfold Wavenet.skip_accumulate.
  destruct (Wavenet.use_skip_out w) eqn:Eso.
  - destruct (Hso eq_refl) as [Hsl _].
    destruct (layer_at_some _ _ i Hskip) as (c & Hc & Hpc); [lia|].
    rewrite Hc. cbn [bind].
    destruct (conv_forward_time_local c acts (or_intror Hpc) Hane)
      as (y & Hy & Hly & Hpre).
    rewrite Hy. cbn [bind].
    destruct (Nat.eqb_spec i 0) as [E|E].
    + exists (Some y). split; [reflexivity|]. split; [simpl; lia|].
      split; [discriminate|]. intros n Hn. now rewrite (Hpre n Hn).
    + destruct o as [o0|]; [|now destruct (Hbound eq_refl E)].
      exists (Some (signal_add y o0)). split; [reflexivity|].
      split; [simpl; apply length_signal_add; simpl in Ho; lia|].
      split; [discriminate|]. intros n Hn. rewrite (Hpre n Hn).
      cbn [bind option_map]. now rewrite firstn_signal_add.
  - exists o. split; [reflexivity|]. split; [exact Ho|].
    split; [discriminate|]. reflexivity.
Qed.

Lemma residual_project_local (i T : nat) (acts : signal) :
  1 <= T -> length acts = T ->
  exists acts' : signal,
    Wavenet.residual_project w i acts = Ok acts' /\ length acts' = T /\
    forall n : nat, 1 <= n ->
      Wavenet.residual_project w i (firstn n acts) = Ok (firstn n acts').
Proof.
  intros HT Ha.
  destruct Hwf as (Hlen & Hdil & Hres & Hskip & _ & _ & _ & Hso).
  assert (Hane : acts <> []) by (apply (not_nil_of_length T); assumption).
  unfold Wavenet.residual_project.
  destruct (Wavenet.use_res_out_conv w &&
            (i <? length (Wavenet.res_layers w))) eqn:E.
  - apply andb_prop in E. destruct E as [_ E]. apply Nat.ltb_lt in E.
    destruct (layer_at_some _ _ i Hres E) as (c & Hc & Hpc).
    rewrite Hc. cbn [bind].
    destruct (conv_forward_time_local c acts (or_intror Hpc) Hane)
      as (y & Hy & Hly & Hpre).
    exists y. split; [exact Hy|]. split; [lia|exact Hpre].
  - exists acts. split; [reflexivity|]. split; [exact Ha|reflexivity].
Qed.

Lemma after_gate_local (i T : nat) (acts x : signal) (o : option signal) :
  i < Wavenet.n_layers w -> 1 <= T ->
  length acts = T -> length x = T -> opt_length T o ->
  (Wavenet.use_skip_out w = true -> i <> 0 -> o <> None) ->
  exists (x' : signal) (o' : option signal),
    Wavenet.after_gate w i acts x o = Ok (x', o') /\
    length x' = T /\ opt_length T o' /\
    (Wavenet.use_skip_out w = true -> o' <> None) /\
    forall n : nat, 1 <= n ->
      Wavenet.after_gate w i (firstn n acts) (firstn n x)
        (option_map (firstn n) o) =
      Ok (firstn n x', option_map (firstn n) o').
Proof.
  intros Hi HT Ha Hx Ho Hbound.
  destruct (skip_accumulate_local i T acts o Hi HT Ha Ho Hbound)
    as (o' & Ho' & Hlo' & Hne' & Hpo').
  destruct (residual_project_local i T acts HT Ha)
    as (acts' & Hacts' & Hla' & Hpa').
  unfold Wavenet.after_gate. rewrite Ho'. cbn [bind]. rewrite Hacts'.
  cbn [bind].
  eexists. eexists. split; [reflexivity|].
  split; [unfold signal_map; rewrite length_map;
          apply length_signal_add; assumption|].
  split; [exact Hlo'|]. split; [exact Hne'|].
  intros n Hn. rewrite (Hpo' n Hn). cbn [bind]. rewrite (Hpa' n Hn).
  cbn [bind]. unfold signal_map.
  now rewrite firstn_map, firstn_signal_add.
Qed.

Lemma forward_block_local (training : bool) (m : Wavenet.masks)
    (cond : signal) (i T : nat) (x : signal) (o : option signal) :
  i < Wavenet.n_layers w -> 1 <= T -> length x = T ->
  (Wavenet.use_conditioning w = true -> length cond = T) ->
  opt_length T o ->
  (Wavenet.use_skip_out w = true -> i <> 0 -> o <> None) ->
  exists (x' : signal) (o' : option signal),
    Wavenet.forward_block tanh sigmoid w training m cond i x o =
      Ok (x', o') /\
    length x' = T /\ opt_length T o' /\
    (Wavenet.use_skip_out w = true -> o' <> None) /\
    forall n : nat, 1 <= n ->
      Wavenet.forward_block tanh sigmoid w training m (firstn n cond) i
        (firstn n x) (option_map (firstn n) o) =
      Ok (firstn n x', option_map (firstn n) o').
Proof.
  intros Hi HT Hx Hcond Ho Hbound.
  destruct Hwf as (Hlen & Hdil & _).
  unfold Wavenet.forward_block.
  set (x1 := if training then dropout (Wavenet.drop_res m i) x else x).
  assert (Hx1 : length x1 = T).
  { unfold x1. destruct training; [now rewrite length_dropout|exact Hx]. }
  assert (Hx1n : forall n,
    (if training then dropout (Wavenet.drop_res m i) (firstn n x)
     else firstn n x) = firstn n x1).
  { intros n. unfold x1. destruct training;
      [now rewrite firstn_dropout|reflexivity]. }
  destruct (layer_at_some _ _ i Hdil) as (c & Hc & Hpc); [lia|].
  rewrite Hc. cbn [bind].
  destruct (conv_forward_time_local c x1 (or_introl Hpc)
              (not_nil_of_length T x1 HT Hx1)) as (y & Hy & Hly & Hpre).
  rewrite Hy. cbn [bind].
  set (in_act := if Wavenet.use_conditioning w
                 then signal_add y
                        (if Wavenet.same_cond_each_resblock w then cond
                         else channel_group (Wavenet.n_layers w) i cond)
                 else y).
  assert (Hin : length in_act = T).
  { unfold in_act. destruct (Wavenet.use_conditioning w); [|lia].
    apply length_signal_add; [lia|].
    destruct (Wavenet.same_cond_each_resblock w);
      [|unfold channel_group; rewrite length_map]; now apply Hcond. }
  assert (Hinn : forall n,
    (if Wavenet.use_conditioning w
     then signal_add (firstn n y)
            (if Wavenet.same_cond_each_resblock w then firstn n cond
             else channel_group (Wavenet.n_layers w) i (firstn n cond))
     else firstn n y) = firstn n in_act).
  { intros n. unfold in_act. destruct (Wavenet.use_conditioning w);
      [|reflexivity].
    rewrite firstn_signal_add. f_equal.
    destruct (Wavenet.same_cond_each_resblock w); [reflexivity|].
    unfold channel_group. now rewrite firstn_map. }
  destruct (after_gate_local i T (Wavenet.gated tanh sigmoid w in_act) x1 o
              Hi HT) as (x' & o' & Hag & Hlx' & Hlo' & Hne' & Hpag);
    try assumption.
  { now rewrite length_gated. }
  exists x', o'. split; [exact Hag|]. split; [exact Hlx'|].
  split; [exact Hlo'|]. split; [exact Hne'|].
  intros n Hn. rewrite Hx1n, (Hpre n Hn). cbn [bind].
  rewrite Hinn, <- firstn_gated. apply Hpag. exact Hn.
Qed.

Lemma forward_blocks_local (training : bool) (m : Wavenet.masks)
    (cond : signal) (T : nat) (k : nat) :
  forall (a : nat) (x : signal) (o : option signal),
  a + k <= Wavenet.n_layers w -> 1 <= T -> length x = T ->
  (Wavenet.use_conditioning w = true -> length cond = T) ->
  opt_length T o ->
  (Wavenet.use_skip_out w = true -> a <> 0 -> o <> None) ->
  exists (x' : signal) (o' : option signal),
    Wavenet.forward_blocks tanh sigmoid w training m cond (seq a k) x o =
      Ok (x', o') /\
    length x' = T /\ opt_length T o' /\
    (Wavenet.use_skip_out w = true -> a + k <> 0 -> o' <> None) /\
    forall n : nat, 1 <= n ->
      Wavenet.forward_blocks tanh sigmoid w training m (firstn n cond)
        (seq a k) (firstn n x) (option_map (firstn n) o) =
      Ok (firstn n x', option_map (firstn n) o').
Proof.
  induction k as [|k IH]; intros a x o Hak HT Hx Hcond Ho Hbound.
  - exists x, o. simpl. split; [reflexivity|]. split; [exact Hx|].
    split; [exact Ho|]. split; [|reflexivity].
    intros H1 H2. apply Hbound; [exact H1|lia].
  - cbn [seq Wavenet.forward_blocks].
    destruct (forward_block_local training m cond a T x o)
      as (x1 & o1 & Hb & Hlx1 & Hlo1 & Hne1 & Hpb); try assumption; [lia|].
    rewrite Hb. cbn [bind fst snd].
    destruct (IH (S a) x1 o1) as (x' & o' & Hbs & Hlx' & Hlo' & Hne' & Hpbs);
      try assumption; [lia|intros H _; now apply Hne1|].
    exists x', o'. split; [exact Hbs|]. split; [exact Hlx'|].
    split; [exact Hlo'|]. split; [intros H _; apply Hne'; [exact H|lia]|].
    intros n Hn. rewrite (Hpb n Hn). cbn [bind fst snd]. now apply Hpbs.
Qed.

Lemma forward_head_local (training : bool) (m : Wavenet.masks) (T : nat)
    (x : signal) (o : option signal) :
  1 <= T -> length x = T -> opt_length T o ->
  (Wavenet.use_skip_out w = true -> o <> None) ->
  exists out : signal,
    Wavenet.forward_head w training m x o = Ok out /\ length out = T /\
    forall n : nat, 1 <= n ->
      Wavenet.forward_head w training m (firstn n x)
        (option_map (firstn n) o) = Ok (firstn n out).
Proof.
  intros HT Hx Ho Hne.
  destruct Hwf as (_ & _ & _ & _ & _ & Hco & Hce & _).
  unfold Wavenet.forward_head.
  destruct (Wavenet.use_skip_out w) eqn:Eso.
  2:{ exists x. split; [reflexivity|]. split; [exact Hx|reflexivity]. }
  destruct o as [o|]; [|now destruct (Hne eq_refl)]. simpl in Ho.
  cbn [option_map].
  set (o1 := signal_map relu
               (if training then dropout (Wavenet.drop_out1 m) o else o)).
  assert (Ho1 : length o1 = T).
  { unfold o1, signal_map. rewrite length_map.
    destruct training; [now rewrite length_dropout|exact Ho]. }
  assert (Ho1n : forall n,
    signal_map relu
      (if training then dropout (Wavenet.drop_out1 m) (firstn n o)
       else firstn n o) = firstn n o1).
  { intros n. unfold o1, signal_map. rewrite firstn_map.
    destruct training; [now rewrite firstn_dropout|reflexivity]. }
  destruct (conv_forward_time_local (Wavenet.conv_out w) o1 (or_intror Hco)
              (not_nil_of_length T o1 HT Ho1)) as (y & Hy & Hly & Hpy).
  rewrite Hy. cbn [bind].
  set (o2 := signal_map relu
               (if training then dropout (Wavenet.drop_out2 m) y else y)).
  assert (Ho2 : length o2 = T).
  { unfold o2, signal_map. rewrite length_map.
    destruct training; [rewrite length_dropout|]; lia. }
  assert (Ho2n : forall n,
    signal_map relu
      (if training then dropout (Wavenet.drop_out2 m) (firstn n y)
       else firstn n y) = firstn n o2).
  { intros n. unfold o2, signal_map. rewrite firstn_map.
    destruct training; [now rewrite firstn_dropout|reflexivity]. }
  destruct (conv_forward_time_local (Wavenet.conv_end w) o2 (or_intror Hce)
              (not_nil_of_length T o2 HT Ho2)) as (z & Hz & Hlz & Hpz).
  exists z. split; [exact Hz|]. split; [lia|].
  intros n Hn. rewrite Ho1n, (Hpy n Hn). cbn [bind].
  rewrite Ho2n. now apply Hpz.
Qed.

Lemma cond_for_forward_local (features : signal) (T : nat) :
  1 <= T ->
  T <= length (if Wavenet.upscale w =? 1 then features
               else Wavenet.upsample w features) ->
  exists cond : signal,
    Wavenet.cond_for_forward w features T = Ok cond /\ length cond = T /\
    forall n : nat, 1 <= n <= T ->
      Wavenet.cond_for_forward w features n = Ok (firstn n cond).
Proof.
  intros HT Hlen.
  destruct Hwf as (_ & _ & _ & _ & Hcl & _).
  set (pre := if Wavenet.upscale w =? 1 then features
              else Wavenet.upsample w features) in *.
  assert (Hcut' : forall n, n <= length pre ->
    Wavenet.cond_for_forward w features n =
    (if Wavenet.use_cond_conv w
     then Conv.forward (Wavenet.cond_layers w) (firstn n pre)
     else Ok (firstn n pre))).
  { intros n Hn. unfold Wavenet.cond_for_forward. fold pre.
    destruct (Nat.ltb_spec (length pre) n) as [L|L]; [lia|].
    destruct (Nat.ltb_spec n (length pre)) as [L'|L']; [reflexivity|].
    now rewrite firstn_all2 by lia. }
  rewrite (Hcut' T Hlen).
  assert (HlT : length (firstn T pre) = T)
    by (apply firstn_length_le; exact Hlen).
  destruct (Wavenet.use_cond_conv w).
  - destruct (conv_forward_time_local (Wavenet.cond_layers w)
                (firstn T pre) (or_intror Hcl)
                (not_nil_of_length T _ HT HlT)) as (y & Hy & Hly & Hpy).
    exists y. split; [exact Hy|]. split; [lia|].
    intros n [Hn1 Hn2].
    rewrite (Hcut' n)
      by (apply Nat.le_trans with T; [exact Hn2|exact Hlen]).
    rewrite <- (Hpy n Hn1). rewrite firstn_firstn.
    now replace (Nat.min n T) with n by lia.
  - exists (firstn T pre). split; [reflexivity|]. split; [exact HlT|].
    intros n [Hn1 Hn2].
    rewrite (Hcut' n)
      by (apply Nat.le_trans with T; [exact Hn2|exact Hlen]).
    rewrite firstn_firstn. now replace (Nat.min n T) with n by lia.
Qed.

(** The stack before the shift: it succeeds on every non-empty input
    the conditioning covers, keeps the length, and its output on a
    truncated input is the truncated output. *)
Lemma forward_raw_local (features : signal) (xs : list (list sample))
    (training : bool) (m : Wavenet.masks) :
  xs <> [] ->
  (Wavenet.use_conditioning w = true ->
   length xs <= length (if Wavenet.upscale w =? 1 then features
                        else Wavenet.upsample w features)) ->
  exists raw : signal,
    Wavenet.forward_raw tanh sigmoid w features xs training m = Ok raw /\
    length raw = length xs /\
    forall n : nat, 1 <= n <= length xs ->
      Wavenet.forward_raw tanh sigmoid w features (firstn n xs) training m =
      Ok (firstn n raw).
Proof.
  intros Hne Hcov.
  assert (HT : 1 <= length xs) by (destruct xs; [congruence|simpl; lia]).
  set (T := length xs) in *.
  assert (Hc : exists cond : signal,
    (if Wavenet.use_conditioning w
     then Wavenet.cond_for_forward w features T else Ok []) = Ok cond /\
    (Wavenet.use_conditioning w = true -> length cond = T) /\
    forall n, 1 <= n <= T ->
      (if Wavenet.use_conditioning w
       then Wavenet.cond_for_forward w features n else Ok []) =
      Ok (firstn n cond)).
  { destruct (Wavenet.use_conditioning w).
    - destruct (cond_for_forward_local features T HT (Hcov eq_refl))
        as (cond & H1 & H2 & H3).
      exists cond. split; [exact H1|]. split; [intros _; exact H2|exact H3].
    - exists []. split; [reflexivity|]. split; [discriminate|].
      intros n _. now rewrite firstn_nil. }
  destruct Hc as (cond & Hc1 & Hc2 & Hc3).
  destruct Hwf as (_ & _ & _ & _ & _ & _ & _ & Hso).
  destruct (forward_blocks_local training m cond T (Wavenet.n_layers w) 0
              (map (Wavenet.in_slice w) xs) None)
    as (x' & o' & Hb & Hlx' & Hlo' & Hne' & Hpb); try assumption.
  { lia. } { now rewrite length_map. } { exact I. }
  { intros _ E; congruence. }
  destruct (forward_head_local training m T x' o' HT Hlx' Hlo')
    as (out & Hh & Hlout & Hph).
  { intros E. apply Hne'; [exact E|]. destruct (Hso E). simpl. lia. }
  exists out. unfold Wavenet.forward_raw. fold T. rewrite Hc1. cbn [bind].
  rewrite Hb. cbn [bind fst snd]. split; [exact Hh|]. split; [exact Hlout|].
  intros n Hn. rewrite length_firstn.
  replace (Nat.min n (length xs)) with n by (fold T; lia).
  rewrite (Hc3 n Hn). cbn [bind]. rewrite <- firstn_map.
  change (@None signal) with (option_map (firstn n) (@None signal)).
  rewrite (Hpb n) by lia. cbn [bind fst snd]. apply Hph. lia.
Qed.

Lemma forward_raw_features (features features' : signal)
    (xs : list (list sample)) (training : bool) (m : Wavenet.masks) :
  (Wavenet.use_conditioning w = true ->
   length xs <= length (upsampled w features) /\
   length xs <= length (upsampled w features') /\
   firstn (length xs) (upsampled w features') =
   firstn (length xs) (upsampled w features)) ->
  Wavenet.forward_raw tanh sigmoid w features' xs training m =
  Wavenet.forward_raw tanh sigmoid w features xs training m.
Proof.
  intros H. unfold Wavenet.forward_raw.
  destruct (Wavenet.use_conditioning w); [|reflexivity].
  destruct (H eq_refl) as (H1 & H2 & H3).
  assert (E : Wavenet.cond_for_forward w features' (length xs) =
              Wavenet.cond_for_forward w features (length xs)).
  { unfold Wavenet.cond_for_forward. unfold upsampled in *.
    set (pre := if Wavenet.upscale w =? 1 then features
                else Wavenet.upsample w features) in *.
    set (pre' := if Wavenet.upscale w =? 1 then features'
                 else Wavenet.upsample w features') in *.
    destruct (Nat.ltb_spec (length pre') (length xs)) as [L|L]; [lia|].
    destruct (Nat.ltb_spec (length pre) (length xs)) as [L0|L0]; [lia|].
    assert (Ec : (if length xs <? length pre'
                  then firstn (length xs) pre' else pre') =
                 (if length xs <? length pre
                  then firstn (length xs) pre else pre)).
    { destruct (Nat.ltb_spec (length xs) (length pre')) as [L1|L1];
      destruct (Nat.ltb_spec (length xs) (length pre)) as [L2|L2].
      - exact H3.
      - rewrite H3. apply firstn_all2. lia.
      - rewrite <- H3. symmetry. apply firstn_all2. lia.
      - rewrite <- (firstn_all2 pre' L1), <- (firstn_all2 pre L2).
        exact H3. }
    cbv zeta. now rewrite Ec. }
  now rewrite E.
Qed.

Lemma shift_output_last {A : Type} (times_zero : A -> A)
    (l : list (list (list A))) (a : list (list A)) :
  Wavenet.shift_output times_zero (l ++ [a]) =
  Ok (map (map times_zero) a :: l).
Proof.
  unfold Wavenet.shift_output. rewrite rev_app_distr. cbn [rev app].
  now rewrite removelast_last.
Qed.

Lemma shift_output_snoc (l : signal) (a : frame) :
  Wavenet.shift_output (fun v => (v * 0)%Qc) (l ++ [a]) =
  Ok (map (map (fun _ => 0%Qc)) a :: l).
Proof.
  etransitivity; [apply shift_output_last|]. do 2 f_equal.
  apply map_ext. intros row. apply map_ext. intros v.
  apply Qcmult_0_r.
Qed.

End ForwardFacts.

(** The batch pass on a well-formed network, over the rationals: it
    succeeds on every non-empty input that the conditioning covers; its
    output is the raw output of the stack with the last time step dropped
    and an all-zero frame put in front; and the value at an index [t > 0]
    is the same for any other input (audio and sample-rate conditioning)
    that agrees with this one before index [t]. *)
Lemma forward_shift_local {sample : Type} (tanh sigmoid : Qc -> Qc)
    (w : @Wavenet.t sample) (features : signal) (xs : list (list sample))
    (training : bool) (m : Wavenet.masks) :
  well_formed w -> xs <> [] ->
  (Wavenet.use_conditioning w = true ->
   length xs <= length (upsampled w features)) ->
  exists raw out : signal,
    Wavenet.forward_raw tanh sigmoid w features xs training m = Ok raw /\
    Wavenet.forward tanh sigmoid w features xs training m = Ok out /\
    length out = length xs /\
    out = map (map (fun _ => 0%Qc)) (last raw []) :: removelast raw /\
    Forall (Forall (fun v => v = 0%Qc)) (nth 0 out []) /\
    forall (features' : signal) (xs' : list (list sample)) (t : nat),
      0 < t -> length xs' = length xs ->
      (Wavenet.use_conditioning w = true ->
       length xs' <= length (upsampled w features') /\
       firstn t (upsampled w features') = firstn t (upsampled w features)) ->
      firstn t xs' = firstn t xs ->
      exists out' : signal,
        Wavenet.forward tanh sigmoid w features' xs' training m = Ok out' /\
        nth t out' [] = nth t out [].
Proof.
  intros Hwf Hne Hcov.
  destruct (forward_raw_local tanh sigmoid w Hwf features xs training m
              Hne Hcov) as (raw & Hraw & Hlen & Hpre).
  assert (Hrne : raw <> []).
  { intros E. subst raw. destruct xs; [congruence|discriminate]. }
  destruct (exists_last Hrne) as (l & a & El).
  exists raw, (map (map (fun _ => 0%Qc)) a :: l).
  assert (Hfw : Wavenet.forward tanh sigmoid w features xs training m =
                Ok (map (map (fun _ => 0%Qc)) a :: l)).
  { unfold Wavenet.forward. rewrite Hraw. cbn [bind]. rewrite El.
    apply shift_output_snoc. }
  split; [exact Hraw|]. split; [exact Hfw|].
  assert (Hll : length xs = S (length l)).
  { rewrite <- Hlen, El, length_app. simpl. lia. }
  split; [simpl; lia|].
  split; [rewrite El, last_last, removelast_last; reflexivity|].
  split.
  { cbn [nth]. apply Forall_forall. intros row Hrow.
    apply in_map_iff in Hrow. destruct Hrow as (r & <- & _).
    apply Forall_forall. intros v Hv. apply in_map_iff in Hv.
    now destruct Hv as (? & <- & _). }
  intros features' xs' t Ht Hlx Hcov' Hxs.
  assert (Hne' : xs' <> []).
  { intros E. subst xs'. simpl in Hlx. lia. }
  assert (Hcov1 : Wavenet.use_conditioning w = true ->
                  length xs' <= length (upsampled w features')).
  { intros E. now destruct (Hcov' E). }
  destruct (forward_raw_local tanh sigmoid w Hwf features' xs' training m
              Hne' Hcov1) as (raw' & Hraw' & Hlen' & Hpre').
  assert (Hrne' : raw' <> []).
  { intros E. subst raw'. destruct xs'; [congruence|discriminate]. }
  destruct (exists_last Hrne') as (l' & a' & El').
  exists (map (map (fun _ => 0%Qc)) a' :: l').
  split.
  { unfold Wavenet.forward. rewrite Hraw'. cbn [bind]. rewrite El'.
    apply shift_output_snoc. }
  assert (Hll' : length l' = length l).
  { assert (length raw' = length raw) by lia.
    rewrite El, El', !length_app in H. simpl in H. lia. }
  destruct t as [|t]; [lia|]. cbn [nth].
  destruct (Nat.lt_ge_cases t (length l)) as [L|L].
  2:{ rewrite !nth_overflow by lia. reflexivity. }
  (* both runs, truncated to the first t+1 steps, are the same run *)
  assert (Hn : 1 <= S t <= length xs) by lia.
  assert (Hn' : 1 <= S t <= length xs') by lia.
  pose proof (Hpre (S t) Hn) as P. pose proof (Hpre' (S t) Hn') as P'.
  rewrite Hxs in P'.
  rewrite (forward_raw_features tanh sigmoid w features features') in P'.
  - assert (E0 : firstn (S t) raw = firstn (S t) raw') by congruence.
    assert (E : nth t (firstn (S t) raw) [] = nth t (firstn (S t) raw') [])
      by now rewrite E0.
    rewrite (nth_firstn_lt (S t) t raw []) in E by lia.
    rewrite (nth_firstn_lt (S t) t raw' []) in E by lia.
    rewrite El, El' in E. rewrite !app_nth1 in E by lia. now symmetry.
  - intros Ec. destruct (Hcov' Ec) as [Hc1 Hc2].
    pose proof (Hcov Ec) as Hc0.
    assert (Hlt : length (firstn (S t) xs) = S t)
      by (apply firstn_length_le; lia).
    rewrite Hlt. repeat split; [lia|lia|exact Hc2].
Qed.



(** ** The batch axis through the operations of a residual block *)

Lemma signal_shape_batch (b c : nat) (s : signal) :
  signal_shape b c s -> has_batch b s.
Proof.
  intros H. apply Forall_forall. intros f Hf.
  unfold signal_shape in H. rewrite Forall_forall in H.
  now destruct (H f Hf).
Qed.

Lemma batch_of_has_batch (b : nat) (s : signal) :
  s <> [] -> has_batch b s -> batch_of s = b.
Proof.
  intros Hne H. destruct s as [|f s]; [congruence|].
  inversion H; subst. reflexivity.
Qed.

Lemma has_batch_zip (g : Qc -> Qc -> Qc) (b : nat) :
  forall s1 s2 : signal,
    has_batch b s1 -> has_batch b s2 ->
    has_batch b (zip_with (frame_zip g) s1 s2).
Proof.
  induction s1 as [|f1 s1 IH]; intros [|f2 s2] H1 H2; simpl;
    try apply Forall_nil.
  inversion H1; subst. inversion H2; subst.
  apply Forall_cons; [|now apply IH].
  unfold frame_zip. rewrite length_zip_with. lia.
Qed.

Lemma has_batch_rows (g : list Qc -> list Qc) (b : nat) (s : signal) :
  has_batch b s -> has_batch b (map (map g) s).
Proof.
  intros H. apply Forall_forall. intros f Hf. apply in_map_iff in Hf.
  destruct Hf as (f0 & <- & Hf0). rewrite length_map.
  unfold has_batch in H. rewrite Forall_forall in H. now apply H.
Qed.

Lemma conv_forward_batch (c : Conv.t) (b : nat) (xs ys : signal) :
  dilated_layer c \/ pointwise_layer c -> xs <> [] -> has_batch b xs ->
  Conv.forward c xs = Ok ys -> has_batch b ys.
Proof.
  intros Hc Hne Hb Hy.
  rewrite <- (batch_of_has_batch b xs Hne Hb).
  apply signal_shape_batch with (length (Conv.conv_weight c)).
  now apply conv_forward_shape.
Qed.

Lemma layer_at_in (ls : list Conv.t) (i : nat) (c : Conv.t) :
  Wavenet.layer_at ls i = Ok c -> In c ls.
Proof.
  unfold Wavenet.layer_at. destruct (nth_error ls i) as [c0|] eqn:E;
    [|discriminate].
  intros H. injection H as <-. now apply nth_error_In with i.
Qed.

Lemma Forall_set_at {A} (P : A -> Prop) (i : nat) (v : A) :
  forall l l' : list A,
    Forall P l -> P v -> set_at i v l = Ok l' -> Forall P l'.
Proof.
  induction i; intros [|a l] l' Hl Hv Hs; simpl in Hs; try discriminate.
  - injection Hs as <-. inversion Hl; subst. now apply Forall_cons.
  - destruct (set_at i v l) as [r|e] eqn:E; [|discriminate].
    cbn [bind] in Hs. injection Hs as <-. inversion Hl; subst.
    apply Forall_cons; [assumption|]. now apply (IHi l r).
Qed.

Section BatchFacts.

Context {sample : Type}.
Variables tanh sigmoid : Qc -> Qc.

Lemma has_batch_gated (w : @Wavenet.t sample) (b : nat) (s : signal) :
  has_batch b s -> has_batch b (Wavenet.gated tanh sigmoid w s).
Proof.
  intros H. unfold Wavenet.gated, signal_mul, signal_map, channels_to,
    channels_from, frame_map.
  apply has_batch_zip; apply has_batch_rows; apply has_batch_rows;
    exact H.
Qed.

Lemma skip_accumulate_batch (w : @Wavenet.t sample) (b i : nat)
    (acts : signal) (o o' : option signal) :
  well_formed w -> acts <> [] -> has_batch b acts -> opt_batch b o ->
  Wavenet.skip_accumulate w i acts o = Ok o' -> opt_batch b o'.
Proof.
  intros Hwf Hne Ha Ho H.
  destruct Hwf as (_ & _ & _ & Hskip & _).
  unfold Wavenet.skip_accumulate in H.
  destruct (Wavenet.use_skip_out w); [|injection H as <-; exact Ho].
  destruct (Wavenet.layer_at (Wavenet.skip_layers w) i) as [c|e] eqn:Ec;
    [|discriminate].
  cbn [bind] in H.
  destruct (Conv.forward c acts) as [y|e] eqn:Ey; [|discriminate].
  cbn [bind] in H.
  assert (Hy : has_batch b y).
  { apply (conv_forward_batch c b acts y); try assumption.
    right. rewrite Forall_forall in Hskip. apply Hskip.
    now apply layer_at_in with i. }
  destruct (i =? 0); [injection H as <-; exact Hy|].
  destruct o as [o0|]; [|discriminate]. injection H as <-.
  simpl. apply has_batch_zip; assumption.
Qed.

Lemma residual_project_batch (w : @Wavenet.t sample) (b i : nat)
    (acts acts' : signal) :
  well_formed w -> acts <> [] -> has_batch b acts ->
  Wavenet.residual_project w i acts = Ok acts' -> has_batch b acts'.
Proof.
  intros Hwf Hne Ha H.
  destruct Hwf as (_ & _ & Hres & _).
  unfold Wavenet.residual_project in H.
  destruct (Wavenet.use_res_out_conv w &&
            (i <? length (Wavenet.res_layers w)));
    [|injection H as <-; exact Ha].
  destruct (Wavenet.layer_at (Wavenet.res_layers w) i) as [c|e] eqn:Ec;
    [|discriminate].
  cbn [bind] in H.
  apply (conv_forward_batch c b acts acts'); try assumption.
  right. rewrite Forall_forall in Hres. apply Hres.
  now apply layer_at_in with i.
Qed.

Lemma after_gate_batch (w : @Wavenet.t sample) (b i : nat)
    (acts x x' : signal) (o o' : option signal) :
  well_formed w -> acts <> [] -> has_batch b acts -> has_batch b x ->
  opt_batch b o ->
  Wavenet.after_gate w i acts x o = Ok (x', o') ->
  has_batch b x' /\ opt_batch b o'.
Proof.
  intros Hwf Hne Ha Hx Ho H. unfold Wavenet.after_gate in H.
  destruct (Wavenet.skip_accumulate w i acts o) as [o1|e] eqn:Eo;
    [|discriminate].
  cbn [bind] in H.
  destruct (Wavenet.residual_project w i acts) as [a1|e] eqn:Ea;
    [|discriminate].
  cbn [bind] in H. injection H as <- <-. split.
  - unfold signal_map, frame_map. apply has_batch_rows.
    apply has_batch_zip; [|exact Hx].
    now apply (residual_project_batch w b i acts a1).
  - now apply (skip_accumulate_batch w b i acts o o1).
Qed.

End BatchFacts.

(** ** One streaming step through the stack *)

Lemma conv_infer_step_dilated (c : Conv.t) (x : frame) (b : nat) :
  dilated_layer c -> length x = b ->
  match Conv.input_memory c with
  | Some q => has_batch b q
  | None => True
  end ->
  exists (y : frame) (q : list frame),
    Conv.infer_step c x = (Ok (Some [y]), Conv.set_input_memory c (Some q)) /\
    length y = b /\ has_batch b q.
Proof.
  intros (HK & HC & HS & HD) Hx Hmem. unfold Conv.infer_step.
  rewrite HK, HC. cbn [Nat.eqb].
  set (c1 := match Conv.input_memory c with
             | Some _ => c
             | None => Conv.init_input_memory c x
             end).
  assert (E1 : exists q0, Conv.input_memory c1 = Some q0 /\
                          has_batch b q0 /\
                          forall m, Conv.set_input_memory c1 m =
                                    Conv.set_input_memory c m).
  { unfold c1. destruct (Conv.input_memory c) as [q0|] eqn:E.
    - exists q0. split; [exact E|]. split; [exact Hmem|reflexivity].
    - eexists. split; [reflexivity|]. split; [|reflexivity].
      apply Forall_forall. intros f Hf. apply repeat_spec in Hf. subst f.
      unfold zero_frame. now rewrite repeat_length. }
  destruct E1 as (q0 & Eq0 & Hq0 & Eset). rewrite Eq0.
  destruct (@exists_last _ (x :: q0)) as (q & x0 & Eq); [discriminate|].
  assert (Hall : has_batch b (q ++ [x0])).
  { rewrite <- Eq. apply Forall_cons; assumption. }
  apply Forall_app in Hall. destruct Hall as [Hq Hx0].
  inversion Hx0 as [|? ? Hlx0 _]; subst.
  rewrite Eq, pop_snoc. rewrite !Eset.
  cbn [Conv.conv_weight Conv.conv_bias Conv.in_channels Conv.kernel_size
       Conv.set_input_memory].
  rewrite HK.
  exists (window_out c x0 x), q. split; [|split; [|exact Hq]].
  - unfold window_out. reflexivity.
  - unfold window_out. rewrite <- Hlx0. apply apply_taps_shape.
Qed.

Lemma set_at_ok {A} (i : nat) (v : A) : forall l : list A,
  i < length l ->
  exists l', set_at i v l = Ok l' /\ length l' = length l /\
             nth_error l' i = Some v /\
             forall j, j <> i -> nth_error l' j = nth_error l j.
Proof.
  induction i; intros [|a l] H; simpl in H; try lia.
  - exists (v :: l). repeat split. intros [|j] Hj; [lia|reflexivity].
  - destruct (IHi l) as (l' & E & Hl & Hn & Ho); [lia|].
    exists (a :: l'). simpl. rewrite E. cbn [bind]. repeat split.
    + simpl. lia.
    + exact Hn.
    + intros [|j] Hj; [reflexivity|]. simpl. apply Ho. lia.
Qed.

Lemma get_at_ok {A} (i : nat) (l : list A) (v : A) :
  nth_error l i = Some v -> get_at i l = Ok v.
Proof. intros H. unfold get_at. now rewrite H. Qed.

Lemma map_set_at_same {A B} (g : A -> B) (i : nat) (v : A) :
  forall (l l' : list A) (a : A),
    nth_error l i = Some a -> g v = g a -> set_at i v l = Ok l' ->
    map g l' = map g l.
Proof.
  induction i; intros [|b l] l' a Hn Hg Hs; simpl in *; try discriminate.
  - injection Hn as <-. injection Hs as <-. simpl. now rewrite Hg.
  - destruct (set_at i v l) as [r|e] eqn:E; [|discriminate].
    cbn [bind] in Hs. injection Hs as <-. simpl. f_equal.
    now apply (IHi l r a).
Qed.

Lemma well_formed_forget {sample : Type} (w w' : @Wavenet.t sample) :
  forget_caches w' = forget_caches w -> well_formed w -> well_formed w'.
Proof.
  intros E (H1 & H2 & H3 & H4 & H5 & H6 & H7 & H8).
  unfold forget_caches, Wavenet.set_dilate_layers in E.
  injection E as E1 E2 E3 E4 E5 E6 E7 E8 E9 E10 E11 E12 E13 E14 E15 E16 E17
    E18 E19.
  unfold well_formed.
  rewrite E1, E15, E16, E9, E13, E18, E19.
  assert (Hl : length (Wavenet.dilate_layers w') =
               length (Wavenet.dilate_layers w)).
  { rewrite <- (length_map (fun c => Conv.set_input_memory c None)
                  (Wavenet.dilate_layers w')), E14.
    apply length_map. }
  rewrite Hl.
  split; [exact H1|]. split.
  { apply Forall_forall. intros c Hc.
    assert (Hf : Forall dilated_layer
                   (map (fun c => Conv.set_input_memory c None)
                      (Wavenet.dilate_layers w'))).
    { rewrite E14. apply Forall_forall. intros c0 Hc0.
      apply in_map_iff in Hc0. destruct Hc0 as (c1 & <- & Hc1).
      rewrite Forall_forall in H2. exact (H2 c1 Hc1). }
    rewrite Forall_forall in Hf.
    exact (Hf _ (in_map (fun c => Conv.set_input_memory c None) _ c Hc)). }
  split; [exact H3|]. split; [exact H4|]. split; [exact H5|].
  split; [exact H6|]. split; [exact H7|exact H8].
Qed.

Lemma last_single (b : nat) (x : signal) :
  length x = 1 -> has_batch b x -> x = [last x []] /\ length (last x []) = b.
Proof.
  intros Hx Hb. destruct x as [|f [|g x]]; simpl in Hx; try discriminate.
  inversion Hb; subst. split; reflexivity.
Qed.

Lemma config_of_forget {sample : Type} (w w' : @Wavenet.t sample) :
  forget_caches w' = forget_caches w ->
  Wavenet.n_layers w' = Wavenet.n_layers w /\
  Wavenet.use_conditioning w' = Wavenet.use_conditioning w /\
  Wavenet.use_skip_out w' = Wavenet.use_skip_out w /\
  Wavenet.n_out_channels w' = Wavenet.n_out_channels w /\
  Wavenet.conv_end w' = Wavenet.conv_end w /\
  Wavenet.in_layer w' = Wavenet.in_layer w.
Proof.
  intros E. unfold forget_caches, Wavenet.set_dilate_layers in E.
  injection E. intros. repeat split; assumption.
Qed.

Section StreamFacts.

Context {sample : Type}.
Variables tanh sigmoid : Qc -> Qc.

Lemma forget_caches_set_layers (w : @Wavenet.t sample) (ls : list Conv.t) :
  map (fun c => Conv.set_input_memory c None) ls =
  map (fun c => Conv.set_input_memory c None) (Wavenet.dilate_layers w) ->
  forget_caches (Wavenet.set_dilate_layers w ls) = forget_caches w.
Proof.
  intros E. unfold forget_caches, Wavenet.set_dilate_layers.
  cbn. now rewrite E.
Qed.

Lemma infer_block_ok (w : @Wavenet.t sample) (cond : signal) (b i : nat)
    (x : signal) (o : option signal) :
  well_formed w -> i < Wavenet.n_layers w ->
  length x = 1 -> has_batch b x ->
  (Wavenet.use_conditioning w = true ->
   length cond = 1 /\ has_batch b cond) ->
  opt_length 1 o -> opt_batch b o ->
  (Wavenet.use_skip_out w = true -> i <> 0 -> o <> None) ->
  caches_batch b w ->
  exists (x' : signal) (o' : option signal) (w' : @Wavenet.t sample),
    Wavenet.infer_block tanh sigmoid w cond i x o = Ok (x', o', w') /\
    length x' = 1 /\ has_batch b x' /\
    opt_length 1 o' /\ opt_batch b o' /\
    (Wavenet.use_skip_out w = true -> o' <> None) /\
    forget_caches w' = forget_caches w /\ caches_batch b w'.
Proof.
  intros Hwf Hi Hx Hxb Hcond Ho Hob Hbound Hcaches.
  pose proof Hwf as (Hlen & Hdil & _).
  unfold Wavenet.infer_block.
  destruct (layer_at_some _ _ i Hdil) as (c & Hc & Hpc); [lia|].
  rewrite Hc. cbn [bind].
  destruct (last_single b x Hx Hxb) as [_ Hlast].
  assert (Hmem : match Conv.input_memory c with
                 | Some q => has_batch b q
                 | None => True
                 end).
  { unfold caches_batch in Hcaches. rewrite Forall_forall in Hcaches.
    apply Hcaches. now apply layer_at_in with i. }
  destruct (conv_infer_step_dilated c (last x []) b Hpc Hlast Hmem)
    as (y & q & Hstep & Hly & Hq).
  rewrite Hstep. cbn [fst snd].
  destruct (set_at_ok i (Conv.set_input_memory c (Some q))
              (Wavenet.dilate_layers w)) as (ls & Hls & _); [lia|].
  rewrite Hls. cbn [bind].
  set (w1 := Wavenet.set_dilate_layers w ls).
  assert (Hf1 : forget_caches w1 = forget_caches w).
  { apply forget_caches_set_layers.
    unfold Wavenet.layer_at in Hc.
    destruct (nth_error (Wavenet.dilate_layers w) i) as [c0|] eqn:En;
      [|discriminate].
    injection Hc as ->.
    apply (map_set_at_same _ i (Conv.set_input_memory c (Some q)) _ _ c);
      [exact En|reflexivity|exact Hls]. }
  assert (Hwf1 : well_formed w1)
    by (apply (well_formed_forget w); assumption).
  assert (Hc1 : caches_batch b w1).
  { unfold caches_batch, w1. cbn [Wavenet.set_dilate_layers
      Wavenet.dilate_layers].
    apply (Forall_set_at _ i (Conv.set_input_memory c (Some q))
             (Wavenet.dilate_layers w) ls); [exact Hcaches| |exact Hls].
    exact Hq. }
  set (in_act := if Wavenet.use_conditioning w1
                 then signal_add [y]
                        (if Wavenet.use_cond_conv w1
                         then channel_group (Wavenet.n_layers w1) i cond
                         else cond)
                 else [y]).
  assert (Hyb : has_batch b [y])
    by (apply Forall_cons; [exact Hly|apply Forall_nil]).
  assert (Hin : length in_act = 1 /\ has_batch b in_act).
  { unfold in_act. change (Wavenet.use_conditioning w1)
      with (Wavenet.use_conditioning w).
    destruct (Wavenet.use_conditioning w); [|split; [reflexivity|exact Hyb]].
    destruct (Hcond eq_refl) as [Hcl Hcb]. split.
    - apply length_signal_add; [reflexivity|].
      destruct (Wavenet.use_cond_conv w1);
        [unfold channel_group; rewrite length_map|]; exact Hcl.
    - unfold signal_add. apply has_batch_zip; [exact Hyb|].
      destruct (Wavenet.use_cond_conv w1); [|exact Hcb].
      unfold channel_group. now apply has_batch_rows. }
  destruct Hin as [Hin Hinb].
  destruct (after_gate_local w1 Hwf1 i 1
              (Wavenet.gated tanh sigmoid w1 in_act) x o)
    as (x' & o' & Hag & Hlx' & Hlo' & Hne' & _); try assumption; try lia.
  { now rewrite length_gated. }
  rewrite Hag. cbn [bind].
  destruct (after_gate_batch w1 b i (Wavenet.gated tanh sigmoid w1 in_act)
              x x' o o' Hwf1) as [Hxb' Hob']; try assumption.
  { apply (not_nil_of_length 1); [lia|]. now rewrite length_gated. }
  { now apply has_batch_gated. }
  exists x', o', w1. repeat split; assumption.
Qed.

Lemma infer_blocks_ok (cond : signal) (b k : nat) :
  forall (w : @Wavenet.t sample) (a : nat) (x : signal) (o : option signal),
  well_formed w -> a + k <= Wavenet.n_layers w ->
  length x = 1 -> has_batch b x ->
  (Wavenet.use_conditioning w = true ->
   length cond = 1 /\ has_batch b cond) ->
  opt_length 1 o -> opt_batch b o ->
  (Wavenet.use_skip_out w = true -> a <> 0 -> o <> None) ->
  caches_batch b w ->
  exists (x' : signal) (o' : option signal) (w' : @Wavenet.t sample),
    Wavenet.infer_blocks tanh sigmoid w cond (seq a k) x o =
      Ok (x', o', w') /\
    length x' = 1 /\ has_batch b x' /\
    opt_length 1 o' /\ opt_batch b o' /\
    (Wavenet.use_skip_out w = true -> a + k <> 0 -> o' <> None) /\
    forget_caches w' = forget_caches w /\ caches_batch b w'.
Proof.
  induction k as [|k IH];
    intros w a x o Hwf Hak Hx Hxb Hcond Ho Hob Hbound Hcaches.
  - exists x, o, w. simpl. repeat split; try assumption.
    intros H1 H2. apply Hbound; [exact H1|lia].
  - cbn [seq Wavenet.infer_blocks].
    destruct (infer_block_ok w cond b a x o)
      as (x1 & o1 & w1 & Hb & Hlx1 & Hxb1 & Hlo1 & Hob1 & Hne1 & Hf1 & Hc1);
      try assumption; [lia|].
    rewrite Hb. cbn [bind fst snd].
    assert (Hwf1 : well_formed w1)
      by (apply (well_formed_forget w); assumption).
    destruct (config_of_forget w w1 Hf1) as (En & Ec & Es & _).
    destruct (IH w1 (S a) x1 o1)
      as (x' & o' & w' & Hbs & Hlx' & Hxb' & Hlo' & Hob' & Hne' & Hf' & Hc');
      try assumption.
    { lia. } { now rewrite Ec. } { rewrite Es. intros H _. now apply Hne1. }
    exists x', o', w'. split; [exact Hbs|]. split; [exact Hlx'|].
    split; [exact Hxb'|]. split; [exact Hlo'|]. split; [exact Hob'|].
    split; [|split; [now rewrite Hf'|exact Hc']].
    intros H _. apply Hne'; [now rewrite Es|lia].
Qed.

Lemma infer_head_ok (w : @Wavenet.t sample) (b : nat) (x : signal)
    (o : option signal) :
  well_formed w -> length x = 1 -> has_batch b x ->
  opt_length 1 o -> opt_batch b o ->
  (Wavenet.use_skip_out w = true -> o <> None) ->
  exists y : frame,
    Wavenet.infer_head w x o = Ok [y] /\ length y = b /\
    (Wavenet.use_skip_out w = true ->
     frame_shape b (length (Conv.conv_weight (Wavenet.conv_end w))) y).
Proof.
  intros Hwf Hx Hxb Ho Hob Hne.
  destruct Hwf as (_ & _ & _ & _ & _ & Hco & Hce & _).
  unfold Wavenet.infer_head.
  destruct (Wavenet.use_skip_out w).
  2:{ destruct (last_single b x Hx Hxb) as [E Hl].
      exists (last x []). split; [now rewrite <- E|].
      split; [exact Hl|discriminate]. }
  destruct o as [o|]; [|now destruct (Hne eq_refl)].
  simpl in Ho, Hob.
  assert (Hr : forall s : signal, length s = 1 -> has_batch b s ->
            signal_map relu s <> [] /\ has_batch b (signal_map relu s)).
  { intros s Hs Hsb. split.
    - apply (not_nil_of_length 1); [lia|].
      unfold signal_map. now rewrite length_map.
    - unfold signal_map, frame_map. now apply has_batch_rows. }
  destruct (Hr o Ho Hob) as [Hne1 Hb1].
  destruct (conv_forward_time_local (Wavenet.conv_out w) (signal_map relu o)
              (or_intror Hco) Hne1) as (y & Hy & Hly & _).
  rewrite Hy. cbn [bind].
  assert (Hly1 : length y = 1).
  { unfold signal_map in Hly. rewrite length_map in Hly. lia. }
  assert (Hyb : has_batch b y)
    by (apply (conv_forward_batch (Wavenet.conv_out w) b
                 (signal_map relu o) y (or_intror Hco)); assumption).
  destruct (Hr y Hly1 Hyb) as [Hne2 Hb2].
  destruct (conv_forward_time_local (Wavenet.conv_end w) (signal_map relu y)
              (or_intror Hce) Hne2) as (z & Hz & Hlz & _).
  assert (Hlz1 : length z = 1).
  { unfold signal_map in Hlz. rewrite length_map in Hlz. lia. }
  pose proof (conv_forward_shape (Wavenet.conv_end w) (signal_map relu y) z
                (or_intror Hce) Hne2 Hz) as Hsh.
  rewrite (batch_of_has_batch b _ Hne2 Hb2) in Hsh.
  destruct z as [|f [|g z]]; simpl in Hlz1; try discriminate.
  inversion Hsh as [|? ? Hf _]; subst.
  exists f. split; [exact Hz|]. split; [now destruct Hf|].
  intros _. exact Hf.
Qed.

(** On a well-formed network a streaming step succeeds on a time slice
    of [b] batch elements, when the caches hold frames of as many.  It
    changes nothing but the caches, and its result has [b] rows: with
    the skip output, of as many entries as the last layer has output
    channels. *)
Lemma infer_step_ok (w : @Wavenet.t sample) (cond : option frame)
    (x : list sample) (b : nat) :
  well_formed w ->
  (Wavenet.use_conditioning w = true ->
   exists f : frame, cond = Some f /\ length f = b) ->
  length x = b -> caches_batch b w ->
  exists (y : frame) (w' : @Wavenet.t sample),
    Wavenet.infer_step tanh sigmoid w cond x = Ok (y, w') /\
    forget_caches w' = forget_caches w /\ caches_batch b w' /\
    length y = b /\
    (Wavenet.use_skip_out w = true ->
     frame_shape b (length (Conv.conv_weight (Wavenet.conv_end w))) y).
Proof.
  intros Hwf Hcond Hx Hcaches. unfold Wavenet.infer_step.
  assert (Hc : exists c : signal,
    (if Wavenet.use_conditioning w
     then match cond with
          | Some f => Ok [f]
          | None => Raise AttributeError
          end
     else Ok []) = Ok c /\
    (Wavenet.use_conditioning w = true ->
     length c = 1 /\ has_batch b c)).
  { destruct (Wavenet.use_conditioning w).
    - destruct (Hcond eq_refl) as (f & -> & Hf).
      exists [f]. split; [reflexivity|]. intros _.
      split; [reflexivity|]. apply Forall_cons; [exact Hf|apply Forall_nil].
    - exists []. split; [reflexivity|discriminate]. }
  destruct Hc as (c & Hc1 & Hc2). rewrite Hc1. cbn [bind].
  assert (Hin : has_batch b [Wavenet.in_slice w x]).
  { apply Forall_cons; [|apply Forall_nil].
    unfold Wavenet.in_slice. now rewrite length_map. }
  destruct (infer_blocks_ok c b (Wavenet.n_layers w) w 0
              [Wavenet.in_slice w x] None)
    as (x' & o' & w' & Hb & Hlx' & Hxb' & Hlo' & Hob' & Hne' & Hf' & Hc');
    try assumption.
  { lia. } { reflexivity. } { exact I. } { exact I. }
  { intros _ E. congruence. }
  rewrite Hb. cbn [bind fst snd].
  assert (Hwf' : well_formed w')
    by (apply (well_formed_forget w); assumption).
  destruct (config_of_forget w w' Hf') as (_ & _ & Es & _ & Ee & _).
  destruct (infer_head_ok w' b x' o' Hwf' Hlx' Hxb' Hlo' Hob')
    as (y & Hout & Hly & Hsh).
  { rewrite Es. intros E. apply Hne'; [exact E|].
    destruct Hwf as (_ & _ & _ & _ & _ & _ & _ & Hso).
    destruct (Hso E). simpl. lia. }
  rewrite Hout. cbn [bind last]. exists y, w'.
  split; [reflexivity|]. split; [exact Hf'|]. split; [exact Hc'|].
  split; [exact Hly|]. rewrite <- Es, <- Ee. exact Hsh.
Qed.

End StreamFacts.

(** ** The inference loop *)

Lemma get_at_in {A} (i : nat) (l : list A) (v : A) :
  get_at i l = Ok v -> In v l.
Proof.
  unfold get_at. destruct (nth_error l i) as [a|] eqn:E; [|discriminate].
  intros H. injection H as <-. now apply nth_error_In with i.
Qed.

Lemma fill_at_ok {A} (i : nat) (v : A) (buf : list (list A)) :
  i < length buf ->
  exists (column : list A) (buf' : list (list A)),
    nth_error buf i = Some column /\
    Wavenet.fill_at i v buf = Ok buf' /\ length buf' = length buf /\
    nth_error buf' i = Some (map (fun _ => v) column) /\
    forall j, j <> i -> nth_error buf' j = nth_error buf j.
Proof.
  intros Hi. unfold Wavenet.fill_at, get_at.
  destruct (nth_error buf i) as [column|] eqn:E;
    [|apply nth_error_None in E; lia].
  cbn [bind].
  destruct (set_at_ok i (map (fun _ => v) column) buf Hi)
    as (buf' & Hs & Hl & Hn & Ho).
  exists column, buf'. repeat split; assumption.
Qed.

Lemma forward_sample_ok {sample : Type} (rand_sample_chance : Qc)
  (teacher_audio : option (list (list sample)))
  (output_audio : list (list sample)) (s : nat) :
  s < length output_audio ->
  exists v : list sample,
    Wavenet.forward_sample_at false rand_sample_chance teacher_audio
      output_audio s = Ok v /\
    match teacher_audio with
    | Some ta =>
        if s <? length ta then nth_error ta s = Some v
        else nth_error output_audio s = Some v
    | None => nth_error output_audio s = Some v
    end.
Proof.
  intros Hs. unfold Wavenet.forward_sample_at, get_at.
  destruct teacher_audio as [ta|].
  - destruct (Nat.ltb_spec s (length ta)) as [L|L].
    + destruct (nth_error ta s) as [v|] eqn:E;
        [|apply nth_error_None in E; lia].
      exists v. split; reflexivity.
    + destruct (nth_error output_audio s) as [v|] eqn:E;
        [|apply nth_error_None in E; lia].
      exists v. split; reflexivity.
  - cbn. destruct (nth_error output_audio s) as [v|] eqn:E;
      [|apply nth_error_None in E; lia].
    exists v. split; reflexivity.
Qed.

Lemma forward_sample_batch {sample : Type} (rand_sample_chance : Qc)
  (teacher_audio : option (list (list sample)))
  (output_audio : list (list sample)) (b s : nat) (v : list sample) :
  teacher_batch b teacher_audio -> columns_batch b output_audio ->
  Wavenet.forward_sample_at false rand_sample_chance teacher_audio
    output_audio s = Ok v ->
  length v = b.
Proof.
  intros Ht Ho H. unfold Wavenet.forward_sample_at in H.
  unfold columns_batch in Ho. rewrite Forall_forall in Ho.
  destruct teacher_audio as [ta|].
  - simpl in Ht. unfold columns_batch in Ht. rewrite Forall_forall in Ht.
    destruct (s <? length ta); apply get_at_in in H; auto.
  - apply get_at_in in H. auto.
Qed.

(** The write of a prediction into the logits buffer: it goes through
    exactly when the batch holds one element, and the column is then the
    row of that element. *)
Lemma logits_column_batch {sample : Type} (w : @Wavenet.t sample)
    (pred : frame) (b : nat) :
  Wavenet.use_skip_out w = true ->
  frame_shape b (Wavenet.n_out_channels w) pred ->
  (b = 1 -> Wavenet.logits_column w pred = Ok (hd [] pred)) /\
  (b <> 1 -> Wavenet.logits_column w pred = Raise RuntimeError).
Proof.
  intros Hs [Hb Hc]. unfold Wavenet.logits_column. rewrite Hs.
  destruct pred as [|row pred].
  { simpl in Hb. subst b. split; [discriminate|reflexivity]. }
  inversion Hc as [|? ? Hrow _]; subst. cbn [hd length].
  unfold Wavenet.squeeze. cbn [filter].
  change (1 =? 1) with true. cbn [negb].
  destruct pred as [|row' pred].
  - cbn [length]. change (1 =? 1) with true. cbn [negb]. split; [|congruence].
    intros _. destruct (Nat.eqb_spec (length row) 1) as [E|E]; cbn [negb].
    + rewrite <- Hrow, E. destruct row as [|v [|v' row]]; try discriminate.
      reflexivity.
    + rewrite Hrow, Nat.eqb_refl. cbn [concat]. now rewrite app_nil_r.
  - split; [simpl; lia|]. intros _. cbn [length].
    destruct (Nat.eqb_spec (S (S (length pred))) 1) as [E|E]; [lia|].
    cbn [negb].
    destruct (Nat.eqb_spec (length row) 1) as [E1|E1]; cbn [negb];
      [|reflexivity].
    rewrite <- Hrow, E1.
    destruct (Nat.eqb_spec (S (S (length pred))) 1); [lia|reflexivity].
Qed.

Section LoopFacts.

Context {sample : Type}.
Variables tanh sigmoid : Qc -> Qc.
Variables SDML CS : list Qc -> sample.

Variable w0 : @Wavenet.t sample.
Hypothesis Hwf0 : well_formed w0.
Hypothesis Hhead0 : logits_head w0.

Variable use_logistic_mix : bool.
Variable rand_sample_chance : Qc.
Variable teacher_audio : option (list (list sample)).
Variable cond : option signal.

(** The batch size of the session, and the number of loop iterations,
    [length - 1]. *)
Variables b steps : nat.
Hypothesis Hteacher : teacher_batch b teacher_audio.
Hypothesis Hcond : cond_ready w0 cond b steps.

Lemma flags_of_forget (w : @Wavenet.t sample) :
  forget_caches w = forget_caches w0 ->
  Wavenet.use_conditioning w = Wavenet.use_conditioning w0 /\
  Wavenet.use_cond_conv w = Wavenet.use_cond_conv w0 /\
  Wavenet.same_cond_each_resblock w = Wavenet.same_cond_each_resblock w0.
Proof.
  intros E. unfold forget_caches, Wavenet.set_dilate_layers in E.
  injection E. intros. repeat split; assumption.
Qed.

Lemma cond_sample_ok (w : @Wavenet.t sample) (s : nat) :
  forget_caches w = forget_caches w0 -> s < steps ->
  exists c : option frame,
    Wavenet.cond_sample_at w cond s = Ok c /\
    (Wavenet.use_conditioning w = true ->
     exists f : frame, c = Some f /\ length f = b).
Proof.
  intros E Hs. destruct (flags_of_forget w E) as (E1 & E2 & E3).
  unfold Wavenet.cond_sample_at. rewrite E1, E2, E3.
  destruct (Wavenet.use_conditioning w0) eqn:Ec.
  2:{ exists None. split; [reflexivity|discriminate]. }
  destruct (Hcond Ec) as (Hflags & cf & -> & Hlen & Hcb). rewrite Hflags.
  destruct (nth_error cf s) as [f|] eqn:En.
  2:{ apply nth_error_None in En. lia. }
  assert (Hf : length f = b).
  { apply signal_shape_batch in Hcb.
    unfold has_batch in Hcb. rewrite Forall_forall in Hcb.
    apply Hcb. now apply nth_error_In with s. }
  exists (Some f). unfold get_at. rewrite En.
  destruct (Wavenet.same_cond_each_resblock w0); cbn;
    (split; [reflexivity|intros _; exists f; split; [reflexivity|exact Hf]]).
Qed.

(** Up to the write into the logits buffer a pass of the loop goes
    through, whatever the batch size. *)
Lemma inference_step_pred (L s : nat) (st : Wavenet.loop_state) :
  loop_inv w0 b L st -> s < steps -> s < L ->
  exists (c : option frame) (v : list sample) (pred : frame)
         (w' : @Wavenet.t sample),
    Wavenet.cond_sample_at (Wavenet.net st) cond s = Ok c /\
    Wavenet.forward_sample_at false rand_sample_chance teacher_audio
      (Wavenet.output_audio st) s = Ok v /\
    Wavenet.infer_step tanh sigmoid (Wavenet.net st) c v = Ok (pred, w') /\
    forget_caches w' = forget_caches w0 /\ caches_batch b w' /\
    Wavenet.use_skip_out (Wavenet.net st) = true /\
    frame_shape b (Wavenet.n_out_channels (Wavenet.net st)) pred.
Proof.
  intros (Hf & Hll & Hla & Hcb & Hoa) Hs HsL.
  assert (Hwf : well_formed (Wavenet.net st))
    by (apply (well_formed_forget w0); assumption).
  destruct (config_of_forget w0 (Wavenet.net st) Hf)
    as (_ & _ & Es & En & Ee & _).
  destruct Hhead0 as [Hso Hne].
  destruct (cond_sample_ok (Wavenet.net st) s Hf Hs) as (c & Hc & Hcn).
  destruct (forward_sample_ok rand_sample_chance teacher_audio
              (Wavenet.output_audio st) s) as (v & Hv & _); [lia|].
  pose proof (forward_sample_batch rand_sample_chance teacher_audio
                (Wavenet.output_audio st) b s v Hteacher Hoa Hv) as Hvb.
  destruct (infer_step_ok tanh sigmoid (Wavenet.net st) c v b Hwf Hcn Hvb
              Hcb) as (pred & w' & Hy & Hf' & Hc' & Hly & Hsh).
  exists c, v, pred, w'. split; [exact Hc|]. split; [exact Hv|].
  split; [exact Hy|]. split; [now rewrite Hf'|]. split; [exact Hc'|].
  split; [now rewrite Es|].
  rewrite En, <- Hne, <- Ee. apply Hsh. now rewrite Es.
Qed.

Lemma inference_step_ok (L s : nat) (st : Wavenet.loop_state) :
  b = 1 -> loop_inv w0 b L st -> s < steps -> s + 1 < L ->
  exists (y : list Qc) (st' : Wavenet.loop_state),
    Wavenet.inference_step tanh sigmoid SDML CS use_logistic_mix
      false rand_sample_chance teacher_audio cond s st = Ok st' /\
    loop_inv w0 b L st' /\
    nth_error (Wavenet.logits st') (s + 1) = Some y /\
    nth_error (Wavenet.output_audio st') (s + 1) =
      Some [(if use_logistic_mix then SDML else CS) y] /\
    (forall j, j <> s + 1 ->
       nth_error (Wavenet.logits st') j = nth_error (Wavenet.logits st) j /\
       nth_error (Wavenet.output_audio st') j =
         nth_error (Wavenet.output_audio st) j) /\
    exists (c : option frame) (v : list sample) (pred : frame),
      Wavenet.cond_sample_at (Wavenet.net st) cond s = Ok c /\
      Wavenet.forward_sample_at false rand_sample_chance teacher_audio
        (Wavenet.output_audio st) s = Ok v /\
      Wavenet.infer_step tanh sigmoid (Wavenet.net st) c v =
        Ok (pred, Wavenet.net st') /\
      pred = [y].
Proof.
  intros Hb1 Hinv Hs HsL.
  destruct (inference_step_pred L s st Hinv Hs)
    as (c & v & pred & w' & Hc & Hv & Hy & Hf' & Hc' & Hso & Hsh); [lia|].
  destruct Hinv as (Hf & Hll & Hla & Hcb & Hoa).
  unfold Wavenet.inference_step. rewrite Hc. cbn [bind]. rewrite Hv.
  cbn [bind]. rewrite Hy. cbn [bind fst snd].
  destruct (logits_column_batch (Wavenet.net st) pred b Hso Hsh)
    as [Hcol _].
  rewrite (Hcol Hb1). cbn [bind].
  destruct (set_at_ok (s + 1) (hd [] pred) (Wavenet.logits st))
    as (lg & Hlg & Hllg & Hnlg & Holg); [lia|].
  rewrite Hlg. cbn [bind]. rewrite (get_at_ok _ _ _ Hnlg). cbn [bind].
  destruct (fill_at_ok (s + 1)
              ((if use_logistic_mix then SDML else CS) (hd [] pred))
              (Wavenet.output_audio st))
    as (col & oa & Hcol0 & Hoa' & Hloa & Hnoa & Hooa); [lia|].
  rewrite Hoa'. cbn [bind].
  assert (Hlcol : length col = b).
  { unfold columns_batch in Hoa. rewrite Forall_forall in Hoa.
    apply Hoa. now apply nth_error_In with (s + 1). }
  assert (Ecol : map (fun _ : sample =>
                   (if use_logistic_mix then SDML else CS) (hd [] pred))
                   col =
                 [(if use_logistic_mix then SDML else CS) (hd [] pred)]).
  { rewrite Hb1 in Hlcol. destruct col as [|e [|e' col]];
      try discriminate. reflexivity. }
  exists (hd [] pred). eexists. split; [reflexivity|].
  unfold loop_inv.
  cbn [Wavenet.logits Wavenet.output_audio Wavenet.net].
  split.
  { split; [exact Hf'|]. split; [congruence|]. split; [congruence|].
    split; [exact Hc'|].
    unfold Wavenet.fill_at in Hoa'. rewrite (get_at_ok _ _ _ Hcol0) in Hoa'.
    cbn [bind] in Hoa'.
    unfold columns_batch.
    eapply Forall_set_at; [exact Hoa| |exact Hoa'].
    now rewrite length_map. }
  split; [exact Hnlg|]. split; [now rewrite Hnoa, Ecol|].
  split; [intros j Hj; split; [now apply Holg|now apply Hooa]|].
  exists c, v, pred. do 2 (split; [reflexivity|]). split; [exact Hy|].
  destruct Hsh as [Hlp _]. rewrite Hb1 in Hlp.
  destruct pred as [|row [|row' pred]]; try discriminate. reflexivity.
Qed.

(** With another batch size the pass stops at the write into the
    logits buffer. *)
Lemma inference_step_fails (L s : nat) (st : Wavenet.loop_state) :
  b <> 1 -> loop_inv w0 b L st -> s < steps -> s < L ->
  Wavenet.inference_step tanh sigmoid SDML CS use_logistic_mix
    false rand_sample_chance teacher_audio cond s st =
    Raise RuntimeError.
Proof.
  intros Hb1 Hinv Hs HsL.
  destruct (inference_step_pred L s st Hinv Hs HsL)
    as (c & v & pred & w' & Hc & Hv & Hy & _ & _ & Hso & Hsh).
  unfold Wavenet.inference_step. rewrite Hc. cbn [bind]. rewrite Hv.
  cbn [bind]. rewrite Hy. cbn [bind fst snd].
  destruct (logits_column_batch (Wavenet.net st) pred b Hso Hsh)
    as [_ Hcol].
  now rewrite (Hcol Hb1).
Qed.

Lemma inference_loop_ok (L : nat) (k : nat) :
  forall (s0 : nat) (st : Wavenet.loop_state),
  b = 1 -> loop_inv w0 b L st -> s0 + k <= steps -> s0 + k < L ->
  exists st' : Wavenet.loop_state,
    Wavenet.inference_loop tanh sigmoid SDML CS use_logistic_mix
      false rand_sample_chance teacher_audio cond (seq s0 k) st =
      Ok st' /\ loop_inv w0 b L st' /\
    (forall j, j <= s0 \/ s0 + k < j ->
       nth_error (Wavenet.logits st') j = nth_error (Wavenet.logits st) j /\
       nth_error (Wavenet.output_audio st') j =
         nth_error (Wavenet.output_audio st) j) /\
    (forall j, s0 < j <= s0 + k ->
       exists y : list Qc,
         nth_error (Wavenet.logits st') j = Some y /\
         nth_error (Wavenet.output_audio st') j =
           Some [(if use_logistic_mix then SDML else CS) y]).
Proof.
  induction k as [|k IH]; intros s0 st Hb1 Hinv Hk HL.
  - exists st. split; [reflexivity|]. split; [exact Hinv|].
    split; [intros; split; reflexivity|]. intros j Hj. lia.
  - cbn [seq Wavenet.inference_loop].
    destruct (inference_step_ok L s0 st Hb1 Hinv)
      as (y & st1 & Hst & Hinv1 & Hy1 & Ha1 & Hother & _); [lia|lia|].
    rewrite Hst. cbn [bind].
    destruct (IH (S s0) st1 Hb1 Hinv1) as (st' & Hl & Hinv' & Hout & Hin);
      [lia|lia|].
    exists st'. split; [exact Hl|]. split; [exact Hinv'|]. split.
    + intros j Hj.
      destruct (Hout j) as [H1 H2]; [lia|].
      destruct (Hother j) as [H3 H4]; [lia|].
      split; congruence.
    + intros j Hj. destruct (Nat.eq_dec j (s0 + 1)) as [->|Hne].
      * exists y. destruct (Hout (s0 + 1)) as [H1 H2]; [lia|].
        split; congruence.
      * apply Hin. lia.
Qed.

End LoopFacts.

(** ** Sessions *)


Lemma fresh_caches_batch {sample : Type} (b : nat) (w : @Wavenet.t sample) :
  fresh w -> caches_batch b w.
Proof.
  intros H. unfold caches_batch. eapply Forall_impl; [|exact H].
  intros c Hc. cbv beta in Hc. now rewrite Hc.
Qed.

Lemma initial_state_inv {sample : Type} (enc : Qc -> sample)
    (w : @Wavenet.t sample) (ss : Wavenet.session) :
  fresh w ->
  loop_inv w (Wavenet.s_batch_size ss) (Wavenet.s_length ss)
    (Wavenet.initial_state enc w ss).
Proof.
  intros Hfresh. unfold loop_inv, Wavenet.initial_state.
  cbn [Wavenet.logits Wavenet.output_audio Wavenet.net].
  rewrite !repeat_length.
  split; [reflexivity|]. split; [reflexivity|]. split; [reflexivity|].
  split; [now apply fresh_caches_batch|].
  apply Forall_forall. intros column Hcol. apply repeat_spec in Hcol.
  subst column. apply repeat_length.
Qed.

(** The loop of a session of batch size 1 runs to its end on a fresh
    well-formed network with the conditioning ready, when no random
    substitution is asked for. *)
Lemma session_loop_ok {sample : Type} (tanh sigmoid : Qc -> Qc)
    (SDML CS : list Qc -> sample) (enc : Qc -> sample)
    (w : @Wavenet.t sample) (ss : Wavenet.session)
    (use_logistic_mix : bool) (p : Qc)
    (teacher : option (list (list sample))) (k : nat) :
  well_formed w -> logits_head w -> fresh w ->
  Wavenet.s_batch_size ss = 1 -> teacher_batch 1 teacher ->
  cond_ready w (Wavenet.s_cond ss) 1 (Wavenet.s_length ss - 1) ->
  k <= Wavenet.s_length ss - 1 ->
  exists st : Wavenet.loop_state,
    Wavenet.inference_loop tanh sigmoid SDML CS use_logistic_mix false p
      teacher (Wavenet.s_cond ss) (seq 0 k)
      (Wavenet.initial_state enc w ss) = Ok st /\
    loop_inv w 1 (Wavenet.s_length ss) st /\
    (forall j, j = 0 \/ k < j ->
       nth_error (Wavenet.output_audio st) j =
       nth_error (Wavenet.output_audio (Wavenet.initial_state enc w ss)) j) /\
    (forall j, 0 < j <= k ->
       exists y : list Qc,
         nth_error (Wavenet.logits st) j = Some y /\
         nth_error (Wavenet.output_audio st) j =
           Some [(if use_logistic_mix then SDML else CS) y]).
Proof.
  intros Hwf Hhead Hfresh HB Hteacher Hcond Hk.
  assert (Hinv0 : loop_inv w 1 (Wavenet.s_length ss)
                    (Wavenet.initial_state enc w ss)).
  { rewrite <- HB. now apply initial_state_inv. }
  destruct k as [|k].
  { exists (Wavenet.initial_state enc w ss). split; [reflexivity|].
    split; [exact Hinv0|]. split; [reflexivity|].
    intros j Hj. lia. }
  destruct (inference_loop_ok tanh sigmoid SDML CS w Hwf Hhead
              use_logistic_mix p teacher (Wavenet.s_cond ss) 1
              (Wavenet.s_length ss - 1) Hteacher Hcond
              (Wavenet.s_length ss) (S k) 0
              (Wavenet.initial_state enc w ss) eq_refl Hinv0)
    as (st & Hl & Hinv & Hout & Hin); [simpl; lia|simpl; lia|].
  exists st. split; [exact Hl|]. split; [exact Hinv|]. split.
  - intros j Hj. apply Hout. simpl. lia.
  - intros j Hj. apply Hin. simpl. lia.
Qed.

Lemma inference_loop_app {sample : Type} (tanh sigmoid : Qc -> Qc)
    (SDML CS : list Qc -> sample) (use_logistic_mix randomize_input : bool)
    (p : Qc) (teacher : option (list (list sample)))
    (cond : option signal) (l1 l2 : list nat) :
  forall st : Wavenet.loop_state,
    Wavenet.inference_loop tanh sigmoid SDML CS use_logistic_mix
      randomize_input p teacher cond (l1 ++ l2) st =
    let* st1 := Wavenet.inference_loop tanh sigmoid SDML CS
                  use_logistic_mix randomize_input p teacher cond l1 st in
    Wavenet.inference_loop tanh sigmoid SDML CS use_logistic_mix
      randomize_input p teacher cond l2 st1.
Proof.
  induction l1 as [|s l1 IH]; intros st; [reflexivity|].
  cbn [app Wavenet.inference_loop].
  destruct (Wavenet.inference_step tanh sigmoid SDML CS use_logistic_mix
              randomize_input p teacher cond s st) as [st1|e];
    [|reflexivity].
  cbn [bind]. apply IH.
Qed.

(** The pass of the loop after the first [s] ones is the last of the
    first [s + 1]. *)
Lemma inference_loop_next {sample : Type} (tanh sigmoid : Qc -> Qc)
    (SDML CS : list Qc -> sample) (use_logistic_mix randomize_input : bool)
    (p : Qc) (teacher : option (list (list sample)))
    (cond : option signal) (s : nat) (st0 st st' : Wavenet.loop_state) :
  Wavenet.inference_loop tanh sigmoid SDML CS use_logistic_mix
    randomize_input p teacher cond (seq 0 s) st0 = Ok st ->
  Wavenet.inference_step tanh sigmoid SDML CS use_logistic_mix
    randomize_input p teacher cond s st = Ok st' ->
  Wavenet.inference_loop tanh sigmoid SDML CS use_logistic_mix
    randomize_input p teacher cond (seq 0 (s + 1)) st0 = Ok st'.
Proof.
  intros Hl Hs. replace (s + 1) with (S s) by lia.
  rewrite seq_S, inference_loop_app, Hl. cbn [bind Nat.add].
  cbn [Wavenet.inference_loop]. now rewrite Hs.
Qed.

(** C5: without random substitution, in a session of batch size 1 on a
    one-hot network, with a teacher buffer of length K below the target
    length L, the loop reaches every time step s <= L - 2, and pass s of
    it is the streaming step on the column v that lines 496-500 select:
    the state after the pass holds the network [infer_step] returns on v,
    its prediction in column s + 1 of the logits and the sample drawn
    from it in column s + 1 of the output audio.  That column v is
    [teacher_audio[:, s]] when s < K, whatever the output-audio buffer
    holds at index s by then, and the column at index s of the
    output-audio buffer when K <= s.  From index 1 on that column holds
    what the sampler returned for the logits of the step before, which
    are stored at index s of the logits buffer, at teacher steps too; the
    column at index 0 holds the start symbol the buffer was filled
    with. *)
Theorem teacher_then_generated (tanh sigmoid : Qc -> Qc)
    (SDML CS : list Qc -> Z) (enc : Qc -> Z)
    (w : @Wavenet.t Z) (q : QuantizedInputLayer.t) (ss : Wavenet.session)
    (use_logistic_mix : bool) (p : Qc) (teacher : list (list Z))
    (s : nat) :
  well_formed w -> channels_fit w -> logits_head w -> fresh w ->
  onehot_input w q ->
  class_inputs q (if use_logistic_mix then SDML else CS) enc
    (Some teacher) ->
  Wavenet.s_batch_size ss = 1 -> columns_batch 1 teacher ->
  cond_ready w (Wavenet.s_cond ss) 1 (Wavenet.s_length ss - 1) ->
  length teacher < Wavenet.s_length ss ->
  s + 1 < Wavenet.s_length ss ->
  exists (st st' : Wavenet.loop_state) (v : list Z) (c : option frame)
         (y : list Qc),
    (* the state before pass s and the state after it *)
    Wavenet.inference_loop tanh sigmoid SDML CS use_logistic_mix false p
      (Some teacher) (Wavenet.s_cond ss) (seq 0 s)
      (Wavenet.initial_state enc w ss) = Ok st /\
    Wavenet.inference_step tanh sigmoid SDML CS use_logistic_mix false p
      (Some teacher) (Wavenet.s_cond ss) s st = Ok st' /\
    Wavenet.inference_loop tanh sigmoid SDML CS use_logistic_mix false p
      (Some teacher) (Wavenet.s_cond ss) (seq 0 (s + 1))
      (Wavenet.initial_state enc w ss) = Ok st' /\
    (* the pass is the streaming step on v *)
    Wavenet.forward_sample_at false p (Some teacher)
      (Wavenet.output_audio st) s = Ok v /\
    Wavenet.cond_sample_at (Wavenet.net st) (Wavenet.s_cond ss) s = Ok c /\
    Wavenet.infer_step tanh sigmoid (Wavenet.net st) c v =
      Ok ([y], Wavenet.net st') /\
    nth_error (Wavenet.logits st') (s + 1) = Some y /\
    nth_error (Wavenet.output_audio st') (s + 1) =
      Some [(if use_logistic_mix then SDML else CS) y] /\
    (* what the buffers hold before the pass, teacher steps included *)
    (forall j : nat, 1 <= j <= s ->
       exists yj : list Qc,
         nth_error (Wavenet.logits st) j = Some yj /\
         nth_error (Wavenet.output_audio st) j =
           Some [(if use_logistic_mix then SDML else CS) yj]) /\
    (* where v comes from *)
    (s < length teacher -> nth_error teacher s = Some v) /\
    (length teacher <= s ->
     nth_error (Wavenet.output_audio st) s = Some v /\
     (1 <= s ->
      exists y0 : list Qc,
        nth_error (Wavenet.logits st) s = Some y0 /\
        v = [(if use_logistic_mix then SDML else CS) y0]) /\
     (s = 0 -> v = [enc 0%Qc])).
Proof.
  intros Hwf _ Hhead Hfresh _ _ HB Hteacher Hcond HK Hs.
  destruct (session_loop_ok tanh sigmoid SDML CS enc w ss use_logistic_mix p
              (Some teacher) s Hwf Hhead Hfresh HB Hteacher Hcond)
    as (st & Hl & Hinv & Hout & Hin); [lia|].
  destruct (inference_step_ok tanh sigmoid SDML CS w Hwf Hhead
              use_logistic_mix p (Some teacher) (Wavenet.s_cond ss) 1
              (Wavenet.s_length ss - 1) Hteacher Hcond
              (Wavenet.s_length ss) s st eq_refl Hinv)
    as (y & st' & Hstep & _ & Hlog & Haud & _ & c & v & pred & Hc & Hv & Hy
        & Hpred);
    [lia|lia|].
  subst pred.
  exists st, st', v, c, y. split; [exact Hl|]. split; [exact Hstep|].
  split; [exact (inference_loop_next _ _ _ _ _ _ _ _ _ _ _ _ _ Hl Hstep)|].
  split; [exact Hv|]. split; [exact Hc|]. split; [exact Hy|].
  split; [exact Hlog|]. split; [exact Haud|].
  split; [intros j Hj; apply Hin; lia|].
  destruct Hinv as (_ & _ & Hla & _).
  destruct (forward_sample_ok p (Some teacher) (Wavenet.output_audio st) s)
    as (v' & Hv' & Hsrc); [lia|].
  assert (v' = v) by congruence. subst v'.
  split.
  - intros Hlt. destruct (Nat.ltb_spec s (length teacher)); [assumption|lia].
  - intros Hge. destruct (Nat.ltb_spec s (length teacher)) as [L|L]; [lia|].
    split; [exact Hsrc|]. split.
    + intros H1. destruct (Hin s) as (y0 & Hy0 & Ha0); [lia|].
      exists y0. split; [exact Hy0|]. congruence.
    + intros ->. pose proof (Hout 0 (or_introl eq_refl)) as H0.
      rewrite H0 in Hsrc. unfold Wavenet.initial_state in Hsrc.
      cbn [Wavenet.output_audio] in Hsrc.
      replace (Wavenet.s_length ss + 1) with (S (Wavenet.s_length ss)) in Hsrc
        by lia.
      rewrite HB in Hsrc. simpl in Hsrc. congruence.
Qed.

(** C7 (what the code does): with [randomize_input] on, the first pass of
    the loop raises TypeError at the test
    [random.uniform < rand_sample_chance], whatever the probability. *)
Theorem randomize_input_raises {sample : Type} (tanh sigmoid : Qc -> Qc)
    (SDML CS : list Qc -> sample) (enc : Qc -> sample)
    (dec : sample -> nat -> Qc)
    (w : @Wavenet.t sample) (cond_features : option signal)
    (use_logistic_mix : bool) (teacher : option (list (list sample)))
    (mu_quantization : nat) (p : Qc)
    (length audio_hz batch_size cond_channels : nat)
    (ss : Wavenet.session) (c : option frame) :
  Wavenet.inference_init w cond_features length audio_hz batch_size
    cond_channels = Ok ss ->
  2 <= Wavenet.s_length ss ->
  Wavenet.cond_sample_at w (Wavenet.s_cond ss) 0 = Ok c ->
  Wavenet.inference tanh sigmoid SDML CS enc dec w cond_features
    use_logistic_mix teacher mu_quantization true p length audio_hz
    batch_size cond_channels = Raise TypeError.
Proof.
  intros Hinit HL Hc. unfold Wavenet.inference. rewrite Hinit. cbn [bind].
  destruct (Wavenet.s_length ss - 1) as [|k] eqn:E; [lia|].
  cbn [seq Wavenet.inference_loop]. unfold Wavenet.inference_step.
  cbn [Wavenet.initial_state Wavenet.net]. rewrite Hc. cbn [bind].
  reflexivity.
Qed.

(** The whole of [inference] at batch size 1, without random
    substitution: it returns one decoded column per index of the
    output-audio buffer, [length + 1] of them. *)
Lemma inference_ok {sample : Type} (tanh sigmoid : Qc -> Qc)
    (SDML CS : list Qc -> sample) (enc : Qc -> sample)
    (dec : sample -> nat -> Qc)
    (w : @Wavenet.t sample) (cond_features : option signal)
    (use_logistic_mix : bool) (teacher : option (list (list sample)))
    (mu_quantization : nat) (p : Qc)
    (length audio_hz batch_size cond_channels : nat) (ss : Wavenet.session) :
  well_formed w -> logits_head w -> fresh w ->
  Wavenet.inference_init w cond_features length audio_hz batch_size
    cond_channels = Ok ss ->
  Wavenet.s_batch_size ss = 1 -> teacher_batch 1 teacher ->
  cond_ready w (Wavenet.s_cond ss) 1 (Wavenet.s_length ss - 1) ->
  exists (audio : list (list Qc)) (st : Wavenet.loop_state),
    Wavenet.inference tanh sigmoid SDML CS enc dec w cond_features
      use_logistic_mix teacher mu_quantization false p length audio_hz
      batch_size cond_channels = Ok (audio, st) /\
    List.length audio = Wavenet.s_length ss + 1 /\
    columns_batch 1 audio /\
    loop_inv w 1 (Wavenet.s_length ss) st.
Proof.
  intros Hwf Hhead Hfresh Hinit HB Hteacher Hcond.
  unfold Wavenet.inference. rewrite Hinit. cbn [bind].
  destruct (session_loop_ok tanh sigmoid SDML CS enc w ss use_logistic_mix p
              teacher (Wavenet.s_length ss - 1) Hwf Hhead Hfresh HB Hteacher
              Hcond (le_n _))
    as (st & Hl & Hinv & _).
  rewrite Hl. cbn [bind]. eexists. exists st. split; [reflexivity|].
  pose proof Hinv as (_ & _ & Hla & _ & Hcols).
  split; [now rewrite length_map|]. split; [|exact Hinv].
  apply Forall_forall. intros column Hcol. apply in_map_iff in Hcol.
  destruct Hcol as (c0 & <- & Hc0). rewrite length_map.
  unfold columns_batch in Hcols. rewrite Forall_forall in Hcols.
  now apply Hcols.
Qed.

(** With another batch size the first pass of the loop stops at the
    write into the logits buffer. *)
Lemma inference_batch_fails {sample : Type} (tanh sigmoid : Qc -> Qc)
    (SDML CS : list Qc -> sample) (enc : Qc -> sample)
    (dec : sample -> nat -> Qc)
    (w : @Wavenet.t sample) (cond_features : option signal)
    (use_logistic_mix : bool) (teacher : option (list (list sample)))
    (mu_quantization : nat) (p : Qc)
    (length audio_hz batch_size cond_channels : nat) (ss : Wavenet.session) :
  well_formed w -> logits_head w -> fresh w ->
  Wavenet.inference_init w cond_features length audio_hz batch_size
    cond_channels = Ok ss ->
  Wavenet.s_batch_size ss <> 1 ->
  teacher_batch (Wavenet.s_batch_size ss) teacher ->
  cond_ready w (Wavenet.s_cond ss) (Wavenet.s_batch_size ss)
    (Wavenet.s_length ss - 1) ->
  2 <= Wavenet.s_length ss ->
  Wavenet.inference tanh sigmoid SDML CS enc dec w cond_features
    use_logistic_mix teacher mu_quantization false p length audio_hz
    batch_size cond_channels = Raise RuntimeError.
Proof.
  intros Hwf Hhead Hfresh Hinit HB Hteacher Hcond HL.
  unfold Wavenet.inference. rewrite Hinit. cbn [bind].
  destruct (Wavenet.s_length ss - 1) as [|k] eqn:E; [lia|].
  cbn [seq Wavenet.inference_loop].
  rewrite (inference_step_fails tanh sigmoid SDML CS w Hwf Hhead
             use_logistic_mix p teacher (Wavenet.s_cond ss)
             (Wavenet.s_batch_size ss) (S k) Hteacher Hcond
             (Wavenet.s_length ss) 0 (Wavenet.initial_state enc w ss) HB);
    [reflexivity|now apply initial_state_inv|lia|lia].
Qed.

Lemma inference_init_zeros {sample : Type} (w : @Wavenet.t sample)
    (length audio_hz batch_size cond_channels : nat) :
  well_formed w -> Wavenet.use_conditioning w = true ->
  0 < length -> 0 < batch_size -> 0 < cond_channels ->
  exists cf : signal,
    Wavenet.inference_init w None length audio_hz batch_size cond_channels =
      Ok (Wavenet.mk_session (Some cf) length batch_size) /\
    List.length cf = length /\
    signal_shape batch_size
      (if Wavenet.use_cond_conv w
       then List.length (Conv.conv_weight (Wavenet.cond_layers w))
       else cond_channels) cf /\
    (if Wavenet.use_cond_conv w
     then Conv.forward (Wavenet.cond_layers w)
            (repeat (zero_frame batch_size cond_channels) length) = Ok cf
     else cf = repeat (zero_frame batch_size cond_channels) length).
Proof.
  intros Hwf Hc HL HB HC.
  unfold Wavenet.inference_init, Wavenet.cond_for_inference. rewrite Hc.
  destruct (Nat.ltb_spec 0 length) as [_|]; [|lia].
  destruct (Nat.ltb_spec 0 batch_size) as [_|]; [|lia].
  destruct (Nat.ltb_spec 0 cond_channels) as [_|]; [|lia].
  cbn [andb].
  assert (Hz : signal_shape batch_size cond_channels
                 (repeat (zero_frame batch_size cond_channels) length)).
  { apply Forall_forall. intros f Hf. apply repeat_spec in Hf. subst f.
    apply zero_frame_shape. }
  assert (Hne : repeat (zero_frame batch_size cond_channels) length <> []).
  { destruct length; [lia|discriminate]. }
  destruct (Wavenet.use_cond_conv w).
  - destruct Hwf as (_ & _ & _ & _ & Hcl & _).
    destruct (conv_forward_time_local (Wavenet.cond_layers w)
                (repeat (zero_frame batch_size cond_channels) length)
                (or_intror Hcl) Hne) as (y & Hy & Hly & _).
    rewrite Hy. cbn [bind]. exists y. split; [reflexivity|].
    split; [now rewrite Hly, repeat_length|]. split; [|reflexivity].
    rewrite <- (batch_of_has_batch batch_size _ Hne
                  (signal_shape_batch _ _ _ Hz)).
    now apply (conv_forward_shape (Wavenet.cond_layers w) _ y
                 (or_intror Hcl)).
  - cbn [bind]. eexists. split; [reflexivity|].
    split; [apply repeat_length|]. split; [exact Hz|reflexivity].
Qed.

(** The conditioning the loop hands to [infer_step] in pass [s]: time
    step [s] of the tensor of the session. *)
Lemma cond_sample_at_frame {sample : Type} (w0 w : @Wavenet.t sample)
    (cf : signal) (s : nat) (c : option frame) :
  forget_caches w = forget_caches w0 ->
  Wavenet.use_conditioning w0 = true ->
  Wavenet.cond_sample_at w (Some cf) s = Ok c ->
  c = Some (nth s cf []) /\ s < length cf.
Proof.
  intros E Hu Hc. destruct (flags_of_forget w0 w E) as (E1 & _ & _).
  unfold Wavenet.cond_sample_at in Hc. rewrite E1, Hu in Hc.
  assert (Hg : forall r : option frame,
            (let* f := get_at s cf in Ok (Some f)) = Ok r ->
            r = Some (nth s cf []) /\ s < length cf).
  { intros r Hr. unfold get_at in Hr.
    destruct (nth_error cf s) as [f|] eqn:En; [|discriminate Hr].
    cbn [bind] in Hr. injection Hr as <-.
    split; [now rewrite (nth_error_nth cf s [] En)|].
    apply nth_error_Some. congruence. }
  destruct (Wavenet.use_cond_conv w), (Wavenet.same_cond_each_resblock w);
    try discriminate Hc; now apply Hg.
Qed.

(** C6 (as the code has it): on a fresh one-hot network with
    conditioning and the skip output, called with the conditioning
    omitted, length 100 and the conditioning channels the network takes,
    at least one, [inference] makes up an all-zero conditioning tensor,
    100 frames of batch_size x cond_channels; the session holds it as it
    is when [use_cond_conv] is off and passed through the conditioning
    convolution otherwise.  With batch_size 1 the call fails no check and
    returns 101 columns of one entry, one per index of the output-audio
    buffer; and every pass s of its loop is the streaming step of the
    stack on frame s of that tensor.  With any other batch size, 2 for
    one, the first pass of the loop raises RuntimeError where it writes
    the prediction into the logits buffer, which has no batch axis. *)
Theorem unconditional_generation (tanh sigmoid : Qc -> Qc)
    (SDML CS : list Qc -> Z) (enc : Qc -> Z) (dec : Z -> nat -> Qc)
    (w : @Wavenet.t Z) (q : QuantizedInputLayer.t)
    (use_logistic_mix : bool)
    (teacher : option (list (list Z))) (mu_quantization : nat) (p : Qc)
    (audio_hz batch_size cond_channels : nat) :
  well_formed w -> channels_fit w -> logits_head w -> fresh w ->
  onehot_input w q ->
  class_inputs q (if use_logistic_mix then SDML else CS) enc teacher ->
  Wavenet.use_conditioning w = true ->
  Wavenet.use_cond_conv w = negb (Wavenet.same_cond_each_resblock w) ->
  teacher_batch batch_size teacher ->
  0 < batch_size -> 0 < cond_channels -> cond_channels_fit w cond_channels ->
  exists cf : signal,
    Wavenet.inference_init w None 100 audio_hz batch_size cond_channels =
      Ok (Wavenet.mk_session (Some cf) 100 batch_size) /\
    length cf = 100 /\
    (if Wavenet.use_cond_conv w
     then Conv.forward (Wavenet.cond_layers w)
            (repeat (zero_frame batch_size cond_channels) 100) = Ok cf
     else cf = repeat (zero_frame batch_size cond_channels) 100) /\
    (batch_size = 1 ->
     (exists (audio : list (list Qc)) (st : Wavenet.loop_state),
        Wavenet.inference tanh sigmoid SDML CS enc dec w None
          use_logistic_mix teacher mu_quantization false p 100 audio_hz
          batch_size cond_channels = Ok (audio, st) /\
        length audio = 101 /\ columns_batch 1 audio) /\
     forall s : nat, s + 1 < 100 ->
       exists (st st' : Wavenet.loop_state) (v : list Z) (y : list Qc),
         Wavenet.inference_loop tanh sigmoid SDML CS use_logistic_mix
           false p teacher (Some cf) (seq 0 s)
           (Wavenet.initial_state enc w
              (Wavenet.mk_session (Some cf) 100 batch_size)) = Ok st /\
         Wavenet.inference_step tanh sigmoid SDML CS use_logistic_mix
           false p teacher (Some cf) s st = Ok st' /\
         Wavenet.infer_step tanh sigmoid (Wavenet.net st)
           (Some (nth s cf [])) v = Ok ([y], Wavenet.net st') /\
         (Wavenet.use_cond_conv w = false ->
          nth s cf [] = zero_frame batch_size cond_channels)) /\
    (batch_size <> 1 ->
     Wavenet.inference tanh sigmoid SDML CS enc dec w None
       use_logistic_mix teacher mu_quantization false p 100 audio_hz
       batch_size cond_channels = Raise RuntimeError).
Proof.
  intros Hwf _ Hhead Hfresh _ _ Hc Hflags Hteacher HB HC Hfit.
  destruct (inference_init_zeros w 100 audio_hz batch_size cond_channels
              Hwf Hc) as (cf & Hinit & Hlcf & Hcb & Hzero); try lia.
  assert (Hcond : cond_ready w (Some cf) batch_size (100 - 1)).
  { intros _. split; [exact Hflags|]. exists cf.
    split; [reflexivity|]. split; [lia|].
    unfold cond_channels_fit in Hfit.
    destruct (Wavenet.use_cond_conv w) eqn:Ecc.
    - destruct Hfit as [_ Hwd]. now rewrite <- Hwd.
    - now rewrite <- Hfit. }
  exists cf. split; [exact Hinit|]. split; [exact Hlcf|].
  split; [exact Hzero|]. split.
  - intros H1. subst batch_size. split.
    + destruct (inference_ok tanh sigmoid SDML CS enc dec w None
                  use_logistic_mix teacher mu_quantization p 100 audio_hz 1
                  cond_channels _ Hwf Hhead Hfresh Hinit eq_refl Hteacher
                  Hcond) as (audio & st & Hinf & Hla & Hcols & _).
      exists audio, st. split; [exact Hinf|].
      split; [exact Hla|exact Hcols].
    + intros s Hs.
      destruct (session_loop_ok tanh sigmoid SDML CS enc w
                  (Wavenet.mk_session (Some cf) 100 1) use_logistic_mix p
                  teacher s Hwf Hhead Hfresh eq_refl Hteacher Hcond)
        as (st & Hl & Hinv & _); [simpl; lia|].
      destruct (inference_step_ok tanh sigmoid SDML CS w Hwf Hhead
                  use_logistic_mix p teacher (Some cf) 1 (100 - 1)
                  Hteacher Hcond 100 s st eq_refl Hinv)
        as (y & st' & Hstep & _ & _ & _ & _ & c & v & pred & Hc' & _ & Hy
            & Hpred);
        [lia|lia|].
      subst pred. destruct Hinv as (Hf & _).
      destruct (cond_sample_at_frame w (Wavenet.net st) cf s c Hf Hc Hc')
        as [-> _].
      exists st, st', v, y. split; [exact Hl|]. split; [exact Hstep|].
      split; [exact Hy|].
      intros Ecc. rewrite Ecc in Hzero. rewrite Hzero.
      apply nth_repeat_lt. lia.
  - intros H1.
    apply (inference_batch_fails tanh sigmoid SDML CS enc dec w None
             use_logistic_mix teacher mu_quantization p 100 audio_hz
             batch_size cond_channels _ Hwf Hhead Hfresh Hinit H1 Hteacher
             Hcond).
    simpl. lia.
Qed.

(** With no conditioning channel the same call stops at the assertion
    [batch_size > 0 and cond_channels > 0]. *)
Lemma inference_zero_channels_asserts {sample : Type}
    (tanh sigmoid : Qc -> Qc) (SDML CS : list Qc -> sample)
    (enc : Qc -> sample) (dec : sample -> nat -> Qc)
    (w : @Wavenet.t sample) (use_logistic_mix : bool)
    (teacher : option (list (list sample))) (mu_quantization : nat)
    (randomize_input : bool) (p : Qc) (length audio_hz batch_size : nat) :
  Wavenet.use_conditioning w = true ->
  Wavenet.inference tanh sigmoid SDML CS enc dec w None use_logistic_mix
    teacher mu_quantization randomize_input p length audio_hz batch_size 0 =
    Raise AssertionError.
Proof.
  intros Hc. unfold Wavenet.inference, Wavenet.inference_init. rewrite Hc.
  destruct (0 <? length); [|reflexivity].
  rewrite andb_false_r. reflexivity.
Qed.

(** On a one-hot network without conditioning that has the skip
    output the requested length is in seconds: at batch size 1 the call
    returns [length * audio_hz + 1] columns, whatever conditioning
    arguments come with it. *)
Lemma inference_without_conditioning (tanh sigmoid : Qc -> Qc)
    (SDML CS : list Qc -> Z) (enc : Qc -> Z) (dec : Z -> nat -> Qc)
    (w : @Wavenet.t Z) (q : QuantizedInputLayer.t)
    (cond_features : option signal)
    (use_logistic_mix : bool) (teacher : option (list (list Z)))
    (mu_quantization : nat) (p : Qc)
    (length audio_hz cond_channels : nat) :
  well_formed w -> channels_fit w -> logits_head w -> fresh w ->
  onehot_input w q ->
  class_inputs q (if use_logistic_mix then SDML else CS) enc teacher ->
  Wavenet.use_conditioning w = false -> teacher_batch 1 teacher ->
  exists (audio : list (list Qc)) (st : Wavenet.loop_state),
    Wavenet.inference tanh sigmoid SDML CS enc dec w cond_features
      use_logistic_mix teacher mu_quantization false p length audio_hz
      1 cond_channels = Ok (audio, st) /\
    List.length audio = length * audio_hz + 1.
Proof.
  intros Hwf _ Hhead Hfresh _ _ Hc Hteacher.
  destruct (inference_ok tanh sigmoid SDML CS enc dec w cond_features
              use_logistic_mix teacher mu_quantization p length audio_hz
              1 cond_channels
              (Wavenet.mk_session cond_features (length * audio_hz) 1)
              Hwf Hhead Hfresh)
    as (audio & st & Hinf & Hla & _).
  - unfold Wavenet.inference_init. now rewrite Hc.
  - reflexivity.
  - exact Hteacher.
  - intros E. congruence.
  - exists audio, st. split; [exact Hinf|exact Hla].
Qed.

(** ** Caches that are as good as none *)















(** ** What [__init__] builds is well formed *)

Lemma init_well_formed {sample : Type}
    (n_layers : nat) (max_dilation : Z) (n_residual_channels : nat)
    (use_dilate_bias use_res_out_conv use_res_out_bias : bool)
    (res_block_gain : Qc) (use_skip_out : bool) (n_skip_channels : nat)
    (use_skip_bias : bool) (n_skip_to_out_channels n_out_channels : nat)
    (use_conditioning same_cond_each_resblock : bool) (n_cond_channels : nat)
    (use_cond_conv use_cond_bias use_cond_act : bool) (upsamp_scale : nat)
    (upsample_by_copy : bool) (p : @Wavenet.params sample)
    (w : @Wavenet.t sample) :
  Wavenet.init n_layers max_dilation n_residual_channels use_dilate_bias
    use_res_out_conv use_res_out_bias res_block_gain use_skip_out
    n_skip_channels use_skip_bias n_skip_to_out_channels n_out_channels
    use_conditioning same_cond_each_resblock n_cond_channels use_cond_conv
    use_cond_bias use_cond_act upsamp_scale upsample_by_copy p = Ok w ->
  (use_skip_out = true -> 1 <= n_layers) ->
  well_formed w /\ fresh w.
Proof.
  intros H Hn. init_returned H. injection H as <-.
  unfold well_formed, fresh.
  cbn [Wavenet.dilate_layers Wavenet.n_layers Wavenet.res_layers
       Wavenet.skip_layers Wavenet.cond_layers Wavenet.conv_out
       Wavenet.conv_end Wavenet.use_skip_out].
  assert (Hpw : forall i b a (wb : Conv1d.weight * list Qc),
            pointwise_layer (Conv_init i 1 1 1 b false a (fst wb) (snd wb))).
  { intros. unfold pointwise_layer, Conv_init. cbn. repeat split; lia. }
  split; [|apply Forall_forall; intros c Hc; apply in_map_iff in Hc;
           now destruct Hc as (i & <- & _)].
  split; [now rewrite length_map, length_seq|].
  split.
  { apply Forall_forall. intros c Hc. apply in_map_iff in Hc.
    destruct Hc as (i & <- & _). unfold dilated_layer, Conv_init. cbn.
    repeat split.
    assert (2 ^ (i mod (Z.to_nat (Z.log2 max_dilation) + 1)) <> 0)
      by (apply Nat.pow_nonzero; lia).
    lia. }
  split.
  { apply Forall_forall. intros c Hc. apply in_map_iff in Hc.
    destruct Hc as (i & <- & _). apply Hpw. }
  split.
  { apply Forall_forall. intros c Hc.
    destruct use_skip_out; [|destruct Hc].
    apply in_map_iff in Hc. destruct Hc as (i & <- & _). apply Hpw. }
  split; [apply Hpw|].
  split; [apply (Hpw _ _ _ (Wavenet.p_out p, []))|].
  split; [apply (Hpw _ _ _ (Wavenet.p_end p, []))|].
  intros Hs. split; [|now apply Hn].
  now rewrite Hs, length_map, length_seq.
Qed.

(** With the skip output, and a weight of [n_out_channels] output
    channels for its last layer, as torch makes it, the network has the
    head [inference] needs. *)
Lemma init_logits_head {sample : Type}
    (n_layers : nat) (max_dilation : Z) (n_residual_channels : nat)
    (use_dilate_bias use_res_out_conv use_res_out_bias : bool)
    (res_block_gain : Qc) (n_skip_channels : nat)
    (use_skip_bias : bool) (n_skip_to_out_channels n_out_channels : nat)
    (use_conditioning same_cond_each_resblock : bool) (n_cond_channels : nat)
    (use_cond_conv use_cond_bias use_cond_act : bool) (upsamp_scale : nat)
    (upsample_by_copy : bool) (p : @Wavenet.params sample)
    (w : @Wavenet.t sample) :
  Wavenet.init n_layers max_dilation n_residual_channels use_dilate_bias
    use_res_out_conv use_res_out_bias res_block_gain true
    n_skip_channels use_skip_bias n_skip_to_out_channels n_out_channels
    use_conditioning same_cond_each_resblock n_cond_channels use_cond_conv
    use_cond_bias use_cond_act upsamp_scale upsample_by_copy p = Ok w ->
  length (Wavenet.p_end p) = n_out_channels ->
  logits_head w.
Proof.
  intros H Hn. init_returned H. injection H as <-.
  split; [reflexivity|exact Hn].
Qed.

Lemma tiny_net_init (use_conditioning : bool) :
  Wavenet.init 2 2 1 false false false (qz 1) true 1 false 1 2
    use_conditioning true 2 false false false 1 true tiny_params =
  Ok (tiny_net use_conditioning).
Proof. reflexivity. Qed.

Lemma tiny_net_well_formed (use_conditioning : bool) :
  well_formed (tiny_net use_conditioning) /\ fresh (tiny_net use_conditioning).
Proof.
  apply (init_well_formed _ _ _ _ _ _ _ _ _ _ _ _ _ _ _ _ _ _ _ _ _ _
           (tiny_net_init use_conditioning)).
  intros _. lia.
Qed.

Lemma tiny_net_logits_head (use_conditioning : bool) :
  logits_head (tiny_net use_conditioning).
Proof.
  apply (init_logits_head _ _ _ _ _ _ _ _ _ _ _ _ _ _ _ _ _ _ _ _ _
           (tiny_net_init use_conditioning)).
  reflexivity.
Qed.

Lemma tiny_net_channels_fit (use_conditioning : bool) :
  channels_fit (tiny_net use_conditioning).
Proof.
  unfold channels_fit. cbn.
  split; [lia|]. split; [lia|]. split; [repeat constructor|].
  split; [constructor|]. split; [|discriminate].
  intros _. exists 1, 1. repeat constructor.
Qed.

Lemma tiny_net_onehot (use_conditioning : bool) :
  onehot_input (tiny_net use_conditioning) tiny_embedding.
Proof.
  split; [reflexivity|]. repeat constructor.
Qed.

Lemma sampler_stub_class (l : list Qc) :
  class_of tiny_embedding (sampler_stub l).
Proof.
  unfold class_of.
  change (Z.of_nat (length (QuantizedInputLayer.embed tiny_embedding)))
    with 4%Z.
  unfold sampler_stub.
  destruct (Qclt_le_dec (Q2Qc (3 # 5)) (hd 0%Qc l)); lia.
Qed.

Lemma tiny_class_inputs (teacher : option (list (list Z))) :
  match teacher with
  | Some buf => classes_of tiny_embedding buf
  | None => True
  end ->
  class_inputs tiny_embedding sampler_stub encode_stub teacher.
Proof.
  intros H. split; [unfold class_of; vm_compute; split; congruence|].
  split; [exact sampler_stub_class|exact H].
Qed.

(** Inputs of the small network: class indices below 4, one batch
    element. *)
Ltac tiny_input_fits :=
  unfold input_fits, columns_batch; cbn;
  split; [lia|]; split; repeat constructor.

Ltac tiny_classes :=
  unfold classes_of; cbn; repeat constructor; lia.

(** ** The theorems at concrete inputs *)




Lemma teacher_then_generated_witness :
  well_formed (tiny_net false) /\ channels_fit (tiny_net false) /\
  logits_head (tiny_net false) /\ fresh (tiny_net false) /\
  onehot_input (tiny_net false) tiny_embedding /\
  class_inputs tiny_embedding sampler_stub encode_stub
    (Some [[3%Z]; [0%Z]]) /\
  columns_batch 1 [[3%Z]; [0%Z]] /\
  cond_ready (tiny_net false) None 1 (5 - 1) /\
  length [[3%Z]; [0%Z]] < 5 /\
  (* a teacher step: pass 1 is fed class 0, the teacher sample, and not
     the class the sampler put at index 1 of the output-audio buffer *)
  (exists (st st' : @Wavenet.loop_state Z) (y y1 : list Qc),
     Wavenet.inference_loop tanh_q sigmoid_q sampler_stub sampler_stub
       false false (Q2Qc (1 # 2)) (Some [[3%Z]; [0%Z]]) None (seq 0 1)
       (Wavenet.initial_state encode_stub (tiny_net false)
          (Wavenet.mk_session None 5 1)) = Ok st /\
     Wavenet.inference_loop tanh_q sigmoid_q sampler_stub sampler_stub
       false false (Q2Qc (1 # 2)) (Some [[3%Z]; [0%Z]]) None
       (seq 0 (1 + 1))
       (Wavenet.initial_state encode_stub (tiny_net false)
          (Wavenet.mk_session None 5 1)) = Ok st' /\
     Wavenet.infer_step tanh_q sigmoid_q (Wavenet.net st) None [0%Z] =
       Ok ([y], Wavenet.net st') /\
     nth_error (Wavenet.logits st') (1 + 1) = Some y /\
     nth_error (Wavenet.output_audio st) 1 = Some [sampler_stub y1] /\
     sampler_stub y1 <> 0%Z) /\
  (* a generated step: pass 3 is fed what the sampler drew from the
     logits of pass 2 *)
  exists (st st' : @Wavenet.loop_state Z) (v : list Z) (y : list Qc),
    Wavenet.inference_loop tanh_q sigmoid_q sampler_stub sampler_stub false
      false (Q2Qc (1 # 2)) (Some [[3%Z]; [0%Z]]) None (seq 0 3)
      (Wavenet.initial_state encode_stub (tiny_net false)
         (Wavenet.mk_session None 5 1)) = Ok st /\
    Wavenet.inference_loop tanh_q sigmoid_q sampler_stub sampler_stub false
      false (Q2Qc (1 # 2)) (Some [[3%Z]; [0%Z]]) None (seq 0 (3 + 1))
      (Wavenet.initial_state encode_stub (tiny_net false)
         (Wavenet.mk_session None 5 1)) = Ok st' /\
    Wavenet.infer_step tanh_q sigmoid_q (Wavenet.net st) None v =
      Ok ([y], Wavenet.net st') /\
    nth_error (Wavenet.logits st') (3 + 1) = Some y /\
    nth_error (Wavenet.output_audio st) 3 = Some v /\
    exists y0 : list Qc,
      nth_error (Wavenet.logits st) 3 = Some y0 /\ v = [sampler_stub y0].
Proof.
  destruct (tiny_net_well_formed false) as [Hwf Hfresh].
  pose proof (tiny_net_logits_head false) as Hhead.
  pose proof (tiny_net_channels_fit false) as Hfit.
  pose proof (tiny_net_onehot false) as Hhot.
  assert (Hcl : class_inputs tiny_embedding sampler_stub encode_stub
                  (Some [[3%Z]; [0%Z]]))
    by (apply tiny_class_inputs; tiny_classes).
  assert (Ht : columns_batch 1 [[3%Z]; [0%Z]]) by (repeat constructor).
  assert (Hc : cond_ready (tiny_net false)
                 (Wavenet.s_cond (Wavenet.mk_session None 5 1)) 1
                 (Wavenet.s_length (Wavenet.mk_session None 5 1) - 1))
    by (intros H; discriminate H).
  assert (Hnone : forall (w : @Wavenet.t Z) (s : nat) (c : option frame),
            Wavenet.cond_sample_at w None s = Ok c -> c = None).
  { intros w s c H. unfold Wavenet.cond_sample_at in H.
    destruct (Wavenet.use_conditioning w); [discriminate H|].
    now injection H as <-. }
  split; [exact Hwf|]. split; [exact Hfit|]. split; [exact Hhead|].
  split; [exact Hfresh|]. split; [exact Hhot|]. split; [exact Hcl|].
  split; [exact Ht|]. split; [exact Hc|].
  split; [simpl; lia|]. split.
  - destruct (teacher_then_generated tanh_q sigmoid_q sampler_stub
                sampler_stub encode_stub (tiny_net false) tiny_embedding
                (Wavenet.mk_session None 5 1)
                false (Q2Qc (1 # 2)) [[3%Z]; [0%Z]] 1 Hwf Hfit Hhead Hfresh
                Hhot Hcl eq_refl Ht Hc)
      as (st & st' & v & c & y & Hl & _ & Hl' & _ & Hc' & Hy & Hlog & _
          & Hbuf & Hteach & _);
      [simpl; lia|simpl; lia|].
    cbn [Wavenet.s_cond] in Hc'. rewrite (Hnone _ _ _ Hc') in Hy.
    assert (Ev : v = [0%Z]).
    { assert (H : Some [0%Z] = Some v) by (apply Hteach; simpl; lia).
      now injection H as <-. }
    subst v.
    destruct (Hbuf 1) as (y1 & _ & Hy1); [lia|].
    exists st, st', y, y1. split; [exact Hl|]. split; [exact Hl'|].
    split; [exact Hy|]. split; [exact Hlog|]. split; [exact Hy1|].
    unfold sampler_stub.
    destruct (Qclt_le_dec (Q2Qc (3 # 5)) (hd 0%Qc y1)); discriminate.
  - destruct (teacher_then_generated tanh_q sigmoid_q sampler_stub
                sampler_stub encode_stub (tiny_net false) tiny_embedding
                (Wavenet.mk_session None 5 1)
                false (Q2Qc (1 # 2)) [[3%Z]; [0%Z]] 3 Hwf Hfit Hhead Hfresh
                Hhot Hcl eq_refl Ht Hc)
      as (st & st' & v & c & y & Hl & _ & Hl' & _ & Hc' & Hy & Hlog & _
          & _ & _ & Hgen);
      [simpl; lia|simpl; lia|].
    cbn [Wavenet.s_cond] in Hc'. rewrite (Hnone _ _ _ Hc') in Hy.
    destruct Hgen as (Hn & Hy0 & _); [simpl; lia|].
    exists st, st', v, y. split; [exact Hl|]. split; [exact Hl'|].
    split; [exact Hy|]. split; [exact Hlog|].
    split; [exact Hn|]. apply Hy0. lia.
Defined.

Lemma unconditional_generation_witness :
  well_formed (tiny_net true) /\ channels_fit (tiny_net true) /\
  logits_head (tiny_net true) /\ fresh (tiny_net true) /\
  onehot_input (tiny_net true) tiny_embedding /\
  class_inputs tiny_embedding sampler_stub encode_stub None /\
  Wavenet.use_conditioning (tiny_net true) = true /\
  Wavenet.use_cond_conv (tiny_net true) =
    negb (Wavenet.same_cond_each_resblock (tiny_net true)) /\
  0 < 1 /\ 0 < 2 /\ cond_channels_fit (tiny_net true) 2 /\
  Wavenet.inference_init (tiny_net true) None 100 1 1 2 =
    Ok (Wavenet.mk_session (Some (repeat (zero_frame 1 2) 100)) 100 1) /\
  (exists (audio : list (list Qc)) (st : @Wavenet.loop_state Z),
     tiny_inference (tiny_net true) None None false 100 1 1 2 =
       Ok (audio, st) /\
     length audio = 101 /\ columns_batch 1 audio) /\
  (exists (st st' : @Wavenet.loop_state Z) (v : list Z) (y : list Qc),
     Wavenet.inference_loop tanh_q sigmoid_q sampler_stub sampler_stub
       false false (Q2Qc (1 # 2)) None
       (Some (repeat (zero_frame 1 2) 100)) (seq 0 98)
       (Wavenet.initial_state encode_stub (tiny_net true)
          (Wavenet.mk_session (Some (repeat (zero_frame 1 2) 100)) 100 1)) =
       Ok st /\
     Wavenet.infer_step tanh_q sigmoid_q (Wavenet.net st)
       (Some (zero_frame 1 2)) v = Ok ([y], Wavenet.net st')) /\
  tiny_inference (tiny_net true) None None false 100 1 2 2 =
    Raise RuntimeError.
Proof.
  destruct (tiny_net_well_formed true) as [Hwf Hfresh].
  pose proof (tiny_net_logits_head true) as Hhead.
  pose proof (tiny_net_channels_fit true) as Hfit.
  pose proof (tiny_net_onehot true) as Hhot.
  pose proof (tiny_class_inputs None I) as Hcl.
  split; [exact Hwf|]. split; [exact Hfit|]. split; [exact Hhead|].
  split; [exact Hfresh|]. split; [exact Hhot|]. split; [exact Hcl|].
  split; [reflexivity|]. split; [reflexivity|].
  split; [lia|]. split; [lia|]. split; [reflexivity|].
  destruct (unconditional_generation tanh_q sigmoid_q sampler_stub
              sampler_stub encode_stub decode_stub (tiny_net true)
              tiny_embedding false
              None 256 (Q2Qc (1 # 2)) 1 1 2 Hwf Hfit Hhead Hfresh Hhot Hcl
              eq_refl eq_refl I ltac:(lia) ltac:(lia) eq_refl)
    as (cf & Hinit & _ & Hz & Hone & _).
  destruct (unconditional_generation tanh_q sigmoid_q sampler_stub
              sampler_stub encode_stub decode_stub (tiny_net true)
              tiny_embedding false
              None 256 (Q2Qc (1 # 2)) 1 2 2 Hwf Hfit Hhead Hfresh Hhot Hcl
              eq_refl eq_refl I ltac:(lia) ltac:(lia) eq_refl)
    as (_ & _ & _ & _ & _ & Htwo).
  cbn [tiny_net Wavenet.use_cond_conv] in Hz. subst cf.
  destruct (Hone eq_refl) as [Hrun Hfed].
  split; [exact Hinit|]. split; [exact Hrun|]. split.
  - destruct (Hfed 98) as (st & st' & v & y & Hl & _ & Hy & Hzf); [lia|].
    exists st, st', v, y. split; [exact Hl|].
    rewrite (Hzf eq_refl) in Hy. exact Hy.
  - apply Htwo. discriminate.
Defined.

(** C6, the claim as stated fails: with batch_size = 2 and
    cond_channels = 0 the call on a network with conditioning raises
    AssertionError; and with two conditioning channels, which the small
    network takes, batch_size = 2 raises RuntimeError. *)
Lemma unconditional_batch_two_raises :
  Wavenet.use_conditioning (tiny_net true) = true /\
  tiny_inference (tiny_net true) None None false 100 1 2 0 =
    Raise AssertionError /\
  tiny_inference (tiny_net true) None None false 100 1 2 2 =
    Raise RuntimeError.
Proof.
  split; [reflexivity|]. split.
  - apply inference_zero_channels_asserts. reflexivity.
  - vm_compute. reflexivity.
Qed.

Lemma randomize_input_raises_witness :
  Wavenet.inference_init (tiny_net false) None 3 1 1 0 =
    Ok (Wavenet.mk_session None 3 1) /\
  2 <= 3 /\
  Wavenet.cond_sample_at (tiny_net false) None 0 = Ok None /\
  tiny_inference (tiny_net false) None None true 3 1 1 0 = Raise TypeError.
Proof.
  split; [reflexivity|]. split; [lia|]. split; [reflexivity|].
  apply (randomize_input_raises tanh_q sigmoid_q sampler_stub sampler_stub
           encode_stub decode_stub (tiny_net false) None false None 256
           (Q2Qc (1 # 2)) 3 1 1 0 (Wavenet.mk_session None 3 1) None);
    [reflexivity|simpl; lia|reflexivity].
Defined.



Lemma inference_without_conditioning_witness :
  well_formed (tiny_net false) /\ channels_fit (tiny_net false) /\
  logits_head (tiny_net false) /\ fresh (tiny_net false) /\
  onehot_input (tiny_net false) tiny_embedding /\
  class_inputs tiny_embedding sampler_stub encode_stub None /\
  Wavenet.use_conditioning (tiny_net false) = false /\
  exists (audio : list (list Qc)) (st : @Wavenet.loop_state Z),
    tiny_inference (tiny_net false) None None false 3 2 1 0 =
      Ok (audio, st) /\
    length audio = 3 * 2 + 1.
Proof.
  destruct (tiny_net_well_formed false) as [Hwf Hfresh].
  pose proof (tiny_net_logits_head false) as Hhead.
  pose proof (tiny_net_channels_fit false) as Hfit.
  pose proof (tiny_net_onehot false) as Hhot.
  pose proof (tiny_class_inputs None I) as Hcl.
  split; [exact Hwf|]. split; [exact Hfit|]. split; [exact Hhead|].
  split; [exact Hfresh|]. split; [exact Hhot|]. split; [exact Hcl|].
  split; [reflexivity|].
  exact (inference_without_conditioning tanh_q sigmoid_q sampler_stub
           sampler_stub encode_stub decode_stub (tiny_net false)
           tiny_embedding None false
           None 256 (Q2Qc (1 # 2)) 3 2 0 Hwf Hfit Hhead Hfresh Hhot Hcl
           eq_refl I).
Defined.

(** * Further properties of the code *)

(** ** Upsampling by repetition *)

Lemma upsample_length (upscale : nat) (X : signal) :
  length (UpsampleByRepetition.forward upscale X) = upscale * length X.
Proof.
  unfold UpsampleByRepetition.forward.
  induction X as [|f X IH]; simpl; [lia|].
  rewrite length_app, repeat_length, IH. lia.
Qed.

(** [UpsampleByRepetition.forward]: the result has [upscale] times the
    time steps of the input, which is what the second assertion of the
    method checks, and its time slice [t] is the slice [t / upscale] of
    the input. *)
Theorem upsample_by_repetition_slices (upscale : nat) (X : signal) :
  length (UpsampleByRepetition.forward upscale X) = upscale * length X /\
  forall t : nat, t < upscale * length X ->
    nth t (UpsampleByRepetition.forward upscale X) [] = nth (t / upscale) X [].
Proof.
  split; [apply upsample_length|].
  unfold UpsampleByRepetition.forward.
  induction X as [|f X IH]; intros t Ht; [simpl in Ht; lia|].
  assert (Hu : upscale <> 0) by (intros E; subst; simpl in Ht; lia).
  cbn [flat_map].
  destruct (Nat.lt_ge_cases t upscale) as [L|L].
  - rewrite app_nth1 by (now rewrite repeat_length).
    rewrite Nat.div_small by exact L. cbn [nth].
    apply nth_repeat_lt. exact L.
  - rewrite app_nth2 by (rewrite repeat_length; exact L).
    rewrite repeat_length.
    replace t with ((t - upscale) + 1 * upscale) at 2 by lia.
    rewrite Nat.div_add by exact Hu.
    replace ((t - upscale) / upscale + 1) with (S ((t - upscale) / upscale))
      by lia.
    cbn [nth]. apply IH. cbn [length] in Ht. lia.
Qed.

Lemma upsample_by_repetition_slices_witness :
  5 < 2 * length ramp4 /\
  length (UpsampleByRepetition.forward 2 ramp4) = 2 * length ramp4 /\
  nth 5 (UpsampleByRepetition.forward 2 ramp4) [] = [[qz 3]].
Proof.
  assert (H : 5 < 2 * length ramp4) by (simpl; lia).
  destruct (upsample_by_repetition_slices 2 ramp4) as [Hl Hn].
  split; [exact H|]. split; [exact Hl|].
  rewrite (Hn 5 H). reflexivity.
Defined.

(** ** The Softsign activation *)

Lemma softsign_denominator_pos (x : Qc) : (0 < 1 + Qcabs x)%Qc.
Proof.
  apply Qclt_le_trans with 1%Qc; [reflexivity|].
  rewrite <- (Qcplus_0_r 1%Qc) at 1.
  apply Qcplus_le_compat; [apply Qcle_refl|apply Qcabs_nonneg].
Qed.

Lemma softsign_bounds (x : Qc) :
  (- (1) < softsign x)%Qc /\ (softsign x < 1)%Qc.
Proof.
  pose proof (softsign_denominator_pos x) as Hd.
  assert (Hne : (1 + Qcabs x)%Qc <> 0%Qc).
  { intros E. rewrite E in Hd. discriminate Hd. }
  unfold softsign. split.
  - destruct (Qclt_le_dec (- (1)) (x / (1 + Qcabs x))) as [H|H]; [exact H|].
    exfalso.
    apply (Qcmult_le_compat_r _ _ (1 + Qcabs x)) in H;
      [|now apply Qclt_le_weak].
    rewrite test_field in H by exact Hne.
    assert (Hx : (- Qcabs x <= x)%Qc)
      by (apply (Qcabs_Qcle_condition x (Qcabs x)), Qcle_refl).
    assert (Hlt : (- (1) * (1 + Qcabs x) < - Qcabs x)%Qc).
    { apply Qclt_minus_iff.
      replace (- Qcabs x + - (- (1) * (1 + Qcabs x)))%Qc with 1%Qc by ring.
      reflexivity. }
    apply (Qcle_not_lt _ _ (Qcle_trans _ _ _ Hx H)). exact Hlt.
  - destruct (Qclt_le_dec (x / (1 + Qcabs x)) 1) as [H|H]; [exact H|].
    exfalso.
    apply (Qcmult_le_compat_r _ _ (1 + Qcabs x)) in H;
      [|now apply Qclt_le_weak].
    rewrite test_field in H by exact Hne.
    assert (Hlt : (Qcabs x < 1 * (1 + Qcabs x))%Qc).
    { apply Qclt_minus_iff.
      replace (1 * (1 + Qcabs x) + - Qcabs x)%Qc with 1%Qc by ring.
      reflexivity. }
    apply (Qcle_not_lt _ _ (Qcle_trans _ _ _ H (Qcle_Qcabs x))). exact Hlt.
Qed.

Lemma softsign_within_unit (x : Qc) : within_unit (softsign x).
Proof.
  destruct (softsign_bounds x) as [Hlo Hhi].
  split; now apply Qclt_le_weak.
Qed.

(** ** The embedding of quantized input *)

(** [QuantizedInputLayer.forward] on the class indices of [b] batch
    elements at T time steps, with a table of [n_out] columns of finite
    entries of which every index is a class: the result is a
    b x n_out x T tensor, and with [use_act] on every entry of it lies
    between -1 and 1, the bounds included. *)
Theorem quantized_input_forward (q : QuantizedInputLayer.t)
    (b n_out : nat) (x : list (list Z)) :
  table_width n_out q -> classes_of q x -> columns_batch b x ->
  length (QuantizedInputLayer.forward q x) = length x /\
  signal_shape b n_out (QuantizedInputLayer.forward q x) /\
  (QuantizedInputLayer.use_act q = true ->
   signal_within_unit (QuantizedInputLayer.forward q x)).
Proof.
  intros Hw Hx Hb.
  unfold QuantizedInputLayer.forward. split; [apply length_map|]. split.
  { apply Forall_forall. intros f Hf. apply in_map_iff in Hf.
    destruct Hf as (col & <- & Hcol). split.
    - unfold QuantizedInputLayer.forward_slice. rewrite length_map.
      unfold columns_batch in Hb. rewrite Forall_forall in Hb.
      now apply Hb.
    - apply Forall_forall. intros row Hrow.
      unfold QuantizedInputLayer.forward_slice in Hrow.
      apply in_map_iff in Hrow. destruct Hrow as (i & <- & Hi).
      unfold classes_of in Hx. rewrite Forall_forall in Hx.
      pose proof (Hx col Hcol) as Hc. rewrite Forall_forall in Hc.
      pose proof (Hc i Hi) as Hr.
      unfold QuantizedInputLayer.forward_entry.
      assert (Hin : In (nth (Z.to_nat i) (QuantizedInputLayer.embed q) [])
                      (QuantizedInputLayer.embed q)) by (apply nth_In; lia).
      unfold table_width in Hw. rewrite Forall_forall in Hw.
      destruct (QuantizedInputLayer.use_act q);
        rewrite ?length_map; now apply Hw. }
  intros Ha. apply Forall_forall. intros f Hf. apply in_map_iff in Hf.
  destruct Hf as (col & <- & _). apply Forall_forall. intros row Hrow.
  unfold QuantizedInputLayer.forward_slice in Hrow.
  apply in_map_iff in Hrow. destruct Hrow as (i & <- & _).
  unfold QuantizedInputLayer.forward_entry. rewrite Ha.
  apply Forall_forall. intros v Hv. apply in_map_iff in Hv.
  destruct Hv as (v0 & <- & _). apply softsign_within_unit.
Qed.

Lemma quantized_input_forward_witness :
  table_width 1 tiny_embedding_act /\
  classes_of tiny_embedding_act [[3%Z; 0%Z]; [1%Z; 2%Z]] /\
  columns_batch 2 [[3%Z; 0%Z]; [1%Z; 2%Z]] /\
  QuantizedInputLayer.forward tiny_embedding_act [[3%Z; 0%Z]; [1%Z; 2%Z]] =
    [[[Q2Qc (3 # 4)]; [qz 0]]; [[Q2Qc (1 # 2)]; [Q2Qc (2 # 3)]]] /\
  signal_shape 2 1
    (QuantizedInputLayer.forward tiny_embedding_act
       [[3%Z; 0%Z]; [1%Z; 2%Z]]).
Proof.
  assert (Hw : table_width 1 tiny_embedding_act)
    by (repeat constructor).
  assert (Hx : classes_of tiny_embedding_act [[3%Z; 0%Z]; [1%Z; 2%Z]])
    by (repeat constructor; simpl; lia).
  assert (Hb : columns_batch 2 [[3%Z; 0%Z]; [1%Z; 2%Z]])
    by (repeat constructor).
  split; [exact Hw|]. split; [exact Hx|]. split; [exact Hb|].
  split; [eq_by_eval|].
  exact (proj1 (proj2 (quantized_input_forward tiny_embedding_act 2 1 _
                         Hw Hx Hb))).
Defined.

(** ** [Conv.forward], any kernel size *)

Lemma conv_forward_causal_taps (c : Conv.t) (s : signal) :
  Conv.is_causal c = true -> 1 <= Conv.kernel_size c ->
  1 <= Conv.stride c -> 1 <= Conv.dilation c -> s <> [] ->
  Conv.forward c s =
    Ok ((if Conv.use_act c then map (frame_map softsign)
         else fun y => y)
         (map (fun j =>
            Conv1d.apply_taps (Conv.conv_weight c) (Conv.conv_bias c)
              (Conv.in_channels c) (Conv.kernel_size c)
              (batch_of
                 (Conv.pad_left
                    ((Conv.kernel_size c - 1) * Conv.dilation c) s))
              (fun k => nth (j * Conv.stride c + k * Conv.dilation c)
                          (Conv.pad_left
                             ((Conv.kernel_size c - 1) * Conv.dilation c) s)
                          []))
            (seq 0 ((length s - 1) / Conv.stride c + 1)))).
Proof.
  intros HC HK HS HD Hs. unfold Conv.forward. rewrite HC.
  set (p := (Conv.kernel_size c - 1) * Conv.dilation c).
  unfold Conv.conv, Conv1d.conv1d.
  replace ((Conv.kernel_size c =? 0) || (Conv.stride c =? 0) ||
           (Conv.dilation c =? 0)) with false.
  2:{ destruct (Nat.eqb_spec (Conv.kernel_size c) 0); [lia|].
      destruct (Nat.eqb_spec (Conv.stride c) 0); [lia|].
      destruct (Nat.eqb_spec (Conv.dilation c) 0); [lia|reflexivity]. }
  cbn [orb].
  assert (Hl : length (Conv.pad_left p s) = p + length s).
  { unfold Conv.pad_left. now rewrite length_app, repeat_length. }
  rewrite Hl.
  assert (0 < length s) by (destruct s; [congruence|simpl; lia]).
  replace (Conv.dilation c * (Conv.kernel_size c - 1)) with p
    by (unfold p; lia).
  destruct (Nat.ltb_spec (p + length s) (p + 1)) as [L|L]; [lia|].
  cbn [bind].
  replace (p + length s - (p + 1)) with (length s - 1) by lia.
  destruct (Conv.use_act c); reflexivity.
Qed.

(** [Conv.forward] on a causal layer of any kernel size, stride and
    dilation (each at least 1): the left padding makes the pass succeed
    on every non-empty input of shape B x in_channels x L, with
    (L - 1) / stride + 1 output steps, so as many as the input has when
    the stride is 1.  With stride 1 the pass is causal: on the first [n]
    steps of the input it gives the first [n] steps of the output, so
    that an output step does not depend on later input. *)
Theorem conv_forward_causal (c : Conv.t) (b : nat) (xs : signal) :
  Conv.is_causal c = true -> 1 <= Conv.kernel_size c ->
  1 <= Conv.stride c -> 1 <= Conv.dilation c -> xs <> [] ->
  signal_shape b (Conv.in_channels c) xs ->
  exists ys : signal,
    Conv.forward c xs = Ok ys /\
    length ys = (length xs - 1) / Conv.stride c + 1 /\
    (Conv.stride c = 1 ->
     length ys = length xs /\
     forall n : nat, 1 <= n ->
       Conv.forward c (firstn n xs) = Ok (firstn n ys)).
Proof.
  intros HC HK HS HD Hne _.
  eexists. split; [apply conv_forward_causal_taps; assumption|].
  split.
  { destruct (Conv.use_act c); now rewrite ?length_map, length_seq. }
  intros HS1.
  assert (0 < length xs) by (destruct xs; [congruence|simpl; lia]).
  split.
  { destruct (Conv.use_act c); rewrite ?length_map, length_seq, HS1,
      Nat.div_1_r; lia. }
  intros n Hn.
  assert (Hne' : firstn n xs <> []).
  { destruct n; [lia|]. destruct xs; [congruence|discriminate]. }
  rewrite (conv_forward_causal_taps c (firstn n xs) HC HK HS HD Hne').
  f_equal.
  assert (Hmap : forall (g : frame -> frame) (l : signal),
            firstn n ((if Conv.use_act c then map g else fun y => y) l) =
            (if Conv.use_act c then map g else fun y => y) (firstn n l)).
  { intros g l. destruct (Conv.use_act c); [apply firstn_map|reflexivity]. }
  rewrite Hmap. f_equal. rewrite firstn_map, firstn_seq_min, length_firstn.
  rewrite HS1, !Nat.div_1_r.
  replace (Nat.min n (length xs) - 1 + 1) with (Nat.min n (length xs))
    by lia.
  replace (Nat.min n (length xs - 1 + 1)) with (Nat.min n (length xs))
    by lia.
  apply map_ext_in. intros j Hj. apply in_seq in Hj.
  set (p := (Conv.kernel_size c - 1) * Conv.dilation c).
  unfold Conv.pad_left.
  rewrite batch_of_firstn, channels_of_firstn by exact Hn.
  set (z := zero_frame (batch_of xs) (channels_of xs)).
  assert (Hb : batch_of (repeat z p ++ firstn n xs) =
               batch_of (repeat z p ++ xs)).
  { destruct p; simpl; [apply batch_of_firstn; exact Hn|reflexivity]. }
  rewrite Hb. apply apply_taps_ext. intros k Hk.
  apply nth_pad_firstn.
  assert (k * Conv.dilation c <= p) by (unfold p; nia).
  lia.
Qed.

Lemma conv_forward_causal_witness :
  Conv.is_causal conv_k3 = true /\ 1 <= Conv.kernel_size conv_k3 /\
  1 <= Conv.stride conv_k3 /\ 1 <= Conv.dilation conv_k3 /\ ramp4 <> [] /\
  signal_shape 1 (Conv.in_channels conv_k3) ramp4 /\
  Conv.forward conv_k3 ramp4 =
    Ok [[[qz 100]]; [[qz 210]]; [[qz 321]]; [[qz 432]]] /\
  Conv.forward conv_k3 (firstn 2 ramp4) = Ok [[[qz 100]]; [[qz 210]]].
Proof.
  assert (Hne : ramp4 <> []) by discriminate.
  assert (H1 : 1 <= Conv.kernel_size conv_k3) by (simpl; lia).
  assert (H2 : 1 <= Conv.stride conv_k3) by (simpl; lia).
  assert (H3 : 1 <= Conv.dilation conv_k3) by (simpl; lia).
  assert (E : Conv.forward conv_k3 ramp4 =
              Ok [[[qz 100]]; [[qz 210]]; [[qz 321]]; [[qz 432]]])
    by eq_by_eval.
  assert (Hsh : signal_shape 1 (Conv.in_channels conv_k3) ramp4)
    by (repeat constructor).
  destruct (conv_forward_causal conv_k3 1 ramp4 eq_refl H1 H2 H3 Hne Hsh)
    as (ys & Hy & _ & Hpre).
  destruct (Hpre eq_refl) as [_ Hpre2].
  split; [reflexivity|]. split; [exact H1|]. split; [exact H2|].
  split; [exact H3|]. split; [exact Hne|]. split; [exact Hsh|].
  split; [exact E|].
  rewrite (Hpre2 2) by lia.
  rewrite E in Hy. injection Hy as <-. reflexivity.
Defined.

(** [Conv.forward] on inputs that are too short.  A layer that is not
    causal does not pad: an input of fewer steps than the kernel spans,
    dilation * (kernel_size - 1) + 1, raises RuntimeError, and a longer
    one (of shape B x in_channels x L) gives
    (L - span) / stride + 1 steps.  A causal layer raises on the empty
    input. *)
Theorem conv_forward_short_input (c : Conv.t) (xs : signal) :
  1 <= Conv.kernel_size c -> 1 <= Conv.stride c -> 1 <= Conv.dilation c ->
  (Conv.is_causal c = true -> Conv.forward c [] = Raise RuntimeError) /\
  (Conv.is_causal c = false ->
   (length xs < Conv.dilation c * (Conv.kernel_size c - 1) + 1 ->
    Conv.forward c xs = Raise RuntimeError) /\
   (Conv.dilation c * (Conv.kernel_size c - 1) + 1 <= length xs ->
    (exists b : nat, signal_shape b (Conv.in_channels c) xs) ->
    exists ys : signal,
      Conv.forward c xs = Ok ys /\
      length ys =
        (length xs - (Conv.dilation c * (Conv.kernel_size c - 1) + 1)) /
        Conv.stride c + 1)).
Proof.
  intros HK HS HD.
  assert (Hz : (Conv.kernel_size c =? 0) || (Conv.stride c =? 0) ||
               (Conv.dilation c =? 0) = false).
  { destruct (Nat.eqb_spec (Conv.kernel_size c) 0); [lia|].
    destruct (Nat.eqb_spec (Conv.stride c) 0); [lia|].
    destruct (Nat.eqb_spec (Conv.dilation c) 0); [lia|reflexivity]. }
  split.
  - intros HC. unfold Conv.forward, Conv.conv, Conv1d.conv1d.
    rewrite HC, Hz. unfold Conv.pad_left.
    rewrite length_app, repeat_length. cbn [length].
    destruct (Nat.ltb_spec
                ((Conv.kernel_size c - 1) * Conv.dilation c + 0)
                (Conv.dilation c * (Conv.kernel_size c - 1) + 1)) as [L|L];
      [reflexivity|lia].
  - intros HC. split.
    + intros Hl. unfold Conv.forward, Conv.conv, Conv1d.conv1d.
      rewrite HC, Hz.
      destruct (Nat.ltb_spec (length xs)
                  (Conv.dilation c * (Conv.kernel_size c - 1) + 1));
        [reflexivity|lia].
    + intros Hl _. unfold Conv.forward, Conv.conv, Conv1d.conv1d.
      rewrite HC, Hz.
      destruct (Nat.ltb_spec (length xs)
                  (Conv.dilation c * (Conv.kernel_size c - 1) + 1)); [lia|].
      cbn [bind]. eexists. split; [reflexivity|].
      destruct (Conv.use_act c); now rewrite ?length_map, length_seq.
Qed.

Lemma conv_forward_short_input_witness :
  1 <= Conv.kernel_size conv_k2_d2_s2 /\ 1 <= Conv.stride conv_k2_d2_s2 /\
  1 <= Conv.dilation conv_k2_d2_s2 /\
  Conv.is_causal conv_k2_d2_s2 = false /\
  Conv.forward conv_k2_d2_s2 (firstn 2 ramp4) = Raise RuntimeError /\
  Conv.forward conv_k2_d2_s2 ramp4 = Ok [[[qz 31]]].
Proof.
  assert (H1 : 1 <= Conv.kernel_size conv_k2_d2_s2) by (simpl; lia).
  assert (H2 : 1 <= Conv.stride conv_k2_d2_s2) by (simpl; lia).
  assert (H3 : 1 <= Conv.dilation conv_k2_d2_s2) by (simpl; lia).
  destruct (conv_forward_short_input conv_k2_d2_s2 (firstn 2 ramp4) H1 H2 H3)
    as [_ Hnc].
  destruct (Hnc eq_refl) as [Hshort _].
  split; [exact H1|]. split; [exact H2|]. split; [exact H3|].
  split; [reflexivity|]. split; [apply Hshort; simpl; lia|].
  eq_by_eval.
Defined.

(** ** The streaming step on a kernel wider than two taps *)

(** [Conv.infer_step] on a causal layer of kernel size 3 or more: the
    window it convolves has two frames only, so the convolution raises
    RuntimeError; by then the cache has been created and the frame pushed
    into it. *)
Theorem infer_step_wide_kernel (c : Conv.t) (x : frame) :
  Conv.is_causal c = true -> 3 <= Conv.kernel_size c ->
  fst (Conv.infer_step c x) = Raise RuntimeError /\
  exists q : list frame,
    Conv.input_memory (snd (Conv.infer_step c x)) = Some q /\
    length q =
      match Conv.input_memory c with
      | Some q0 => length q0
      | None => Conv.dilation c
      end /\
    (q <> [] -> hd [] q = x).
Proof.
  intros HC HK. unfold Conv.infer_step. rewrite HC.
  destruct (Nat.eqb_spec (Conv.kernel_size c) 1) as [E|_]; [lia|].
  set (c1 := match Conv.input_memory c with
             | Some _ => c
             | None => Conv.init_input_memory c x
             end).
  assert (E1 : exists q0, Conv.input_memory c1 = Some q0 /\
                 length q0 = match Conv.input_memory c with
                             | Some q0 => length q0
                             | None => Conv.dilation c
                             end /\
                 Conv.kernel_size c1 = Conv.kernel_size c).
  { unfold c1. destruct (Conv.input_memory c) as [q0|] eqn:E.
    - exists q0. repeat split. exact E.
    - eexists. split; [reflexivity|]. split; [apply repeat_length|].
      reflexivity. }
  destruct E1 as (q0 & Eq0 & Hl0 & EK). rewrite Eq0.
  destruct (@exists_last _ (x :: q0)) as (q & x0 & Eq); [discriminate|].
  rewrite Eq, pop_snoc.
  cbn [fst snd Conv.set_input_memory Conv.input_memory Conv.conv_weight
       Conv.conv_bias Conv.in_channels Conv.kernel_size].
  rewrite EK. unfold Conv1d.conv1d.
  replace ((Conv.kernel_size c =? 0) || (1 =? 0) || (1 =? 0)) with false
    by (destruct (Nat.eqb_spec (Conv.kernel_size c) 0); [lia|reflexivity]).
  cbn [length].
  destruct (Nat.ltb_spec 2 (1 * (Conv.kernel_size c - 1) + 1)) as [L|L];
    [|lia].
  split; [reflexivity|]. exists q. split; [reflexivity|].
  assert (Hlen : length (x :: q0) = length (q ++ [x0])) by now rewrite Eq.
  rewrite length_app in Hlen. simpl in Hlen. split; [lia|].
  intros Hq. destruct q as [|y q]; [congruence|].
  simpl in Eq. injection Eq as <- _. reflexivity.
Qed.

Lemma infer_step_wide_kernel_witness :
  Conv.is_causal conv_k3 = true /\ 3 <= Conv.kernel_size conv_k3 /\
  Conv.infer_step conv_k3 [[qz 7]] =
    (Raise RuntimeError, Conv.set_input_memory conv_k3 (Some [[[qz 7]]])).
Proof.
  assert (HK : 3 <= Conv.kernel_size conv_k3) by (simpl; lia).
  destruct (infer_step_wide_kernel conv_k3 [[qz 7]] eq_refl HK) as [H _].
  split; [reflexivity|]. split; [exact HK|].
  rewrite (surjective_pairing (Conv.infer_step conv_k3 [[qz 7]])), H.
  reflexivity.
Defined.

(** ** What [__init__] builds *)

Lemma pow2_le_of_log2 (M : Z) (k : nat) :
  (1 <= M)%Z -> k <= Z.to_nat (Z.log2 M) -> (Z.of_nat (2 ^ k) <= M)%Z.
Proof.
  intros HM Hk.
  destruct (Z.log2_spec M) as [Hlo _]; [lia|].
  apply Z.le_trans with (2 ^ Z.log2 M)%Z; [|exact Hlo].
  pose proof (Z.log2_nonneg M) as Hnn.
  rewrite Nat2Z.inj_pow. change (Z.of_nat 2) with 2%Z.
  apply Z.pow_le_mono_r; lia.
Qed.

Lemma filter_below_length (b : bool) (n : nat) :
  length (filter (fun i => b && (i <? n - 1)) (seq 0 n)) =
  if b then n - 1 else 0.
Proof.
  destruct b; cbn [andb].
  - destruct n as [|n]; [reflexivity|].
    replace (S n - 1) with n by lia.
    rewrite seq_S, filter_app, length_app. cbn [filter Nat.add].
    rewrite Nat.ltb_irrefl. cbn [length].
    rewrite forallb_filter_id; [rewrite length_seq; lia|].
    apply forallb_forall. intros i Hi. apply in_seq in Hi.
    apply Nat.ltb_lt. lia.
  - induction (seq 0 n) as [|a l IH]; [reflexivity|exact IH].
Qed.

(** What [Wavenet.__init__] has built when it returns, for
    [max_dilation] below 2^32 (where the double-precision logarithm has
    the exact integer part): [max_dilation] was positive (the logarithm
    raises ValueError otherwise); there are [n_layers] dilated layers,
    each causal with two taps, stride 1, a dilation between 1 and
    [max_dilation], no activation and no cache;
    one residual projection for every block but the last when
    [use_res_out_conv] is on, none otherwise; and one skip projection per
    block when [use_skip_out] is on. *)
Theorem init_layers {sample : Type}
    (n_layers : nat) (max_dilation : Z) (n_residual_channels : nat)
    (use_dilate_bias use_res_out_conv use_res_out_bias : bool)
    (res_block_gain : Qc) (use_skip_out : bool) (n_skip_channels : nat)
    (use_skip_bias : bool) (n_skip_to_out_channels n_out_channels : nat)
    (use_conditioning same_cond_each_resblock : bool) (n_cond_channels : nat)
    (use_cond_conv use_cond_bias use_cond_act : bool) (upsamp_scale : nat)
    (upsample_by_copy : bool) (p : @Wavenet.params sample)
    (w : @Wavenet.t sample) :
  (max_dilation < 2 ^ 32)%Z ->
  Wavenet.init n_layers max_dilation n_residual_channels use_dilate_bias
    use_res_out_conv use_res_out_bias res_block_gain use_skip_out
    n_skip_channels use_skip_bias n_skip_to_out_channels n_out_channels
    use_conditioning same_cond_each_resblock n_cond_channels use_cond_conv
    use_cond_bias use_cond_act upsamp_scale upsample_by_copy p = Ok w ->
  (1 <= max_dilation)%Z /\
  length (Wavenet.dilate_layers w) = n_layers /\
  Forall (built_dilated max_dilation) (Wavenet.dilate_layers w) /\
  length (Wavenet.res_layers w) =
    (if use_res_out_conv then n_layers - 1 else 0) /\
  length (Wavenet.skip_layers w) = (if use_skip_out then n_layers else 0).
Proof.
  intros _ H. init_returned H. injection H as <-.
  cbn [Wavenet.dilate_layers Wavenet.res_layers Wavenet.skip_layers].
  split; [lia|].
  split; [now rewrite length_map, length_seq|]. split.
  { apply Forall_forall. intros c Hc. apply in_map_iff in Hc.
    destruct Hc as (i & <- & _).
    set (lf := Z.to_nat (Z.log2 max_dilation) + 1).
    assert (Hlt : i mod lf < lf) by (apply Nat.mod_upper_bound; lia).
    assert (Hnz : 2 ^ (i mod lf) <> 0) by (apply Nat.pow_nonzero; lia).
    unfold built_dilated, dilated_layer, Conv_init. cbn.
    repeat split; try lia.
    apply pow2_le_of_log2; lia. }
  split.
  { rewrite length_map. apply filter_below_length. }
  destruct use_skip_out; [now rewrite length_map, length_seq|reflexivity].
Qed.

Lemma init_layers_witness :
  (5 < 2 ^ 32)%Z /\
  exists w : @Wavenet.t Z,
    Wavenet.init 7 5 1 false true false (qz 1) true 1 false 1 1
      false true 2 false false false 1 true tiny_params = Ok w /\
    map Conv.dilation (Wavenet.dilate_layers w) = [1; 2; 4; 1; 2; 4; 1] /\
    Forall (built_dilated 5) (Wavenet.dilate_layers w) /\
    length (Wavenet.res_layers w) = 6 /\
    length (Wavenet.skip_layers w) = 7.
Proof.
  split; [lia|].
  eexists. split; [reflexivity|]. split; [reflexivity|].
  destruct (init_layers 7 5 1 false true false (qz 1) true 1 false 1 1
              false true 2 false false false 1 true tiny_params _
              ltac:(lia) eq_refl)
    as (_ & _ & Hd & Hr & Hs).
  split; [exact Hd|]. split; [exact Hr|exact Hs].
Defined.

(** ** What [Wavenet.forward] rejects *)

(** [Wavenet.forward] with conditioning: features that, once upsampled,
    have fewer time steps than the audio input fail the assertion of
    line 281.  And on an audio input without time steps a network of at
    least one block raises RuntimeError: no convolution takes an empty
    tensor. *)
Theorem forward_rejects {sample : Type} (tanh sigmoid : Qc -> Qc)
    (w : @Wavenet.t sample) (features : signal) (xs : list (list sample))
    (training : bool) (m : Wavenet.masks) :
  (Wavenet.use_conditioning w = true ->
   length (upsampled w features) < length xs ->
   Wavenet.forward tanh sigmoid w features xs training m =
     Raise AssertionError) /\
  (well_formed w -> 1 <= Wavenet.n_layers w ->
   Wavenet.forward tanh sigmoid w features [] training m =
     Raise RuntimeError).
Proof.
  split.
  - intros HC HL. unfold Wavenet.forward, Wavenet.forward_raw.
    rewrite HC. unfold Wavenet.cond_for_forward.
    unfold upsampled in HL.
    apply Nat.ltb_lt in HL. cbv zeta. rewrite HL. reflexivity.
  - intros HW HN.
    destruct HW as (Hlen & Hdil & _ & _ & Hcond & _).
    assert (Hempty : forall c, dilated_layer c \/ pointwise_layer c ->
              Conv.forward c [] = Raise RuntimeError).
    { intros c Hc. unfold Conv.forward, Conv.conv, Conv1d.conv1d.
      assert (HK : 1 <= Conv.kernel_size c /\ 1 <= Conv.stride c /\
                   1 <= Conv.dilation c).
      { unfold dilated_layer, pointwise_layer in Hc.
        destruct Hc as [(H1 & _ & H2 & H3)|(H1 & H2 & H3)];
          rewrite H1, H2; repeat split; try exact H3; lia. }
      replace ((Conv.kernel_size c =? 0) || (Conv.stride c =? 0) ||
               (Conv.dilation c =? 0)) with false.
      2:{ destruct (Nat.eqb_spec (Conv.kernel_size c) 0); [lia|].
          destruct (Nat.eqb_spec (Conv.stride c) 0); [lia|].
          destruct (Nat.eqb_spec (Conv.dilation c) 0); [lia|reflexivity]. }
      destruct (Conv.is_causal c).
      - unfold Conv.pad_left. rewrite length_app, repeat_length.
        cbn [length].
        destruct (Nat.ltb_spec
                    ((Conv.kernel_size c - 1) * Conv.dilation c + 0)
                    (Conv.dilation c * (Conv.kernel_size c - 1) + 1));
          [reflexivity|lia].
      - cbn [length].
        replace (0 <? Conv.dilation c * (Conv.kernel_size c - 1) + 1)
          with true
          by (symmetry; apply Nat.ltb_lt; rewrite Nat.add_1_r;
              apply Nat.lt_0_succ).
        reflexivity. }
    unfold Wavenet.forward, Wavenet.forward_raw. cbn [length map].
    assert (Hblocks : forall cond,
              Wavenet.forward_blocks tanh sigmoid w training m cond
                (seq 0 (Wavenet.n_layers w)) [] None = Raise RuntimeError).
    { intros cond. destruct (Wavenet.n_layers w) as [|n] eqn:En; [lia|].
      cbn [seq Wavenet.forward_blocks]. unfold Wavenet.forward_block.
      destruct (layer_at_some (Wavenet.dilate_layers w)
                  dilated_layer 0 Hdil) as (c & Hc & Hd); [lia|].
      rewrite Hc. cbn [bind].
      replace (if training then dropout (Wavenet.drop_res m 0) []
               else []) with (@nil frame) by (now destruct training).
      rewrite (Hempty c (or_introl Hd)). reflexivity. }
    destruct (Wavenet.use_conditioning w).
    + unfold Wavenet.cond_for_forward.
      set (u := if Wavenet.upscale w =? 1 then features
                else Wavenet.upsample w features).
      replace (length u <? 0) with false by (now destruct (length u)).
      replace (if 0 <? length u then firstn 0 u else u) with (@nil frame)
        by (now destruct u).
      destruct (Wavenet.use_cond_conv w).
      * rewrite (Hempty _ (or_intror Hcond)). reflexivity.
      * cbn [bind]. rewrite Hblocks. reflexivity.
    + cbn [bind]. rewrite Hblocks. reflexivity.
Qed.

Lemma forward_rejects_witness :
  Wavenet.use_conditioning (tiny_net true) = true /\
  length (upsampled (tiny_net true) [zero_frame 1 2]) <
    length [[1%Z]; [2%Z]] /\
  Wavenet.forward tanh_q sigmoid_q (tiny_net true) [zero_frame 1 2]
    [[1%Z]; [2%Z]] false no_masks = Raise AssertionError /\
  well_formed (tiny_net true) /\ 1 <= Wavenet.n_layers (tiny_net true) /\
  Wavenet.forward tanh_q sigmoid_q (tiny_net true) [zero_frame 1 2] []
    false no_masks = Raise RuntimeError.
Proof.
  assert (HL : length (upsampled (tiny_net true) [zero_frame 1 2]) <
               length [[1%Z]; [2%Z]]) by (simpl; lia).
  assert (HN : 1 <= Wavenet.n_layers (tiny_net true)) by (simpl; lia).
  pose proof (proj1 (tiny_net_well_formed true)) as HW.
  split; [reflexivity|]. split; [exact HL|].
  split.
  { exact (proj1 (forward_rejects tanh_q sigmoid_q (tiny_net true)
                    [zero_frame 1 2] [[1%Z]; [2%Z]] false no_masks)
             eq_refl HL). }
  split; [exact HW|]. split; [exact HN|].
  exact (proj2 (forward_rejects tanh_q sigmoid_q (tiny_net true)
                  [zero_frame 1 2] [[1%Z]; [2%Z]] false no_masks) HW HN).
Defined.

(** ** Streaming through the whole stack *)

Lemma x_at_zero_frame (b c i j : nat) :
  Conv1d.x_at (zero_frame b c) i j = 0%Qc.
Proof.
  unfold Conv1d.x_at, zero_frame.
  destruct (Nat.lt_ge_cases i b) as [L|L].
  - rewrite nth_repeat_lt by exact L. apply nth_repeat.
  - rewrite (nth_overflow (repeat (repeat 0%Qc c) b))
      by (now rewrite repeat_length).
    now destruct j.
Qed.

Lemma apply_taps_ext_at w bias in_ch ksize batch (tap tap' : nat -> frame) :
  (forall k i j, k < ksize ->
     Conv1d.x_at (tap k) i j = Conv1d.x_at (tap' k) i j) ->
  Conv1d.apply_taps w bias in_ch ksize batch tap =
  Conv1d.apply_taps w bias in_ch ksize batch tap'.
Proof.
  intros H. unfold Conv1d.apply_taps.
  apply map_ext. intros i. apply map_ext. intros o. f_equal.
  apply sum_upto_ext. intros c _. apply sum_upto_ext. intros k Hk.
  now rewrite (H k i c Hk).
Qed.

Lemma has_batch_nth (b : nat) (s : signal) (j : nat) :
  has_batch b s -> j < length s -> length (nth j s []) = b.
Proof.
  intros H Hj. unfold has_batch in H. rewrite Forall_forall in H.
  apply H. now apply nth_In.
Qed.

Lemma nth_map_lt {A B} (g : A -> B) (l : list A) (t : nat) (d : A) (e : B) :
  t < length l -> nth t (map g l) e = g (nth t l d).
Proof.
  intros H. rewrite (nth_indep _ e (g d)) by (now rewrite length_map).
  apply map_nth.
Qed.

Lemma nth_zip_with {A B C} (g : A -> B -> C) (t : nat) (da : A) (db : B)
    (dc : C) :
  forall (l : list A) (m : list B),
    t < length l -> t < length m ->
    nth t (zip_with g l m) dc = g (nth t l da) (nth t m db).
Proof.
  induction t as [|t IH]; intros [|a l] [|b m] Hl Hm;
    simpl in *; try lia; [reflexivity|].
  apply IH; lia.
Qed.

(** The batch pass of a dilated layer, frame by frame, whatever the
    width of the frames. *)
Lemma forward_dilated_frames (c : Conv.t) (b : nat) (s : signal) :
  dilated_layer c -> Conv.use_act c = false -> s <> [] -> has_batch b s ->
  Conv.forward c s =
    Ok (map (fun j =>
          window_out c
            (nth j (repeat (zero_frame b (Conv.in_channels c))
                      (Conv.dilation c) ++ s) [])
            (nth j s []))
          (seq 0 (length s))).
Proof.
  intros Hd Ha Hne Hb.
  destruct (conv_forward_taps c (or_introl Hd)) as (p & Hp & Hf).
  rewrite (Hf s Hne), Ha. f_equal.
  destruct Hd as (HK & _ & _ & HD). rewrite HK in Hp.
  replace p with (Conv.dilation c) in * by lia. clear Hp.
  apply map_ext_in. intros j Hj. apply in_seq in Hj.
  rewrite batch_of_pad_left, (batch_of_has_batch b s Hne Hb).
  unfold window_out. rewrite HK.
  set (z := zero_frame b (Conv.in_channels c)).
  assert (Hl : length (nth j (repeat z (Conv.dilation c) ++ s) []) = b).
  { destruct (Nat.lt_ge_cases j (Conv.dilation c)) as [L|L].
    - rewrite app_nth1 by (now rewrite repeat_length).
      rewrite nth_repeat_lt by exact L. unfold z, zero_frame.
      apply repeat_length.
    - rewrite app_nth2 by (now rewrite repeat_length).
      rewrite repeat_length. apply has_batch_nth; [exact Hb|lia]. }
  rewrite Hl. apply apply_taps_ext_at. intros k i ch Hk.
  unfold Conv.pad_left.
  destruct k as [|[|k]]; [| |lia]; cbn [nth].
  - rewrite Nat.mul_1_r, Nat.mul_0_l, Nat.add_0_r.
    destruct (Nat.lt_ge_cases j (Conv.dilation c)) as [L|L].
    + rewrite !app_nth1 by (now rewrite repeat_length).
      rewrite !nth_repeat_lt by exact L. unfold z.
      now rewrite !x_at_zero_frame.
    + rewrite !app_nth2 by (now rewrite repeat_length).
      now rewrite !repeat_length.
  - rewrite Nat.mul_1_r, Nat.mul_1_l.
    rewrite app_nth2 by (rewrite repeat_length; lia).
    rewrite repeat_length. f_equal. f_equal. lia.
Qed.

Lemma set_input_memory_same (c : Conv.t) :
  Conv.set_input_memory c (Conv.input_memory c) = c.
Proof. now destruct c. Qed.

Lemma window_out_set_memory (c : Conv.t) (m : option (list frame))
    (x0 x : frame) :
  window_out (Conv.set_input_memory c m) x0 x = window_out c x0 x.
Proof. reflexivity. Qed.

(** One streaming step of a dilated layer that has been fed the first
    [t] steps of [X]. *)
Lemma stream_layer_step (c : Conv.t) (b t : nat) (X : signal) :
  dilated_layer c -> has_batch b X -> t < length X ->
  Conv.infer_step (layer_state c b t X) (nth t X []) =
    (Ok (Some [window_out c
                 (nth t (repeat (zero_frame b (Conv.in_channels c))
                           (Conv.dilation c) ++ X) [])
                 (nth t X [])]),
     layer_state c b (S t) X).
Proof.
  intros (HK & HC & _ & HD) Hb Ht.
  set (z := zero_frame b (Conv.in_channels c)).
  set (d := Conv.dilation c).
  assert (Hx : length (nth t X []) = b) by (now apply has_batch_nth).
  assert (Hstep :
    Conv.infer_step
      (Conv.set_input_memory c (Some (history_mem d z (firstn t X))))
      (nth t X []) =
    (Ok (Some [window_out c (nth t (repeat z d ++ X) []) (nth t X [])]),
     layer_state c b (S t) X)).
  { rewrite (infer_step_cached _ (nth t X []) z (firstn t X)); try easy.
    rewrite window_out_set_memory.
    rewrite length_firstn, Nat.min_l by lia.
    unfold layer_state.
    cbn [Nat.eqb Conv.dilation Conv.set_input_memory].
    fold z. fold d.
    rewrite <- (firstn_snoc_nth t X []) by exact Ht.
    rewrite nth_pad_firstn by lia.
    reflexivity. }
  destruct t as [|t].
  - unfold layer_state at 1. cbn [Nat.eqb].
    rewrite infer_step_fresh by easy.
    unfold Conv.init_input_memory.
    cbn [Conv.set_input_memory Conv.in_channels Conv.dilation
         Conv.is_causal Conv.kernel_size Conv.stride Conv.conv_weight
         Conv.conv_bias Conv.use_act].
    rewrite Hx. fold z. fold d.
    replace (Conv.set_input_memory (Conv.set_input_memory c None)
               (Some (repeat z d)))
      with (Conv.set_input_memory c
              (Some (history_mem d z (firstn 0 X))))
      by (cbn [firstn]; rewrite history_mem_nil; reflexivity).
    exact Hstep.
  - unfold layer_state at 1. cbn [Nat.eqb]. exact Hstep.
Qed.

Lemma slice_map (g : frame -> frame) (t : nat) (s : signal) :
  t < length s -> slice t (map g s) = map g (slice t s).
Proof.
  intros H. unfold slice. cbn [map]. f_equal. now apply nth_map_lt.
Qed.

Lemma slice_zip (g : frame -> frame -> frame) (t : nat) (a b : signal) :
  t < length a -> t < length b ->
  slice t (zip_with g a b) = zip_with g (slice t a) (slice t b).
Proof.
  intros Ha Hb. unfold slice. cbn [zip_with]. f_equal.
  now apply nth_zip_with.
Qed.

(** A layer of kernel size 1 acts on each time step by itself. *)
Lemma pointwise_forward_slice (c : Conv.t) (b t : nat) (s ys : signal) :
  pointwise_layer c -> has_batch b s -> t < length s ->
  Conv.forward c s = Ok ys ->
  Conv.forward c (slice t s) = Ok (slice t ys) /\ length ys = length s.
Proof.
  intros Hp Hb Ht H.
  assert (Hne : s <> []) by (intros E; subst; simpl in Ht; lia).
  destruct (conv_forward_taps c (or_intror Hp)) as (p & Hp' & Hf).
  destruct Hp as (HK & _ & _).
  rewrite HK in Hp'. replace p with 0 in * by lia. clear Hp'.
  rewrite (Hf s Hne) in H. injection H as <-.
  rewrite (Hf (slice t s)) by discriminate.
  split.
  2:{ destruct (Conv.use_act c); now rewrite ?length_map, length_seq. }
  f_equal. unfold slice at 1 2 3. cbn [length seq map].
  set (G := fun j : nat =>
              Conv1d.apply_taps (Conv.conv_weight c) (Conv.conv_bias c)
                (Conv.in_channels c) (Conv.kernel_size c)
                (batch_of (Conv.pad_left 0 s))
                (fun k : nat =>
                   nth (j * 1 + k * Conv.dilation c) (Conv.pad_left 0 s)
                     [])).
  assert (E : Conv1d.apply_taps (Conv.conv_weight c) (Conv.conv_bias c)
                (Conv.in_channels c) (Conv.kernel_size c)
                (batch_of (Conv.pad_left 0 [nth t s []]))
                (fun k : nat =>
                   nth (0 * 1 + k * Conv.dilation c)
                     (Conv.pad_left 0 [nth t s []]) []) = G t).
  { unfold G. rewrite !batch_of_pad_left.
    rewrite (batch_of_has_batch b s Hne Hb).
    unfold batch_of. cbn [hd]. rewrite (has_batch_nth b s t Hb Ht).
    apply apply_taps_ext. intros k Hk. rewrite HK in Hk.
    replace k with 0 by lia. unfold Conv.pad_left. cbn [repeat app].
    replace (0 * 1 + 0 * Conv.dilation c) with 0 by lia.
    replace (t * 1 + 0 * Conv.dilation c) with t by lia.
    reflexivity. }
  rewrite E. unfold slice.
  assert (HG : nth t (map G (seq 0 (length s))) [] = G t).
  { rewrite (nth_map_lt G (seq 0 (length s)) t 0 [])
      by (now rewrite length_seq).
    now rewrite seq_nth. }
  destruct (Conv.use_act c).
  - change (map (frame_map softsign) [G t])
      with [frame_map softsign (G t)].
    f_equal.
    rewrite (nth_map_lt (frame_map softsign) (map G (seq 0 (length s))) t
               [] [])
      by (now rewrite length_map, length_seq).
    now rewrite HG.
  - now rewrite HG.
Qed.

Section StackFacts.

Context {sample : Type}.
Variables tanh sigmoid : Qc -> Qc.
Variable w : @Wavenet.t sample.
Hypothesis Hwf : well_formed w.

Lemma gated_slice (t : nat) (s : signal) :
  t < length s ->
  slice t (Wavenet.gated tanh sigmoid w s) =
  Wavenet.gated tanh sigmoid w (slice t s).
Proof.
  intros Ht. unfold Wavenet.gated, signal_mul, signal_map, channels_to,
    channels_from.
  rewrite slice_zip by (now rewrite !length_map).
  now rewrite !slice_map by (now rewrite ?length_map).
Qed.

Lemma skip_accumulate_slice (b i t T : nat) (acts : signal)
    (o o' : option signal) :
  has_batch b acts -> length acts = T -> opt_length T o -> t < T ->
  Wavenet.skip_accumulate w i acts o = Ok o' ->
  Wavenet.skip_accumulate w i (slice t acts) (option_map (slice t) o) =
    Ok (option_map (slice t) o') /\
  opt_length T o'.
Proof.
  intros Hb HT Ho Ht H.
  destruct Hwf as (_ & _ & _ & Hskip & _).
  unfold Wavenet.skip_accumulate in *.
  destruct (Wavenet.use_skip_out w); [|injection H as <-; now split].
  destruct (Wavenet.layer_at (Wavenet.skip_layers w) i) as [c|e] eqn:Ec;
    [|discriminate].
  cbn [bind] in *.
  destruct (Conv.forward c acts) as [y|e] eqn:Ey; [|discriminate].
  cbn [bind] in H.
  assert (Hc : pointwise_layer c).
  { rewrite Forall_forall in Hskip. apply Hskip.
    now apply layer_at_in with i. }
  destruct (pointwise_forward_slice c b t acts y Hc Hb) as [Hs Hl];
    [lia|exact Ey|].
  rewrite Hs. cbn [bind].
  destruct (i =? 0).
  - injection H as <-. split; [reflexivity|]. simpl. lia.
  - destruct o as [os|]; [|discriminate]. injection H as <-.
    simpl in Ho. cbn [option_map]. split.
    + unfold signal_add. now rewrite slice_zip by lia.
    + simpl. apply length_signal_add; lia.
Qed.

Lemma residual_project_slice (b i t T : nat) (acts acts' : signal) :
  has_batch b acts -> length acts = T -> t < T ->
  Wavenet.residual_project w i acts = Ok acts' ->
  Wavenet.residual_project w i (slice t acts) = Ok (slice t acts') /\
  length acts' = T.
Proof.
  intros Hb HT Ht H.
  destruct Hwf as (_ & _ & Hres & _).
  unfold Wavenet.residual_project in *.
  destruct (Wavenet.use_res_out_conv w &&
            (i <? length (Wavenet.res_layers w)));
    [|injection H as <-; now split].
  destruct (Wavenet.layer_at (Wavenet.res_layers w) i) as [c|e] eqn:Ec;
    [|discriminate].
  cbn [bind] in *.
  assert (Hc : pointwise_layer c).
  { rewrite Forall_forall in Hres. apply Hres.
    now apply layer_at_in with i. }
  destruct (pointwise_forward_slice c b t acts acts' Hc Hb) as [Hs Hl];
    [lia|exact H|].
  split; [exact Hs|lia].
Qed.

Lemma after_gate_slice (b i t T : nat) (acts x x' : signal)
    (o o' : option signal) :
  has_batch b acts -> length acts = T -> length x = T ->
  opt_length T o -> t < T ->
  Wavenet.after_gate w i acts x o = Ok (x', o') ->
  Wavenet.after_gate w i (slice t acts) (slice t x)
    (option_map (slice t) o) =
    Ok (slice t x', option_map (slice t) o') /\
  length x' = T /\ opt_length T o'.
Proof.
  intros Hb HT Hx Ho Ht H. unfold Wavenet.after_gate in *.
  destruct (Wavenet.skip_accumulate w i acts o) as [o1|e] eqn:Eo;
    [|discriminate].
  cbn [bind] in H.
  destruct (Wavenet.residual_project w i acts) as [a1|e] eqn:Ea;
    [|discriminate].
  cbn [bind] in H. injection H as <- <-.
  destruct (skip_accumulate_slice b i t T acts o o1 Hb HT Ho Ht Eo)
    as [Hs Hlo].
  destruct (residual_project_slice b i t T acts a1 Hb HT Ht Ea)
    as [Hr Hla].
  rewrite Hs, Hr. cbn [bind].
  assert (Hsum : length (signal_add a1 x) = T)
    by (apply length_signal_add; lia).
  split; [|split; [unfold signal_map; now rewrite length_map|exact Hlo]].
  f_equal. f_equal. unfold signal_map, signal_add.
  rewrite slice_map by (fold (signal_add a1 x); lia).
  now rewrite slice_zip by lia.
Qed.

Lemma infer_block_layers (ls : list Conv.t) (cond : signal) (i : nat)
    (x : signal) (o : option signal) :
  Wavenet.infer_block tanh sigmoid (Wavenet.set_dilate_layers w ls) cond i
    x o =
  let* layer := Wavenet.layer_at ls i in
  let r := Conv.infer_step layer (last x []) in
  let* layers := set_at i (snd r) ls in
  let* in_act := fst r in
  match in_act with
  | None => Raise TypeError
  | Some in_act =>
      let in_act :=
        if Wavenet.use_conditioning w then
          signal_add in_act
            (if Wavenet.use_cond_conv w
             then channel_group (Wavenet.n_layers w) i cond
             else cond)
        else in_act in
      let acts := Wavenet.gated tanh sigmoid w in_act in
      let* st := Wavenet.after_gate w i acts x o in
      Ok (st, Wavenet.set_dilate_layers w layers)
  end.
Proof. reflexivity. Qed.

End StackFacts.

Lemma skipn_cons_inv {A} (a : nat) (l r : list A) (x d : A) :
  skipn a l = x :: r -> nth a l d = x /\ skipn (S a) l = r /\ a < length l.
Proof.
  revert l. induction a as [|a IH]; intros [|y l] H; simpl in H;
    try discriminate.
  - injection H as <- <-. repeat split. simpl. lia.
  - destruct (IH l H) as (H1 & H2 & H3). repeat split; simpl; try easy. lia.
Qed.

Lemma skipn_cons_nth {A} (s : nat) (l : list A) (d : A) :
  s < length l -> skipn s l = nth s l d :: skipn (S s) l.
Proof.
  revert l. induction s as [|s IH]; intros [|y l] H; simpl in *; try lia.
  - reflexivity.
  - apply IH. lia.
Qed.

Lemma layers_fed_ext {sample : Type} (w0 : @Wavenet.t sample) (b : nat)
    (Xs : list signal) (time time' : nat -> nat) (ls : list Conv.t) :
  (forall j, j < length (Wavenet.dilate_layers w0) -> time j = time' j) ->
  layers_fed w0 b Xs time ls -> layers_fed w0 b Xs time' ls.
Proof.
  intros He [Hl H]. split; [exact Hl|]. intros j c Hc.
  rewrite <- He; [now apply H|].
  apply nth_error_Some. now rewrite Hc.
Qed.

Lemma in_slices_batch {sample : Type} (w : @Wavenet.t sample) (b : nat)
    (xs : list (list sample)) :
  columns_batch b xs -> has_batch b (map (Wavenet.in_slice w) xs).
Proof.
  unfold has_batch, columns_batch. rewrite !Forall_forall.
  intros H f Hf. apply in_map_iff in Hf. destruct Hf as (x & <- & Hx).
  unfold Wavenet.in_slice. rewrite length_map. now apply H.
Qed.

Section StackStream.

Context {sample : Type}.
Variables tanh sigmoid : Qc -> Qc.
Variable w : @Wavenet.t sample.
Hypothesis Hwf : well_formed w.
Hypothesis Hnoact :
  Forall (fun c => Conv.use_act c = false) (Wavenet.dilate_layers w).
Hypothesis Hflags :
  Wavenet.use_conditioning w = true ->
  Wavenet.use_cond_conv w = negb (Wavenet.same_cond_each_resblock w).
Variable m : Wavenet.masks.
Variable cond : signal.
Variables b T : nat.
Hypothesis Hcond :
  Wavenet.use_conditioning w = true -> length cond = T /\ has_batch b cond.

(** One block: the streaming step at time [t] gives the time step [t]
    of what the batch pass gives. *)
Lemma infer_block_stream (cond_t : signal) (i t : nat) (X X' : signal)
    (O O' : option signal) (ls : list Conv.t) (c : Conv.t) :
  t < T -> length X = T -> has_batch b X ->
  (Wavenet.use_conditioning w = true -> cond_t = slice t cond) ->
  opt_length T O -> opt_batch b O ->
  nth_error (Wavenet.dilate_layers w) i = Some c ->
  nth_error ls i = Some (layer_state c b t X) ->
  Wavenet.forward_block tanh sigmoid w false m cond i X O = Ok (X', O') ->
  exists ls' : list Conv.t,
    Wavenet.infer_block tanh sigmoid (Wavenet.set_dilate_layers w ls)
      cond_t i (slice t X) (option_map (slice t) O) =
      Ok (slice t X', option_map (slice t) O',
          Wavenet.set_dilate_layers w ls') /\
    length ls' = length ls /\
    nth_error ls' i = Some (layer_state c b (S t) X) /\
    (forall j, j <> i -> nth_error ls' j = nth_error ls j) /\
    length X' = T /\ has_batch b X' /\ opt_length T O' /\ opt_batch b O'.
Proof.
  intros Ht HX HbX Hct HO HbO Hc Hls H.
  assert (Hne : X <> []) by (intros E; subst X; simpl in HX; lia).
  assert (Hin : In c (Wavenet.dilate_layers w))
    by (now apply nth_error_In with i).
  assert (Hd : dilated_layer c).
  { destruct Hwf as (_ & Hdil & _). rewrite Forall_forall in Hdil.
    now apply Hdil. }
  assert (Ha : Conv.use_act c = false).
  { rewrite Forall_forall in Hnoact. now apply Hnoact. }
  unfold Wavenet.forward_block in H.
  unfold Wavenet.layer_at in H. rewrite Hc in H. cbn [bind] in H.
  pose proof (forward_dilated_frames c b X Hd Ha Hne HbX) as Hf.
  set (in_act := map (fun j =>
                   window_out c
                     (nth j (repeat (zero_frame b (Conv.in_channels c))
                               (Conv.dilation c) ++ X) [])
                     (nth j X [])) (seq 0 (length X))) in *.
  assert (Hbi : has_batch b in_act)
    by (apply (conv_forward_batch c b X in_act (or_introl Hd) Hne HbX Hf)).
  assert (Hli : length in_act = T)
    by (unfold in_act; now rewrite length_map, length_seq).
  rewrite Hf in H. cbn [bind] in H.
  set (cond_act := if Wavenet.same_cond_each_resblock w then cond
                   else channel_group (Wavenet.n_layers w) i cond) in *.
  set (in_act' := if Wavenet.use_conditioning w
                  then signal_add in_act cond_act else in_act) in *.
  assert (Hca : Wavenet.use_conditioning w = true ->
                length cond_act = T /\ has_batch b cond_act).
  { intros Hu. destruct (Hcond Hu) as [Hlc Hbc]. unfold cond_act.
    destruct (Wavenet.same_cond_each_resblock w); [now split|].
    unfold channel_group. split; [now rewrite length_map|].
    now apply has_batch_rows. }
  assert (Hi' : length in_act' = T /\ has_batch b in_act').
  { unfold in_act'. destruct (Wavenet.use_conditioning w); [|now split].
    destruct (Hca eq_refl) as [Hlc Hbc]. split.
    - now apply length_signal_add.
    - now apply has_batch_zip. }
  destruct Hi' as [Hli' Hbi'].
  set (acts := Wavenet.gated tanh sigmoid w in_act') in *.
  assert (Hla : length acts = T)
    by (unfold acts; now rewrite length_gated).
  assert (Hba : has_batch b acts) by (now apply has_batch_gated).
  assert (Hnea : acts <> [])
    by (intros E; rewrite E in Hla; simpl in Hla; lia).
  destruct (after_gate_slice w Hwf b i t T acts X X' O O' Hba Hla HX HO Ht H)
    as (Hs & HlX' & HlO').
  destruct (after_gate_batch w b i acts X X' O O' Hwf Hnea Hba HbX HbO H)
    as (HbX' & HbO').
  destruct (set_at_ok i (layer_state c b (S t) X) ls) as
    (ls' & Hset & Hll & Hnew & Hold).
  { apply nth_error_Some. now rewrite Hls. }
  exists ls'. repeat split; try assumption.
  rewrite (infer_block_layers tanh sigmoid w ls cond_t i).
  unfold Wavenet.layer_at. rewrite Hls. cbn [bind].
  change (last (slice t X) []) with (nth t X []).
  rewrite (stream_layer_step c b t X Hd HbX) by lia.
  cbn [fst snd]. rewrite Hset. cbn [bind].
  assert (Hwin : [window_out c
                    (nth t (repeat (zero_frame b (Conv.in_channels c))
                              (Conv.dilation c) ++ X) [])
                    (nth t X [])] = slice t in_act).
  { unfold slice, in_act. f_equal.
    rewrite (@nth_map_lt nat frame _ (seq 0 (length X)) t 0 [])
      by (rewrite length_seq; lia).
    rewrite seq_nth by lia. reflexivity. }
  rewrite Hwin.
  assert (Hin' :
    (if Wavenet.use_conditioning w
     then signal_add (slice t in_act)
            (if Wavenet.use_cond_conv w
             then channel_group (Wavenet.n_layers w) i cond_t
             else cond_t)
     else slice t in_act) = slice t in_act').
  { unfold in_act'.
    destruct (Wavenet.use_conditioning w) eqn:Hu; [|reflexivity].
    destruct (Hca eq_refl) as [Hlc Hbc].
    destruct (Hcond eq_refl) as [Hlcond _].
    unfold signal_add. rewrite slice_zip by lia. f_equal.
    rewrite (Hflags eq_refl), (Hct eq_refl). unfold cond_act.
    destruct (Wavenet.same_cond_each_resblock w); cbn [negb];
      [reflexivity|].
    unfold channel_group. now rewrite slice_map by lia. }
  cbv zeta. rewrite Hin'.
  rewrite <- (gated_slice tanh sigmoid w t in_act') by lia.
  fold acts. rewrite Hs. reflexivity.
Qed.

Variable Xs : list signal.

(** The blocks from [a] on. *)
Lemma infer_blocks_stream (cond_t : signal) (t : nat) :
  t < T ->
  (Wavenet.use_conditioning w = true -> cond_t = slice t cond) ->
  forall (k a : nat) (X X' : signal) (O O' : option signal)
         (ls : list Conv.t),
  a + k = Wavenet.n_layers w -> length X = T -> has_batch b X ->
  opt_length T O -> opt_batch b O ->
  skipn a Xs = block_inputs tanh sigmoid w m cond (seq a k) X O ->
  layers_fed w b Xs (fun j => if j <? a then S t else t) ls ->
  Wavenet.forward_blocks tanh sigmoid w false m cond (seq a k) X O =
    Ok (X', O') ->
  exists ls' : list Conv.t,
    Wavenet.infer_blocks tanh sigmoid (Wavenet.set_dilate_layers w ls)
      cond_t (seq a k) (slice t X) (option_map (slice t) O) =
      Ok (slice t X', option_map (slice t) O',
          Wavenet.set_dilate_layers w ls') /\
    layers_fed w b Xs (fun _ => S t) ls' /\
    length X' = T /\ has_batch b X' /\ opt_length T O' /\ opt_batch b O'.
Proof.
  intros Ht Hct.
  assert (Hn : length (Wavenet.dilate_layers w) = Wavenet.n_layers w)
    by (now destruct Hwf).
  induction k as [|k IH]; intros a X X' O O' ls Hak HX HbX HO HbO HXs Hfed H.
  - cbn [seq Wavenet.forward_blocks] in H. injection H as <- <-.
    exists ls. cbn [seq Wavenet.infer_blocks].
    split; [reflexivity|]. split; [|now repeat split].
    apply (layers_fed_ext w b Xs (fun j => if j <? a then S t else t));
      [|exact Hfed].
    intros j Hj. destruct (Nat.ltb_spec j a); [reflexivity|lia].
  - cbn [seq Wavenet.forward_blocks block_inputs] in H, HXs.
    destruct (Wavenet.forward_block tanh sigmoid w false m cond a X O)
      as [[X1 O1]|e] eqn:Eb; [|discriminate].
    cbn [bind fst snd] in H, HXs.
    destruct (skipn_cons_inv a Xs _ X [] HXs) as (Hnth & Hrest & Hlt).
    destruct (nth_error (Wavenet.dilate_layers w) a) as [c|] eqn:Ec.
    2:{ apply nth_error_None in Ec. lia. }
    destruct Hfed as [Hlen Hfed].
    pose proof (Hfed a c Ec) as Hla.
    rewrite Nat.ltb_irrefl, Hnth in Hla.
    destruct (infer_block_stream cond_t a t X X1 O O1 ls c Ht HX HbX Hct
                HO HbO Ec Hla Eb)
      as (ls1 & Hib & Hl1 & Hnew & Hold & HX1 & HbX1 & HO1 & HbO1).
    destruct (IH (S a) X1 X' O1 O' ls1) as (ls' & Hrec & Hfed' & Hrest');
      try assumption; [lia| |].
    { split; [lia|]. intros j c' Hc'.
      destruct (Nat.eq_dec j a) as [->|Hja].
      - rewrite Ec in Hc'. injection Hc' as <-.
        replace (a <? S a) with true by (symmetry; apply Nat.ltb_lt; lia).
        now rewrite Hnth.
      - rewrite (Hold j Hja), (Hfed j c' Hc').
        destruct (Nat.ltb_spec j a), (Nat.ltb_spec j (S a));
          try reflexivity; lia. }
    exists ls'. split; [|now split].
    cbn [seq Wavenet.infer_blocks]. rewrite Hib. cbn [bind fst snd].
    exact Hrec.
Qed.

Lemma infer_head_slice (t : nat) (X : signal) (O : option signal)
    (out : signal) (ls : list Conv.t) :
  t < T -> length X = T -> has_batch b X -> opt_length T O ->
  opt_batch b O ->
  Wavenet.forward_head w false m X O = Ok out ->
  Wavenet.infer_head (Wavenet.set_dilate_layers w ls) (slice t X)
    (option_map (slice t) O) = Ok (slice t out).
Proof.
  clear Hcond Hflags Hnoact.
  intros Ht HX HbX HO HbO H.
  change (Wavenet.infer_head (Wavenet.set_dilate_layers w ls) (slice t X)
            (option_map (slice t) O))
    with (Wavenet.infer_head w (slice t X) (option_map (slice t) O)).
  unfold Wavenet.forward_head in H. unfold Wavenet.infer_head.
  destruct (Wavenet.use_skip_out w); [|now injection H as <-].
  destruct O as [os|]; [|discriminate]. cbn [option_map].
  simpl in HO, HbO.
  destruct Hwf as (_ & _ & _ & _ & _ & Hout & Hend & _).
  destruct (Conv.forward (Wavenet.conv_out w) (signal_map relu os))
    as [y|e] eqn:Ey; [|discriminate].
  cbn [bind] in H.
  assert (Hb1 : has_batch b (signal_map relu os))
    by (now apply has_batch_rows).
  assert (Hl1 : length (signal_map relu os) = T)
    by (unfold signal_map; now rewrite length_map).
  destruct (pointwise_forward_slice _ b t _ y Hout Hb1) as [Hs1 Hly];
    [lia|exact Ey|].
  assert (Hby : has_batch b y).
  { apply (conv_forward_batch _ b (signal_map relu os) y
             (or_intror Hout)); try assumption.
    intros E. rewrite E in Hl1. simpl in Hl1. lia. }
  assert (Hb2 : has_batch b (signal_map relu y))
    by (now apply has_batch_rows).
  assert (Hl2 : length (signal_map relu y) = T)
    by (unfold signal_map; rewrite length_map; lia).
  destruct (pointwise_forward_slice _ b t _ out Hend Hb2) as [Hs2 _];
    [lia|exact H|].
  unfold signal_map in Hs1, Hs2, Hl1, Hl2, Hly |- *.
  rewrite <- slice_map by lia. rewrite Hs1. cbn [bind].
  rewrite <- slice_map by lia. exact Hs2.
Qed.

Variable xs : list (list sample).
Hypothesis HT : length xs = T.
Hypothesis Hxs : columns_batch b xs.
Variables Xn raw : signal.
Variable On : option signal.
Hypothesis HXs :
  Xs = block_inputs tanh sigmoid w m cond (seq 0 (Wavenet.n_layers w))
         (map (Wavenet.in_slice w) xs) None.
Hypothesis Hblocks :
  Wavenet.forward_blocks tanh sigmoid w false m cond
    (seq 0 (Wavenet.n_layers w)) (map (Wavenet.in_slice w) xs) None =
    Ok (Xn, On).
Hypothesis Hhead : Wavenet.forward_head w false m Xn On = Ok raw.
Hypothesis Hraw : length raw = T.

(** One call of [infer_step], at time [t]. *)
Lemma infer_step_stream (t : nat) (ls : list Conv.t) :
  t < T -> layers_fed w b Xs (fun _ => t) ls ->
  exists ls' : list Conv.t,
    Wavenet.infer_step tanh sigmoid (Wavenet.set_dilate_layers w ls)
      (nth_error cond t) (nth t xs []) =
      Ok (nth t raw [], Wavenet.set_dilate_layers w ls') /\
    layers_fed w b Xs (fun _ => S t) ls'.
Proof.
  intros Ht Hfed.
  set (cond_t := if Wavenet.use_conditioning w then slice t cond else []).
  assert (Hct : Wavenet.use_conditioning w = true -> cond_t = slice t cond).
  { intros Hu. unfold cond_t. now rewrite Hu. }
  assert (Hl0 : length (map (Wavenet.in_slice w) xs) = T)
    by (now rewrite length_map).
  assert (Hfed0 : layers_fed w b Xs (fun j => if j <? 0 then S t else t) ls).
  { apply (layers_fed_ext w b Xs (fun _ => t)); [|exact Hfed].
    intros j _. reflexivity. }
  assert (HXs0 : skipn 0 Xs =
                 block_inputs tanh sigmoid w m cond
                   (seq 0 (Wavenet.n_layers w))
                   (map (Wavenet.in_slice w) xs) None) by exact HXs.
  destruct (infer_blocks_stream cond_t t Ht Hct (Wavenet.n_layers w) 0
              (map (Wavenet.in_slice w) xs) Xn None On ls eq_refl Hl0
              (in_slices_batch w b xs Hxs) I I HXs0 Hfed0 Hblocks)
    as (ls' & Hib & Hfed' & HlX & HbX & HlO & HbO).
  exists ls'. split; [|exact Hfed'].
  unfold Wavenet.infer_step.
  change (Wavenet.use_conditioning (Wavenet.set_dilate_layers w ls))
    with (Wavenet.use_conditioning w).
  change (Wavenet.n_layers (Wavenet.set_dilate_layers w ls))
    with (Wavenet.n_layers w).
  change (Wavenet.in_slice (Wavenet.set_dilate_layers w ls))
    with (Wavenet.in_slice w).
  assert (Hx : [Wavenet.in_slice w (nth t xs [])] =
               slice t (map (Wavenet.in_slice w) xs)).
  { unfold slice. f_equal. symmetry. apply nth_map_lt. lia. }
  rewrite Hx.
  assert (Hc : (if Wavenet.use_conditioning w
                then match nth_error cond t with
                     | Some f => Ok [f]
                     | None => Raise AttributeError
                     end
                else Ok []) = Ok cond_t).
  { unfold cond_t. destruct (Wavenet.use_conditioning w); [|reflexivity].
    destruct (Hcond eq_refl) as [Hlc _].
    rewrite (nth_error_nth' cond []) by lia. reflexivity. }
  rewrite Hc. cbn [bind]. cbn [option_map] in Hib. rewrite Hib.
  cbn [bind fst snd].
  rewrite (infer_head_slice t Xn On raw ls' Ht HlX HbX HlO HbO Hhead).
  reflexivity.
Qed.

(** All the calls from time [s] on. *)
Lemma infer_steps_stream :
  forall (rest : list (list sample)) (s : nat) (ls : list Conv.t),
  skipn s xs = rest -> s <= T -> layers_fed w b Xs (fun _ => s) ls ->
  exists ls' : list Conv.t,
    infer_steps tanh sigmoid (Wavenet.set_dilate_layers w ls) cond s rest =
      Ok (skipn s raw, Wavenet.set_dilate_layers w ls') /\
    layers_fed w b Xs (fun _ => T) ls'.
Proof.
  induction rest as [|x rest IH]; intros s ls Hsk Hs Hfed.
  - assert (HsT : s = T).
    { apply (f_equal (@length _)) in Hsk. rewrite length_skipn in Hsk.
      simpl in Hsk. lia. }
    subst s. exists ls. cbn [infer_steps]. split; [|exact Hfed].
    rewrite skipn_all2 by lia. reflexivity.
  - destruct (skipn_cons_inv s xs rest x [] Hsk) as (Hnth & Hrest & Hlt).
    destruct (infer_step_stream s ls) as (ls1 & Hst & Hfed1);
      [lia|exact Hfed|].
    destruct (IH (S s) ls1 Hrest) as (ls' & Hrec & Hfed'); [lia|exact Hfed1|].
    exists ls'. split; [|exact Hfed'].
    cbn [infer_steps]. rewrite <- Hnth, Hst. cbn [bind fst snd].
    rewrite Hrec. cbn [bind fst snd].
    rewrite (skipn_cons_nth s raw []) by lia. reflexivity.
Qed.

End StackStream.

Lemma has_batch_firstn (b n : nat) (s : signal) :
  has_batch b s -> has_batch b (firstn n s).
Proof.
  intros H. revert n. induction H as [|f s Hf _ IH]; intros [|n];
    simpl; constructor; [exact Hf|apply IH].
Qed.

Lemma cond_for_forward_batch {sample : Type} (w : @Wavenet.t sample)
    (features cond : signal) (b T : nat) :
  well_formed w -> 1 <= T -> has_batch b (upsampled w features) ->
  Wavenet.cond_for_forward w features T = Ok cond ->
  length cond = T /\ has_batch b cond.
Proof.
  intros Hwf HT Hb H.
  assert (Hl : T <= length (upsampled w features)).
  { destruct (Nat.lt_ge_cases (length (upsampled w features)) T)
      as [L|L]; [|exact L].
    apply Nat.ltb_lt in L. unfold Wavenet.cond_for_forward in H.
    cbv zeta in H. fold (upsampled w features) in H.
    rewrite L in H. discriminate. }
  destruct (cond_for_forward_local w Hwf features T HT Hl)
    as (cond' & Hc' & Hlc & _).
  rewrite H in Hc'. injection Hc' as <-. split; [exact Hlc|].
  unfold Wavenet.cond_for_forward in H. cbv zeta in H.
  fold (upsampled w features) in H.
  destruct (length (upsampled w features) <? T); [discriminate|].
  set (cut := if T <? length (upsampled w features)
              then firstn T (upsampled w features)
              else upsampled w features) in *.
  assert (Hcut : has_batch b cut).
  { unfold cut. destruct (T <? length (upsampled w features));
      [|exact Hb].
    now apply has_batch_firstn. }
  assert (Hlcut : length cut = T).
  { unfold cut.
    destruct (Nat.ltb_spec T (length (upsampled w features)));
      [rewrite length_firstn|]; lia. }
  destruct (Wavenet.use_cond_conv w); [|now injection H as <-].
  destruct Hwf as (_ & _ & _ & _ & Hcl & _).
  apply (conv_forward_batch _ b cut cond (or_intror Hcl)); try assumption.
  intros E. rewrite E in Hlcut. simpl in Hlcut. lia.
Qed.

Lemma set_dilate_layers_same {sample : Type} (w : @Wavenet.t sample) :
  Wavenet.set_dilate_layers w (Wavenet.dilate_layers w) = w.
Proof. now destruct w. Qed.

Lemma layers_fed_fresh {sample : Type} (w : @Wavenet.t sample) (b : nat)
    (Xs : list signal) :
  fresh w -> layers_fed w b Xs (fun _ => 0) (Wavenet.dilate_layers w).
Proof.
  intros Hf. split; [reflexivity|]. intros j c Hc. rewrite Hc. f_equal.
  unfold fresh in Hf. rewrite Forall_forall in Hf.
  unfold layer_state. cbn [Nat.eqb].
  rewrite <- (Hf c) by (now apply nth_error_In with j).
  symmetry. apply set_input_memory_same.
Qed.

Lemma layers_fed_forget {sample : Type} (w : @Wavenet.t sample) (b : nat)
    (Xs : list signal) (time : nat -> nat) (ls : list Conv.t) :
  fresh w -> layers_fed w b Xs time ls ->
  forget_caches (Wavenet.set_dilate_layers w ls) = w.
Proof.
  intros Hf [Hl H]. unfold forget_caches.
  cbn [Wavenet.dilate_layers Wavenet.set_dilate_layers].
  rewrite <- (set_dilate_layers_same w) at 2.
  unfold Wavenet.set_dilate_layers.
  cbn [Wavenet.n_layers Wavenet.max_dilation Wavenet.n_residual_channels
       Wavenet.n_out_channels Wavenet.upscale Wavenet.use_conditioning
       Wavenet.same_cond_each_resblock Wavenet.use_cond_conv
       Wavenet.use_skip_out Wavenet.use_res_out_conv Wavenet.res_block_gain
       Wavenet.upsample Wavenet.cond_layers Wavenet.res_layers
       Wavenet.skip_layers Wavenet.in_layer Wavenet.conv_out
       Wavenet.conv_end].
  f_equal. apply nth_error_ext. intros j.
  rewrite nth_error_map.
  destruct (nth_error (Wavenet.dilate_layers w) j) as [c|] eqn:Ec.
  - rewrite (H j c Ec). cbn [option_map]. f_equal.
    unfold fresh in Hf. rewrite Forall_forall in Hf.
    unfold layer_state.
    change (Conv.set_input_memory (Conv.set_input_memory c ?x) None)
      with (Conv.set_input_memory c None).
    rewrite <- (Hf c) by (now apply nth_error_In with j).
    apply set_input_memory_same.
  - apply nth_error_None in Ec.
    assert (E : nth_error ls j = None) by (apply nth_error_None; lia).
    now rewrite E.
Qed.

(** Streaming the whole stack: on a network as [__init__] builds it
    (well formed, no cache yet, dilated layers without activation, the
    conditioning laid out per block exactly when the conditioning
    convolution makes it), calling [Wavenet.infer_step] once per time
    step, in order, with the input and the conditioning of that step,
    gives frame by frame (each as the B x C x 1 tensor it is before the
    squeeze) what [forward] computes without dropout before its final
    shift; and nothing but the caches has changed in the network
    afterwards. *)
Theorem stack_streaming_equals_forward {sample : Type}
    (tanh sigmoid : Qc -> Qc) (w : @Wavenet.t sample) (features : signal)
    (xs : list (list sample)) (b : nat) (m : Wavenet.masks) :
  well_formed w -> fresh w ->
  Forall (fun c => Conv.use_act c = false) (Wavenet.dilate_layers w) ->
  xs <> [] -> columns_batch b xs ->
  (Wavenet.use_conditioning w = true ->
   Wavenet.use_cond_conv w = negb (Wavenet.same_cond_each_resblock w) /\
   length xs <= length (upsampled w features) /\
   has_batch b (upsampled w features)) ->
  exists (cond raw : signal) (w' : @Wavenet.t sample),
    (if Wavenet.use_conditioning w
     then Wavenet.cond_for_forward w features (length xs)
     else Ok []) = Ok cond /\
    Wavenet.forward_raw tanh sigmoid w features xs false m = Ok raw /\
    infer_steps tanh sigmoid w cond 0 xs = Ok (raw, w') /\
    length raw = length xs /\
    forget_caches w' = w.
Proof.
  intros Hwf Hfresh Hnoact Hne Hxs Hc.
  assert (HT : 1 <= length xs) by (destruct xs; [congruence|simpl; lia]).
  destruct (forward_raw_local tanh sigmoid w Hwf features xs false m Hne)
    as (raw & Hraw & Hlraw & _).
  { intros Hu. now destruct (Hc Hu) as (_ & Hl & _). }
  pose proof Hraw as Hraw0.
  unfold Wavenet.forward_raw in Hraw.
  destruct (if Wavenet.use_conditioning w
            then Wavenet.cond_for_forward w features (length xs)
            else Ok []) as [cond|e] eqn:Ec; [|discriminate].
  cbn [bind] in Hraw.
  destruct (Wavenet.forward_blocks tanh sigmoid w false m cond
              (seq 0 (Wavenet.n_layers w)) (map (Wavenet.in_slice w) xs)
              None) as [[Xn On]|e] eqn:Eb; [|discriminate].
  cbn [bind fst snd] in Hraw.
  assert (Hcond : Wavenet.use_conditioning w = true ->
                  length cond = length xs /\ has_batch b cond).
  { intros Hu. rewrite Hu in Ec. destruct (Hc Hu) as (_ & _ & Hb).
    now apply (cond_for_forward_batch w features cond b (length xs)). }
  destruct (infer_steps_stream tanh sigmoid w Hwf Hnoact
              (fun Hu => proj1 (Hc Hu)) m cond b (length xs) Hcond
              (block_inputs tanh sigmoid w m cond
                 (seq 0 (Wavenet.n_layers w))
                 (map (Wavenet.in_slice w) xs) None)
              xs eq_refl Hxs Xn raw On eq_refl Eb Hraw Hlraw xs 0
              (Wavenet.dilate_layers w) eq_refl)
    as (ls' & Hst & Hfed); [lia|now apply layers_fed_fresh|].
  rewrite set_dilate_layers_same in Hst.
  exists cond, raw, (Wavenet.set_dilate_layers w ls').
  split; [reflexivity|]. split; [exact Hraw0|].
  split; [exact Hst|]. split; [exact Hlraw|].
  now apply (layers_fed_forget w b _ _ ls' Hfresh Hfed).
Qed.

Lemma tiny_net_no_act (use_conditioning : bool) :
  Forall (fun c => Conv.use_act c = false)
    (Wavenet.dilate_layers (tiny_net use_conditioning)).
Proof. repeat constructor. Qed.

Lemma stack_streaming_equals_forward_witness :
  well_formed (tiny_net true) /\ fresh (tiny_net true) /\
  [[1%Z]; [2%Z]; [3%Z]] <> [] /\ columns_batch 1 [[1%Z]; [2%Z]; [3%Z]] /\
  has_batch 1 (upsampled (tiny_net true) tiny_cond) /\
  exists (raw : signal) (w' : @Wavenet.t Z),
    raw = [[[Q2Qc (41 # 60); Q2Qc (41 # 30)]];
           [[Q2Qc (335 # 304); Q2Qc (335 # 152)]];
           [[Q2Qc (9035 # 6192); Q2Qc (9035 # 3096)]]] /\
    Wavenet.forward_raw tanh_q sigmoid_q (tiny_net true) tiny_cond
      [[1%Z]; [2%Z]; [3%Z]] false no_masks = Ok raw /\
    infer_steps tanh_q sigmoid_q (tiny_net true) tiny_cond 0
      [[1%Z]; [2%Z]; [3%Z]] = Ok (raw, w') /\
    forget_caches w' = tiny_net true.
Proof.
  destruct (tiny_net_well_formed true) as [Hwf Hfr].
  assert (Hne : [[1%Z]; [2%Z]; [3%Z]] <> []) by discriminate.
  assert (Hxs : columns_batch 1 [[1%Z]; [2%Z]; [3%Z]])
    by (repeat constructor).
  assert (Hb : has_batch 1 (upsampled (tiny_net true) tiny_cond))
    by (repeat constructor).
  assert (Hc : Wavenet.use_conditioning (tiny_net true) = true ->
    Wavenet.use_cond_conv (tiny_net true) =
      negb (Wavenet.same_cond_each_resblock (tiny_net true)) /\
    length [[1%Z]; [2%Z]; [3%Z]] <=
      length (upsampled (tiny_net true) tiny_cond) /\
    has_batch 1 (upsampled (tiny_net true) tiny_cond)).
  { intros _. split; [reflexivity|]. split; [simpl; lia|exact Hb]. }
  destruct (stack_streaming_equals_forward tanh_q sigmoid_q (tiny_net true)
              tiny_cond [[1%Z]; [2%Z]; [3%Z]] 1 no_masks Hwf Hfr
              (tiny_net_no_act true) Hne Hxs Hc)
    as (cond & raw & w' & Ec & Er & Es & _ & Ef).
  assert (E : cond = tiny_cond).
  { change (Ok tiny_cond = Ok cond) in Ec. now injection Ec. }
  subst cond.
  assert (Ev : Wavenet.forward_raw tanh_q sigmoid_q (tiny_net true)
                 tiny_cond [[1%Z]; [2%Z]; [3%Z]] false no_masks =
               Ok [[[Q2Qc (41 # 60); Q2Qc (41 # 30)]];
                   [[Q2Qc (335 # 304); Q2Qc (335 # 152)]];
                   [[Q2Qc (9035 # 6192); Q2Qc (9035 # 3096)]]])
    by eq_by_eval.
  split; [exact Hwf|]. split; [exact Hfr|]. split; [exact Hne|].
  split; [exact Hxs|]. split; [exact Hb|].
  exists raw, w'. split; [|split; [exact Er|split; [exact Es|exact Ef]]].
  rewrite Ev in Er. now injection Er.
Defined.

(** ** Teacher-forced inference and the batch pass *)

Section TeacherForced.

Context {sample : Type}.
Variables tanh sigmoid : Qc -> Qc.
Variables SDML CS : list Qc -> sample.
Variable w : @Wavenet.t sample.
Hypothesis Hwf : well_formed w.
Hypothesis Hhead : logits_head w.
Hypothesis Hnoact :
  Forall (fun c => Conv.use_act c = false) (Wavenet.dilate_layers w).
Variable use_logistic_mix : bool.
Variable p : Qc.
Variable teacher : list (list sample).
Hypothesis Hteacher : columns_batch 1 teacher.
Variable cf_opt : option signal.
Variable T : nat.
Hypothesis Hready : cond_ready w cf_opt 1 T.
Hypothesis HTt : T <= length teacher.
Variable m : Wavenet.masks.
Variable cond : signal.
Hypothesis Hcond :
  Wavenet.use_conditioning w = true -> length cond = T /\ has_batch 1 cond.
Hypothesis Hlink :
  Wavenet.use_conditioning w = true ->
  exists cf : signal, cf_opt = Some cf /\ cond = firstn T cf.
Hypothesis Hcond0 : Wavenet.use_conditioning w = false -> cond = [].
Variables Xn raw : signal.
Variable On : option signal.
Hypothesis Hblocks :
  Wavenet.forward_blocks tanh sigmoid w false m cond
    (seq 0 (Wavenet.n_layers w))
    (map (Wavenet.in_slice w) (firstn T teacher)) None = Ok (Xn, On).
Hypothesis Hfhead : Wavenet.forward_head w false m Xn On = Ok raw.
Hypothesis Hraw : length raw = T.





End TeacherForced.





(** ** What [inference] returns *)



(** ** The shape of the output of [forward] *)

Lemma in_mapi {A B} (g : nat -> A -> B) (l : list A) (y : B) :
  In y (mapi g l) -> exists (i : nat) (a : A), In a l /\ y = g i a.
Proof.
  unfold mapi. intros H. apply in_map_iff in H.
  destruct H as ([i a] & <- & Hin). exists i, a. split; [|reflexivity].
  now apply in_combine_r in Hin.
Qed.

Lemma has_batch_dropout (mk : mask) (b : nat) (s : signal) :
  has_batch b s -> has_batch b (dropout mk s).
Proof.
  unfold has_batch. rewrite !Forall_forall. intros H f Hf.
  unfold dropout in Hf. apply in_mapi in Hf.
  destruct Hf as (t & f0 & Hin & ->). rewrite length_mapi. now apply H.
Qed.

Section ShapeFacts.

Context {sample : Type}.
Variables tanh sigmoid : Qc -> Qc.
Variable w : @Wavenet.t sample.
Hypothesis Hwf : well_formed w.
Variable training : bool.
Variable m : Wavenet.masks.
Variable cond : signal.
Variables b T : nat.
Hypothesis HT : 1 <= T.
Hypothesis Hcond :
  Wavenet.use_conditioning w = true -> length cond = T /\ has_batch b cond.

Lemma forward_block_batch (i : nat) (x x' : signal) (o o' : option signal) :
  i < Wavenet.n_layers w -> length x = T -> has_batch b x ->
  opt_batch b o ->
  Wavenet.forward_block tanh sigmoid w training m cond i x o =
    Ok (x', o') ->
  has_batch b x' /\ opt_batch b o'.
Proof.
  intros Hi Hx Hbx Hbo H.
  pose proof Hwf as (Hlen & Hdil & _).
  unfold Wavenet.forward_block in H.
  set (x1 := if training then dropout (Wavenet.drop_res m i) x else x) in *.
  assert (Hx1 : length x1 = T).
  { unfold x1. destruct training; [now rewrite length_dropout|exact Hx]. }
  assert (Hbx1 : has_batch b x1).
  { unfold x1. destruct training; [now apply has_batch_dropout|exact Hbx]. }
  destruct (layer_at_some _ _ i Hdil) as (c & Hc & Hpc); [lia|].
  rewrite Hc in H. cbn [bind] in H.
  destruct (conv_forward_time_local c x1 (or_introl Hpc)
              (not_nil_of_length T x1 HT Hx1)) as (y & Hy & Hly & _).
  rewrite Hy in H. cbn [bind] in H.
  assert (Hby : has_batch b y).
  { apply (conv_forward_batch c b x1 y (or_introl Hpc)); try assumption.
    now apply (not_nil_of_length T). }
  set (in_act := if Wavenet.use_conditioning w
                 then signal_add y
                        (if Wavenet.same_cond_each_resblock w then cond
                         else channel_group (Wavenet.n_layers w) i cond)
                 else y) in *.
  assert (Hin : length in_act = T /\ has_batch b in_act).
  { unfold in_act. destruct (Wavenet.use_conditioning w); [|split; [lia|easy]].
    destruct (Hcond eq_refl) as [Hlc Hbc].
    destruct (Wavenet.same_cond_each_resblock w).
    - split; [apply length_signal_add; lia|now apply has_batch_zip].
    - split.
      + apply length_signal_add; [lia|].
        unfold channel_group. now rewrite length_map.
      + apply has_batch_zip; [exact Hby|].
        unfold channel_group. now apply has_batch_rows. }
  destruct Hin as [Hlin Hbin].
  apply (after_gate_batch w b i (Wavenet.gated tanh sigmoid w in_act) x1 x' o
           o' Hwf); try assumption.
  - apply (not_nil_of_length T); [exact HT|]. now rewrite length_gated.
  - now apply has_batch_gated.
Qed.

Lemma forward_blocks_batch (k : nat) :
  forall (a : nat) (x x' : signal) (o o' : option signal),
  a + k <= Wavenet.n_layers w -> length x = T -> has_batch b x ->
  opt_length T o -> opt_batch b o ->
  (Wavenet.use_skip_out w = true -> a <> 0 -> o <> None) ->
  Wavenet.forward_blocks tanh sigmoid w training m cond (seq a k) x o =
    Ok (x', o') ->
  length x' = T /\ has_batch b x' /\ opt_length T o' /\ opt_batch b o'.
Proof.
  induction k as [|k IH]; intros a x x' o o' Hak Hx Hbx Hlo Hbo Hsome H.
  - cbn [seq Wavenet.forward_blocks] in H. now injection H as <- <-.
  - cbn [seq Wavenet.forward_blocks] in H.
    destruct (forward_block_local tanh sigmoid w Hwf training m cond a T x o)
      as (x1 & o1 & Hb1 & Hlx1 & Hlo1 & Hs1 & _); try assumption; [lia| |].
    { intros Hu. now destruct (Hcond Hu). }
    rewrite Hb1 in H. cbn [bind fst snd] in H.
    destruct (forward_block_batch a x x1 o o1) as [Hbx1 Hbo1];
      try assumption; [lia|].
    apply (IH (S a) x1 x' o1 o'); try assumption; [lia|].
    intros Hu _. now apply Hs1.
Qed.

End ShapeFacts.

(** [Wavenet.forward] on a network with the skip output and at least one
    residual block whose layers fit each other, for an audio input of
    [b >= 1] batch elements and T >= 1 time steps that the input layer
    takes, and features of [b] batch elements and the channels the
    network reads that cover it: the result is a b x n_out_channels x T
    tensor, in training mode or not. *)
Theorem forward_output_shape {sample : Type} (tanh sigmoid : Qc -> Qc)
    (w : @Wavenet.t sample) (features : signal) (xs : list (list sample))
    (b : nat) (training : bool) (m : Wavenet.masks) :
  well_formed w -> channels_fit w -> 1 <= Wavenet.n_layers w ->
  logits_head w -> xs <> [] ->
  input_fits w b xs -> features_fit w b features ->
  (Wavenet.use_conditioning w = true ->
   length xs <= length (upsampled w features)) ->
  exists out : signal,
    Wavenet.forward tanh sigmoid w features xs training m = Ok out /\
    length out = length xs /\
    signal_shape b (Wavenet.n_out_channels w) out.
Proof.
  intros Hwf _ _ [Hskip Hnout] Hne (_ & Hxs & _) Hft Hcov.
  assert (Hc : Wavenet.use_conditioning w = true ->
               length xs <= length (upsampled w features) /\
               has_batch b (upsampled w features)).
  { intros Hu. split; [now apply Hcov|].
    destruct (Hft Hu) as (_ & _ & Hsh).
    now apply signal_shape_batch with (cond_in_channels w). }
  assert (HT : 1 <= length xs) by (destruct xs; [congruence|simpl; lia]).
  destruct (forward_raw_local tanh sigmoid w Hwf features xs training m Hne)
    as (raw & Hraw & Hlraw & _).
  { intros Hu. now destruct (Hc Hu). }
  pose proof Hraw as Hraw0.
  unfold Wavenet.forward_raw in Hraw.
  destruct (if Wavenet.use_conditioning w
            then Wavenet.cond_for_forward w features (length xs)
            else Ok []) as [cond|e] eqn:Ec; [|discriminate].
  cbn [bind] in Hraw.
  destruct (Wavenet.forward_blocks tanh sigmoid w training m cond
              (seq 0 (Wavenet.n_layers w)) (map (Wavenet.in_slice w) xs)
              None) as [[Xn On]|e] eqn:Eb; [|discriminate].
  cbn [bind fst snd] in Hraw.
  assert (Hcond : Wavenet.use_conditioning w = true ->
                  length cond = length xs /\ has_batch b cond).
  { intros Hu. rewrite Hu in Ec. destruct (Hc Hu) as (_ & Hb).
    now apply (cond_for_forward_batch w features cond b (length xs)). }
  destruct (forward_blocks_batch tanh sigmoid w Hwf training m cond b
              (length xs) HT Hcond (Wavenet.n_layers w) 0
              (map (Wavenet.in_slice w) xs) Xn None On)
    as (HlX & HbX & HlO & HbO); try easy.
  { now rewrite length_map. }
  { now apply in_slices_batch. }
  (* the head *)
  unfold Wavenet.forward_head in Hraw. rewrite Hskip in Hraw.
  destruct On as [os|]; [|discriminate]. simpl in HlO, HbO.
  set (o1 := signal_map relu
               (if training then dropout (Wavenet.drop_out1 m) os
                else os)) in *.
  destruct (Conv.forward (Wavenet.conv_out w) o1) as [y|e] eqn:Ey;
    [|discriminate].
  cbn [bind] in Hraw.
  set (o2 := signal_map relu
               (if training then dropout (Wavenet.drop_out2 m) y
                else y)) in *.
  pose proof Hwf as (_ & _ & _ & _ & _ & Hout & Hend & _).
  assert (Ho1 : length o1 = length xs /\ has_batch b o1).
  { unfold o1, signal_map. rewrite length_map. destruct training.
    - rewrite length_dropout. split; [exact HlO|].
      apply has_batch_rows. now apply has_batch_dropout.
    - split; [exact HlO|]. now apply has_batch_rows. }
  destruct Ho1 as [Hlo1 Hbo1].
  assert (Hne1 : o1 <> []) by (now apply (not_nil_of_length (length xs))).
  destruct (conv_forward_time_local _ o1 (or_intror Hout) Hne1)
    as (y' & Hy' & Hly & _).
  rewrite Ey in Hy'. injection Hy' as <-.
  assert (Hby : has_batch b y)
    by (now apply (conv_forward_batch _ b o1 y (or_intror Hout))).
  assert (Ho2 : length o2 = length xs /\ has_batch b o2).
  { unfold o2, signal_map. rewrite length_map. destruct training.
    - rewrite length_dropout. split; [lia|].
      apply has_batch_rows. now apply has_batch_dropout.
    - split; [lia|]. now apply has_batch_rows. }
  destruct Ho2 as [Hlo2 Hbo2].
  assert (Hne2 : o2 <> []) by (now apply (not_nil_of_length (length xs))).
  pose proof (conv_forward_shape _ o2 raw (or_intror Hend) Hne2 Hraw)
    as Hshape.
  rewrite (batch_of_has_batch b o2 Hne2 Hbo2), Hnout in Hshape.
  (* the shift *)
  assert (Hr : raw <> []) by (now apply (not_nil_of_length (length xs))).
  exists (map (map (fun _ => 0%Qc)) (last raw []) :: removelast raw).
  split.
  { unfold Wavenet.forward. rewrite Hraw0. cbn [bind].
    rewrite (app_removelast_last [] Hr) at 1. apply shift_output_snoc. }
  assert (Hsplit : raw = removelast raw ++ [last raw []])
    by (apply app_removelast_last; exact Hr).
  split.
  { cbn [length]. rewrite Hsplit in Hlraw at 1.
    rewrite length_app in Hlraw. cbn [length] in Hlraw.
    cbv delta [signal frame] in *. lia. }
  unfold signal_shape in *. rewrite Hsplit in Hshape.
  apply Forall_app in Hshape. destruct Hshape as [Hinit Hlast].
  constructor; [|exact Hinit].
  inversion Hlast as [|? ? Hl _]. subst.
  now apply (frame_map_shape (fun _ => 0%Qc)).
Qed.

Lemma forward_output_shape_witness :
  well_formed (tiny_net true) /\ channels_fit (tiny_net true) /\
  1 <= Wavenet.n_layers (tiny_net true) /\
  logits_head (tiny_net true) /\
  [[1%Z]; [2%Z]; [3%Z]] <> [] /\
  input_fits (tiny_net true) 1 [[1%Z]; [2%Z]; [3%Z]] /\
  features_fit (tiny_net true) 1 tiny_cond /\
  exists out : signal,
    Wavenet.forward tanh_q sigmoid_q (tiny_net true) tiny_cond
      [[1%Z]; [2%Z]; [3%Z]] true no_masks = Ok out /\
    length out = 3 /\ signal_shape 1 2 out.
Proof.
  destruct (tiny_net_well_formed true) as [Hwf _].
  pose proof (tiny_net_logits_head true) as Hhead.
  pose proof (tiny_net_channels_fit true) as Hfit.
  assert (Hn : 1 <= Wavenet.n_layers (tiny_net true)) by (simpl; lia).
  assert (Hne : [[1%Z]; [2%Z]; [3%Z]] <> []) by discriminate.
  assert (Hxs : input_fits (tiny_net true) 1 [[1%Z]; [2%Z]; [3%Z]])
    by tiny_input_fits.
  assert (Hft : features_fit (tiny_net true) 1 tiny_cond)
    by (intros _; split; [discriminate|split; repeat constructor]).
  split; [exact Hwf|]. split; [exact Hfit|]. split; [exact Hn|].
  split; [exact Hhead|]. split; [exact Hne|].
  split; [exact Hxs|]. split; [exact Hft|].
  apply (forward_output_shape tanh_q sigmoid_q (tiny_net true) tiny_cond
           [[1%Z]; [2%Z]; [3%Z]] 1 true no_masks Hwf Hfit Hn Hhead Hne Hxs
           Hft).
  intros _. simpl. lia.
Defined.

(** ** [inference] on given conditioning features *)

Lemma upsample_shape (upscale b c : nat) (X : signal) :
  signal_shape b c X ->
  signal_shape b c (UpsampleByRepetition.forward upscale X).
Proof.
  unfold signal_shape, UpsampleByRepetition.forward.
  induction 1 as [|f X Hf _ IH]; cbn [flat_map]; [constructor|].
  apply Forall_app. split; [|exact IH].
  apply Forall_forall. intros g Hg. apply repeat_spec in Hg. now subst.
Qed.

Lemma upsampled_by_copy {sample : Type} (w : @Wavenet.t sample)
    (b c : nat) (features : signal) :
  upsamples_by_copy w -> signal_shape b c features ->
  length (upsampled w features) = length features * Wavenet.upscale w /\
  signal_shape b c (upsampled w features).
Proof.
  intros Hup Hsh. unfold upsampled.
  destruct (Nat.eqb_spec (Wavenet.upscale w) 1) as [E|E].
  - rewrite E. split; [lia|exact Hsh].
  - destruct Hup as [H1|Hup]; [contradiction|]. rewrite Hup.
    split; [rewrite upsample_length; lia|now apply upsample_shape].
Qed.

(** [inference] on given conditioning features, for a freshly built
    one-hot network with conditioning and the skip output whose
    upsampler repeats: features of [b >= 1] batch elements, the channels
    the network takes and T >= 1 frames make a session of length
    T * upscale and batch size [b], whatever [length], [audio_hz],
    [batch_size] and [cond_channels] come with the call.  At b = 1 the
    call returns T * upscale + 1 columns; at any other batch size, and a
    length of 2 or more, it raises RuntimeError where the first pass of
    the loop writes into the logits buffer. *)
Theorem inference_on_features (tanh sigmoid : Qc -> Qc)
    (SDML CS : list Qc -> Z) (enc : Qc -> Z)
    (dec : Z -> nat -> Qc)
    (w : @Wavenet.t Z) (q : QuantizedInputLayer.t) (features : signal)
    (b c : nat)
    (use_logistic_mix : bool) (teacher : option (list (list Z)))
    (mu_quantization : nat) (p : Qc)
    (length audio_hz batch_size cond_channels : nat) :
  well_formed w -> channels_fit w -> logits_head w -> fresh w ->
  onehot_input w q ->
  class_inputs q (if use_logistic_mix then SDML else CS) enc teacher ->
  1 <= b -> 1 <= c ->
  Wavenet.use_conditioning w = true ->
  Wavenet.use_cond_conv w = negb (Wavenet.same_cond_each_resblock w) ->
  upsamples_by_copy w -> 1 <= Wavenet.upscale w ->
  features <> [] -> signal_shape b c features -> cond_channels_fit w c ->
  teacher_batch b teacher ->
  exists cf : signal,
    Wavenet.inference_init w (Some features) length audio_hz batch_size
      cond_channels =
      Ok (Wavenet.mk_session (Some cf)
            (List.length features * Wavenet.upscale w) b) /\
    (b = 1 ->
     exists (audio : list (list Qc)) (st : Wavenet.loop_state),
       Wavenet.inference tanh sigmoid SDML CS enc dec w (Some features)
         use_logistic_mix teacher mu_quantization false p length audio_hz
         batch_size cond_channels = Ok (audio, st) /\
       List.length audio = List.length features * Wavenet.upscale w + 1) /\
    (b <> 1 -> 2 <= List.length features * Wavenet.upscale w ->
     Wavenet.inference tanh sigmoid SDML CS enc dec w (Some features)
       use_logistic_mix teacher mu_quantization false p length audio_hz
       batch_size cond_channels = Raise RuntimeError).
Proof.
  intros Hwf _ Hhead Hfresh _ _ _ _ Hu Hflags Hup H1 Hne Hsh Hfit Hteacher.
  destruct (upsampled_by_copy w b c features Hup Hsh) as [Hlu Hshu].
  set (L := List.length features * Wavenet.upscale w) in *.
  assert (HL : 1 <= L).
  { unfold L. destruct features; [congruence|]. simpl. nia. }
  assert (Hneu : upsampled w features <> [])
    by (now apply (not_nil_of_length L)).
  assert (Hbf : batch_of features = b).
  { apply batch_of_has_batch; [exact Hne|].
    now apply signal_shape_batch with c. }
  assert (Hcf : exists cf : signal,
            (if Wavenet.use_cond_conv w
             then Conv.forward (Wavenet.cond_layers w)
                    (upsampled w features)
             else Ok (upsampled w features)) = Ok cf /\
            List.length cf = L /\ signal_shape b (cond_width w) cf).
  { unfold cond_channels_fit in Hfit.
    destruct (Wavenet.use_cond_conv w) eqn:Ecc.
    - pose proof Hwf as (_ & _ & _ & _ & Hcl & _).
      destruct Hfit as [_ Hwd].
      destruct (conv_forward_time_local _ _ (or_intror Hcl) Hneu)
        as (cf & Ecf & Hlcf & _).
      exists cf. split; [exact Ecf|]. split; [lia|].
      pose proof (conv_forward_shape _ _ cf (or_intror Hcl) Hneu Ecf)
        as Hs.
      rewrite Hwd in Hs.
      rewrite (batch_of_has_batch b) in Hs; [exact Hs|exact Hneu|].
      now apply signal_shape_batch with c.
    - exists (upsampled w features). split; [reflexivity|].
      split; [exact Hlu|]. now rewrite <- Hfit. }
  destruct Hcf as (cf & Ecf & Hlcf & Hshcf).
  assert (Hinit : Wavenet.inference_init w (Some features) length audio_hz
                    batch_size cond_channels =
                  Ok (Wavenet.mk_session (Some cf) L b)).
  { unfold Wavenet.inference_init. rewrite Hu.
    unfold Wavenet.cond_for_inference. fold (upsampled w features).
    rewrite Hbf. fold L.
    destruct (Wavenet.use_cond_conv w).
    - rewrite Ecf. reflexivity.
    - injection Ecf as <-. reflexivity. }
  assert (Hcond : cond_ready w (Some cf) b (L - 1)).
  { intros _. split; [exact Hflags|]. exists cf.
    split; [reflexivity|]. split; [lia|exact Hshcf]. }
  exists cf. split; [exact Hinit|]. split.
  - intros Hb1. clear Hbf. subst b.
    destruct (inference_ok tanh sigmoid SDML CS enc dec w (Some features)
                use_logistic_mix teacher mu_quantization p length audio_hz
                batch_size cond_channels (Wavenet.mk_session (Some cf) L 1)
                Hwf Hhead Hfresh Hinit eq_refl Hteacher Hcond)
      as (audio & st & Hinf & Hla & _).
    exists audio, st. split; [exact Hinf|exact Hla].
  - intros Hb1 HL2.
    apply (inference_batch_fails tanh sigmoid SDML CS enc dec w
             (Some features) use_logistic_mix teacher mu_quantization p
             length audio_hz batch_size cond_channels
             (Wavenet.mk_session (Some cf) L b) Hwf Hhead Hfresh
             Hinit Hb1 Hteacher Hcond).
    exact HL2.
Qed.

Lemma inference_on_features_witness :
  well_formed (tiny_net true) /\ channels_fit (tiny_net true) /\
  logits_head (tiny_net true) /\ fresh (tiny_net true) /\
  onehot_input (tiny_net true) tiny_embedding /\
  class_inputs tiny_embedding sampler_stub encode_stub None /\
  upsamples_by_copy (tiny_net true) /\
  tiny_cond <> [] /\ signal_shape 1 2 tiny_cond /\
  cond_channels_fit (tiny_net true) 2 /\
  Wavenet.inference_init (tiny_net true) (Some tiny_cond) 7 5 4 9 =
    Ok (Wavenet.mk_session (Some tiny_cond) 3 1) /\
  exists (audio : list (list Qc)) (st : @Wavenet.loop_state Z),
    tiny_inference (tiny_net true) (Some tiny_cond) None false 7 5 4 9 =
      Ok (audio, st) /\
    length audio = 3 * 1 + 1.
Proof.
  destruct (tiny_net_well_formed true) as [Hwf Hfresh].
  pose proof (tiny_net_logits_head true) as Hhead.
  pose proof (tiny_net_channels_fit true) as Hcf.
  pose proof (tiny_net_onehot true) as Hhot.
  pose proof (tiny_class_inputs None I) as Hcl.
  assert (Hup : upsamples_by_copy (tiny_net true)) by (left; reflexivity).
  assert (Hne : tiny_cond <> []) by discriminate.
  assert (Hsh : signal_shape 1 2 tiny_cond) by (repeat constructor).
  assert (Hfit : cond_channels_fit (tiny_net true) 2) by reflexivity.
  destruct (inference_on_features tanh_q sigmoid_q sampler_stub
              sampler_stub encode_stub decode_stub (tiny_net true)
              tiny_embedding tiny_cond 1 2 false None 256 (Q2Qc (1 # 2))
              7 5 4 9 Hwf Hcf Hhead Hfresh Hhot Hcl (le_n 1)
              (le_S 1 1 (le_n 1)) eq_refl eq_refl Hup (le_n 1) Hne Hsh Hfit
              I)
    as (cf & Hinit & Hone & _).
  split; [exact Hwf|]. split; [exact Hcf|]. split; [exact Hhead|].
  split; [exact Hfresh|]. split; [exact Hhot|]. split; [exact Hcl|].
  split; [exact Hup|]. split; [exact Hne|]. split; [exact Hsh|].
  split; [exact Hfit|]. split; [reflexivity|].
  exact (Hone eq_refl).
Defined.

(** ** A skip head without residual blocks *)

(** With the skip output and no residual block, the skip accumulator is
    never bound: [forward], on any input that passes the conditioning,
    and [infer_step] both raise UnboundLocalError where the head reads
    it. *)
Theorem skip_head_without_blocks {sample : Type} (tanh sigmoid : Qc -> Qc)
    (w : @Wavenet.t sample) (features : signal) (xs : list (list sample))
    (training : bool) (m : Wavenet.masks) (cond_input : option frame)
    (x : list sample) :
  Wavenet.use_skip_out w = true -> Wavenet.n_layers w = 0 ->
  (Wavenet.use_conditioning w = false ->
   Wavenet.forward tanh sigmoid w features xs training m =
     Raise UnboundLocalError) /\
  (Wavenet.use_conditioning w = false \/ cond_input <> None ->
   Wavenet.infer_step tanh sigmoid w cond_input x =
     Raise UnboundLocalError).
Proof.
  intros Hs Hn. split.
  - intros Hu. unfold Wavenet.forward, Wavenet.forward_raw.
    rewrite Hu, Hn. cbn [bind seq Wavenet.forward_blocks fst snd].
    unfold Wavenet.forward_head. rewrite Hs. reflexivity.
  - intros Hc. unfold Wavenet.infer_step. rewrite Hn.
    assert (E : exists ci,
              (if Wavenet.use_conditioning w
               then match cond_input with
                    | Some f => Ok [f]
                    | None => Raise AttributeError
                    end
               else Ok []) = Ok ci).
    { destruct (Wavenet.use_conditioning w); [|now exists []].
      destruct Hc as [Hc|Hc]; [discriminate|].
      destruct cond_input as [f|]; [now exists [f]|congruence]. }
    destruct E as (ci & ->).
    cbn [bind seq Wavenet.infer_blocks fst snd].
    unfold Wavenet.infer_head. rewrite Hs. reflexivity.
Qed.

Lemma skip_head_without_blocks_witness :
  Wavenet.use_skip_out (tiny_net_no_blocks) = true /\
  Wavenet.n_layers (tiny_net_no_blocks) = 0 /\
  Wavenet.forward tanh_q sigmoid_q tiny_net_no_blocks [] [[1%Z]] false
    no_masks = Raise UnboundLocalError /\
  Wavenet.infer_step tanh_q sigmoid_q tiny_net_no_blocks None [1%Z] =
    Raise UnboundLocalError.
Proof.
  destruct (skip_head_without_blocks tanh_q sigmoid_q tiny_net_no_blocks
              [] [[1%Z]] false no_masks None [1%Z] eq_refl eq_refl)
    as [Hf Hi].
  split; [reflexivity|]. split; [reflexivity|].
  split; [exact (Hf eq_refl)|]. apply Hi. left. reflexivity.
Defined.

(** ** The receptive field of the stack *)

Lemma span_from_step (ls : list Conv.t) (a k : nat) (c : Conv.t) :
  nth_error ls a = Some c ->
  span_from ls a (S k) = Conv.dilation c + span_from ls (S a) k.
Proof.
  intros H. unfold span_from.
  assert (E : skipn a ls = c :: skipn (S a) ls).
  { revert ls H. induction a as [|a IH]; intros [|x ls] H; simpl in H;
      try discriminate.
    - now injection H as ->.
    - cbn [skipn]. now apply IH. }
  rewrite E. reflexivity.
Qed.

Lemma span_from_all {sample : Type} (w : @Wavenet.t sample) :
  well_formed w ->
  span_from (Wavenet.dilate_layers w) 0 (Wavenet.n_layers w) =
  receptive_span w.
Proof.
  intros (Hn & _). unfold span_from, receptive_span. cbn [skipn].
  rewrite <- Hn. now rewrite firstn_all.
Qed.

Section ReceptiveField.

Context {sample : Type}.
Variables tanh sigmoid : Qc -> Qc.
Variable w : @Wavenet.t sample.
Hypothesis Hwf : well_formed w.
Hypothesis Hnoact :
  Forall (fun c => Conv.use_act c = false) (Wavenet.dilate_layers w).
Variable m : Wavenet.masks.
Variable cond : signal.
Variables b T : nat.
Hypothesis HT : 1 <= T.
Hypothesis Hcond :
  Wavenet.use_conditioning w = true -> length cond = T /\ has_batch b cond.

(** Time step [j] of what a block returns, from the two input frames
    its dilated layer reads and time step [j] of the rest. *)
Lemma forward_block_frame (i j : nat) (X Y : signal)
    (O O1 : option signal) (c : Conv.t) :
  j < T -> length X = T -> has_batch b X -> opt_length T O ->
  opt_batch b O ->
  nth_error (Wavenet.dilate_layers w) i = Some c ->
  Wavenet.forward_block tanh sigmoid w false m cond i X O = Ok (Y, O1) ->
  Wavenet.after_gate w i
    (Wavenet.gated tanh sigmoid w
       (if Wavenet.use_conditioning w
        then signal_add
               [window_out c
                  (nth j (repeat (zero_frame b (Conv.in_channels c))
                            (Conv.dilation c) ++ X) [])
                  (nth j X [])]
               (slice j (if Wavenet.same_cond_each_resblock w then cond
                         else channel_group (Wavenet.n_layers w) i cond))
        else [window_out c
                (nth j (repeat (zero_frame b (Conv.in_channels c))
                          (Conv.dilation c) ++ X) [])
                (nth j X [])]))
    (slice j X) (option_map (slice j) O) =
    Ok (slice j Y, option_map (slice j) O1).
Proof.
  intros Hj HX HbX HO HbO Hc H.
  assert (Hne : X <> []) by (intros E; subst X; simpl in HX; lia).
  assert (Hin : In c (Wavenet.dilate_layers w))
    by (now apply nth_error_In with i).
  assert (Hd : dilated_layer c).
  { destruct Hwf as (_ & Hdil & _). rewrite Forall_forall in Hdil.
    now apply Hdil. }
  assert (Ha : Conv.use_act c = false).
  { rewrite Forall_forall in Hnoact. now apply Hnoact. }
  unfold Wavenet.forward_block in H.
  unfold Wavenet.layer_at in H. rewrite Hc in H. cbn [bind] in H.
  pose proof (forward_dilated_frames c b X Hd Ha Hne HbX) as Hf.
  set (in_act := map (fun j =>
                   window_out c
                     (nth j (repeat (zero_frame b (Conv.in_channels c))
                               (Conv.dilation c) ++ X) [])
                     (nth j X [])) (seq 0 (length X))) in *.
  assert (Hbi : has_batch b in_act)
    by (apply (conv_forward_batch c b X in_act (or_introl Hd) Hne HbX Hf)).
  assert (Hli : length in_act = T)
    by (unfold in_act; now rewrite length_map, length_seq).
  rewrite Hf in H. cbn [bind] in H.
  set (cond_act := if Wavenet.same_cond_each_resblock w then cond
                   else channel_group (Wavenet.n_layers w) i cond) in *.
  set (in_act' := if Wavenet.use_conditioning w
                  then signal_add in_act cond_act else in_act) in *.
  assert (Hca : Wavenet.use_conditioning w = true ->
                length cond_act = T /\ has_batch b cond_act).
  { intros Hu. destruct (Hcond Hu) as [Hlc Hbc]. unfold cond_act.
    destruct (Wavenet.same_cond_each_resblock w); [now split|].
    unfold channel_group. split; [now rewrite length_map|].
    now apply has_batch_rows. }
  assert (Hi' : length in_act' = T /\ has_batch b in_act').
  { unfold in_act'. destruct (Wavenet.use_conditioning w); [|now split].
    destruct (Hca eq_refl) as [Hlc Hbc]. split.
    - now apply length_signal_add.
    - now apply has_batch_zip. }
  destruct Hi' as [Hli' Hbi'].
  set (acts := Wavenet.gated tanh sigmoid w in_act') in *.
  assert (Hla : length acts = T)
    by (unfold acts; now rewrite length_gated).
  assert (Hba : has_batch b acts) by (now apply has_batch_gated).
  destruct (after_gate_slice w Hwf b i j T acts X Y O O1 Hba Hla HX HO Hj H)
    as (Hs & _).
  assert (Hwin : [window_out c
                    (nth j (repeat (zero_frame b (Conv.in_channels c))
                              (Conv.dilation c) ++ X) [])
                    (nth j X [])] = slice j in_act).
  { unfold slice, in_act. f_equal.
    rewrite (@nth_map_lt nat frame _ (seq 0 (length X)) j 0 [])
      by (rewrite length_seq; lia).
    rewrite seq_nth by lia. reflexivity. }
  rewrite Hwin.
  assert (Hin' :
    (if Wavenet.use_conditioning w
     then signal_add (slice j in_act) (slice j cond_act)
     else slice j in_act) = slice j in_act').
  { unfold in_act'.
    destruct (Wavenet.use_conditioning w) eqn:Hu; [|reflexivity].
    destruct (Hca eq_refl) as [Hlc Hbc].
    unfold signal_add. now rewrite slice_zip by lia. }
  rewrite Hin'.
  rewrite <- (gated_slice tanh sigmoid w j in_act') by lia.
  exact Hs.
Qed.

(** One block moves the window of agreement by its dilation. *)
Lemma forward_block_agree (i lo hi : nat) (X X' Y Y' : signal)
    (O O' O1 O1' : option signal) (c : Conv.t) :
  hi < T -> length X = T -> has_batch b X -> opt_length T O ->
  opt_batch b O ->
  length X' = T -> has_batch b X' -> opt_length T O' -> opt_batch b O' ->
  nth_error (Wavenet.dilate_layers w) i = Some c ->
  agree_on lo hi X X' -> opt_agree_on lo hi O O' ->
  Wavenet.forward_block tanh sigmoid w false m cond i X O = Ok (Y, O1) ->
  Wavenet.forward_block tanh sigmoid w false m cond i X' O' =
    Ok (Y', O1') ->
  agree_on (lo + Conv.dilation c) hi Y Y' /\
  opt_agree_on (lo + Conv.dilation c) hi O1 O1'.
Proof.
  intros Hhi HX HbX HO HbO HX' HbX' HO' HbO' Hc Hag Hoag H H'.
  assert (Hboth : forall j, lo + Conv.dilation c <= j <= hi ->
            slice j Y = slice j Y' /\
            option_map (slice j) O1 = option_map (slice j) O1').
  { intros j Hj.
    pose proof (forward_block_frame i j X Y O O1 c ltac:(lia) HX HbX HO
                  HbO Hc H) as E.
    pose proof (forward_block_frame i j X' Y' O' O1' c ltac:(lia) HX' HbX'
                  HO' HbO' Hc H') as E'.
    assert (E0 : nth j X [] = nth j X' []).
    { assert (Hs := Hag j ltac:(lia)). unfold slice in Hs.
      now injection Hs. }
    assert (E1 : nth j (repeat (zero_frame b (Conv.in_channels c))
                          (Conv.dilation c) ++ X) [] =
                 nth j (repeat (zero_frame b (Conv.in_channels c))
                          (Conv.dilation c) ++ X') []).
    { rewrite !app_nth2 by (rewrite repeat_length; lia).
      rewrite repeat_length.
      assert (Hs := Hag (j - Conv.dilation c) ltac:(lia)).
      unfold slice in Hs. now injection Hs. }
    rewrite E1, E0 in E.
    rewrite (Hag j ltac:(lia)), (Hoag j ltac:(lia)) in E.
    rewrite E' in E. split; congruence. }
  split; intros j Hj; now apply Hboth.
Qed.

(** The blocks from [a] on move it by the sum of their dilations. *)
Lemma forward_blocks_agree (hi : nat) :
  hi < T ->
  forall (k a lo : nat) (X X' Y Y' : signal) (O O' O1 O1' : option signal),
  a + k <= Wavenet.n_layers w ->
  length X = T -> has_batch b X -> opt_length T O -> opt_batch b O ->
  length X' = T -> has_batch b X' -> opt_length T O' -> opt_batch b O' ->
  (Wavenet.use_skip_out w = true -> a <> 0 -> O <> None /\ O' <> None) ->
  agree_on lo hi X X' -> opt_agree_on lo hi O O' ->
  Wavenet.forward_blocks tanh sigmoid w false m cond (seq a k) X O =
    Ok (Y, O1) ->
  Wavenet.forward_blocks tanh sigmoid w false m cond (seq a k) X' O' =
    Ok (Y', O1') ->
  agree_on (lo + span_from (Wavenet.dilate_layers w) a k) hi Y Y' /\
  opt_agree_on (lo + span_from (Wavenet.dilate_layers w) a k) hi O1 O1'.
Proof.
  intros Hhi.
  assert (Hn : length (Wavenet.dilate_layers w) = Wavenet.n_layers w)
    by (now destruct Hwf).
  induction k as [|k IH];
    intros a lo X X' Y Y' O O' O1 O1' Hak HX HbX HO HbO HX' HbX' HO' HbO'
           Hsome Hag Hoag H H'.
  - cbn [seq Wavenet.forward_blocks] in H, H'.
    injection H as <- <-. injection H' as <- <-.
    unfold span_from. cbn [firstn map list_sum].
    rewrite Nat.add_0_r. now split.
  - cbn [seq Wavenet.forward_blocks] in H, H'.
    destruct (nth_error (Wavenet.dilate_layers w) a) as [c|] eqn:Ec.
    2:{ apply nth_error_None in Ec. lia. }
    destruct (forward_block_local tanh sigmoid w Hwf false m cond a T X O)
      as (X1 & O2 & Hb1 & HlX1 & HlO2 & Hs1 & _); try assumption; [lia| | |].
    { intros Hu. now destruct (Hcond Hu). }
    { intros Hu Ha. now destruct (Hsome Hu Ha). }
    destruct (forward_block_local tanh sigmoid w Hwf false m cond a T X' O')
      as (X1' & O2' & Hb1' & HlX1' & HlO2' & Hs1' & _); try assumption;
      [lia| | |].
    { intros Hu. now destruct (Hcond Hu). }
    { intros Hu Ha. now destruct (Hsome Hu Ha). }
    rewrite Hb1 in H. rewrite Hb1' in H'. cbn [bind fst snd] in H, H'.
    destruct (forward_block_batch tanh sigmoid w Hwf false m cond b T HT
                Hcond a X X1 O O2) as [HbX1 HbO2]; try assumption; [lia|].
    destruct (forward_block_batch tanh sigmoid w Hwf false m cond b T HT
                Hcond a X' X1' O' O2') as [HbX1' HbO2'];
      try assumption; [lia|].
    destruct (forward_block_agree a lo hi X X' X1 X1' O O' O2 O2' c Hhi HX
                HbX HO HbO HX' HbX' HO' HbO' Ec Hag Hoag Hb1 Hb1')
      as [Hag1 Hoag1].
    rewrite (span_from_step _ a k c Ec), Nat.add_assoc.
    apply (IH (S a) (lo + Conv.dilation c) X1 X1' Y Y' O2 O2' O1 O1');
      try assumption; [lia|].
    intros Hu _. split; [now apply Hs1|now apply Hs1'].
Qed.

End ReceptiveField.

(** The receptive field, away from the start of the input: from time
    step span + 1 on, an output step is computed from the span + 1 input
    steps before it. *)
Lemma receptive_field_late {sample : Type} (tanh sigmoid : Qc -> Qc)
    (w : @Wavenet.t sample) (features : signal)
    (xs xs' : list (list sample)) (b : nat) (m : Wavenet.masks) (u : nat) :
  well_formed w ->
  Forall (fun c => Conv.use_act c = false) (Wavenet.dilate_layers w) ->
  columns_batch b xs -> columns_batch b xs' -> length xs' = length xs ->
  (Wavenet.use_conditioning w = true ->
   length xs <= length (upsampled w features) /\
   has_batch b (upsampled w features)) ->
  receptive_span w + 1 <= u -> u < length xs ->
  (forall j : nat, u - 1 - receptive_span w <= j <= u - 1 ->
     nth j xs [] = nth j xs' []) ->
  exists out out' : signal,
    Wavenet.forward tanh sigmoid w features xs false m = Ok out /\
    Wavenet.forward tanh sigmoid w features xs' false m = Ok out' /\
    nth u out [] = nth u out' [].
Proof.
  intros Hwf Hnoact Hxs Hxs' Hlen Hc Hspan Hu Hag.
  set (T := length xs) in *.
  assert (HT : 1 <= T) by lia.
  assert (Hne : xs <> []) by (intros E; subst xs; simpl in T; lia).
  assert (Hne' : xs' <> [])
    by (intros E; rewrite E in Hlen; simpl in Hlen; lia).
  destruct (forward_raw_local tanh sigmoid w Hwf features xs false m Hne)
    as (raw & Hraw & Hlraw & _).
  { intros Hq. now destruct (Hc Hq). }
  destruct (forward_raw_local tanh sigmoid w Hwf features xs' false m Hne')
    as (raw' & Hraw' & Hlraw' & _).
  { intros Hq. rewrite Hlen. now destruct (Hc Hq). }
  pose proof Hraw as Hraw0. pose proof Hraw' as Hraw0'.
  unfold Wavenet.forward_raw in Hraw, Hraw'. rewrite Hlen in Hraw'.
  fold T in Hraw, Hraw'.
  destruct (if Wavenet.use_conditioning w
            then Wavenet.cond_for_forward w features T
            else Ok []) as [cond|e] eqn:Ec; [|discriminate].
  cbn [bind] in Hraw, Hraw'.
  destruct (Wavenet.forward_blocks tanh sigmoid w false m cond
              (seq 0 (Wavenet.n_layers w)) (map (Wavenet.in_slice w) xs)
              None) as [[Xn On]|e] eqn:Eb; [|discriminate].
  destruct (Wavenet.forward_blocks tanh sigmoid w false m cond
              (seq 0 (Wavenet.n_layers w)) (map (Wavenet.in_slice w) xs')
              None) as [[Xn' On']|e] eqn:Eb'; [|discriminate].
  cbn [bind fst snd] in Hraw, Hraw'.
  assert (Hcond : Wavenet.use_conditioning w = true ->
                  length cond = T /\ has_batch b cond).
  { intros Hq. rewrite Hq in Ec. destruct (Hc Hq) as (_ & Hb).
    now apply (cond_for_forward_batch w features cond b T). }
  assert (Hl0 : length (map (Wavenet.in_slice w) xs) = T)
    by (now rewrite length_map).
  assert (Hl0' : length (map (Wavenet.in_slice w) xs') = T)
    by (now rewrite length_map).
  pose proof (in_slices_batch w b xs Hxs) as Hb0.
  pose proof (in_slices_batch w b xs' Hxs') as Hb0'.
  destruct (forward_blocks_batch tanh sigmoid w Hwf false m cond b T HT
              Hcond (Wavenet.n_layers w) 0 _ Xn None On (le_n _) Hl0 Hb0 I I
              ltac:(intros _ H0; now contradiction H0) Eb)
    as (HlX & HbX & HlO & HbO).
  destruct (forward_blocks_batch tanh sigmoid w Hwf false m cond b T HT
              Hcond (Wavenet.n_layers w) 0 _ Xn' None On' (le_n _) Hl0' Hb0'
              I I ltac:(intros _ H0; now contradiction H0) Eb')
    as (HlX' & HbX' & HlO' & HbO').
  set (t := u - 1) in *.
  set (lo := t - receptive_span w) in *.
  assert (Hag0 : agree_on lo t (map (Wavenet.in_slice w) xs)
                   (map (Wavenet.in_slice w) xs')).
  { intros j Hj. unfold slice. f_equal.
    rewrite (@nth_map_lt (list sample) frame (Wavenet.in_slice w) xs j
               [] []) by lia.
    rewrite (@nth_map_lt (list sample) frame (Wavenet.in_slice w) xs' j
               [] []) by lia.
    now rewrite (Hag j Hj). }
  destruct (forward_blocks_agree tanh sigmoid w Hwf Hnoact m cond b T HT
              Hcond t ltac:(lia) (Wavenet.n_layers w) 0 lo _ _ Xn Xn' None
              None On On' (le_n _) Hl0 Hb0 I I Hl0' Hb0' I I
              ltac:(intros _ H0; now contradiction H0) Hag0
              ltac:(intros j _; reflexivity) Eb Eb')
    as [HagX HagO].
  rewrite (span_from_all w Hwf) in HagX, HagO.
  assert (Ht : lo + receptive_span w <= t <= t) by lia.
  pose proof (infer_head_slice w Hwf m b T t Xn On raw []
                ltac:(lia) HlX HbX HlO HbO Hraw) as Eh.
  pose proof (infer_head_slice w Hwf m b T t Xn' On' raw' []
                ltac:(lia) HlX' HbX' HlO' HbO' Hraw') as Eh'.
  rewrite (HagX t Ht), (HagO t Ht), Eh' in Eh.
  assert (Eraw : nth t raw [] = nth t raw' []).
  { injection Eh as Eh. now symmetry. }
  assert (Hshift : forall r : signal, length r = T ->
            Wavenet.shift_output (fun v => (v * 0)%Qc) r =
              Ok (map (map (fun _ => 0%Qc)) (last r []) :: removelast r) /\
            nth u (map (map (fun _ => 0%Qc)) (last r []) :: removelast r)
              [] = nth t r []).
  { intros r Hr.
    assert (Hrn : r <> []) by (now apply (not_nil_of_length T)).
    pose proof (app_removelast_last [] Hrn) as Hsplit.
    split.
    - rewrite Hsplit at 1. apply shift_output_snoc.
    - assert (Hlr : length (removelast r) + 1 = T).
      { rewrite <- Hr. rewrite Hsplit at 2. rewrite length_app.
        reflexivity. }
      replace u with (S t) by (unfold t; lia). cbn [nth].
      rewrite Hsplit at 2. rewrite app_nth1; [reflexivity|].
      cbv delta [signal frame] in *. lia. }
  destruct (Hshift raw Hlraw) as [Hs1 Hn1].
  destruct (Hshift raw') as [Hs2 Hn2]; [now rewrite Hlraw'|].
  eexists. eexists.
  split; [unfold Wavenet.forward; rewrite Hraw0; exact Hs1|].
  split; [unfold Wavenet.forward; rewrite Hraw0'; exact Hs2|].
  etransitivity; [exact Hn1|]. rewrite Eraw. symmetry. exact Hn2.
Qed.

Lemma firstn_nth_ext {A : Type} (d : A) :
  forall (n : nat) (l l' : list A),
    n <= length l -> n <= length l' ->
    (forall j : nat, j < n -> nth j l d = nth j l' d) ->
    firstn n l = firstn n l'.
Proof.
  induction n as [|n IH]; intros l l' Hl Hl' H; [reflexivity|].
  destruct l as [|a l]; [simpl in Hl; lia|].
  destruct l' as [|a' l']; [simpl in Hl'; lia|].
  simpl in Hl, Hl'. cbn [firstn]. f_equal.
  - apply (H 0). lia.
  - apply IH; [lia|lia|]. intros j Hj. apply (H (S j)). lia.
Qed.

(** The receptive field: without dropout, time step u >= 1 of the output
    of [forward] is computed from the input steps
    max(0, u - 1 - span) .. u - 1 alone, where span is the sum of the
    dilations of the dilated layers.  Two audio inputs of one length that
    agree at these steps give the same output at step u, whatever they
    hold elsewhere. *)
Theorem forward_receptive_field {sample : Type} (tanh sigmoid : Qc -> Qc)
    (w : @Wavenet.t sample) (features : signal)
    (xs xs' : list (list sample)) (b : nat) (m : Wavenet.masks) (u : nat) :
  well_formed w ->
  Forall (fun c => Conv.use_act c = false) (Wavenet.dilate_layers w) ->
  columns_batch b xs -> columns_batch b xs' -> length xs' = length xs ->
  (Wavenet.use_conditioning w = true ->
   length xs <= length (upsampled w features) /\
   has_batch b (upsampled w features)) ->
  1 <= u -> u < length xs ->
  (forall j : nat, u - 1 - receptive_span w <= j <= u - 1 ->
     nth j xs [] = nth j xs' []) ->
  exists out out' : signal,
    Wavenet.forward tanh sigmoid w features xs false m = Ok out /\
    Wavenet.forward tanh sigmoid w features xs' false m = Ok out' /\
    nth u out [] = nth u out' [].
Proof.
  intros Hwf Hnoact Hxs Hxs' Hlen Hc Hu1 Hu Hag.
  destruct (Nat.le_gt_cases (receptive_span w + 1) u) as [Hlate|Hearly].
  { now apply (receptive_field_late tanh sigmoid w features xs xs' b m u). }
  (* near the start the window is cut at step 0: both inputs have the
     same first u steps *)
  assert (Hne : xs <> []) by (intros E; subst xs; simpl in Hu; lia).
  destruct (forward_shift_local tanh sigmoid w features xs false m Hwf Hne)
    as (raw & out & _ & Hfw & _ & _ & _ & Hcausal).
  { intros Hq. now destruct (Hc Hq). }
  destruct (Hcausal features xs' u) as (out' & Hfw' & Hn);
    [lia|exact Hlen| | |].
  - intros Hq. split; [|reflexivity]. rewrite Hlen. now destruct (Hc Hq).
  - symmetry. apply (firstn_nth_ext []); [lia|lia|].
    intros j Hj. apply Hag. lia.
  - exists out, out'. split; [exact Hfw|]. split; [exact Hfw'|].
    now symmetry.
Qed.

Lemma forward_receptive_field_witness :
  well_formed (tiny_net false) /\ receptive_span (tiny_net false) = 3 /\
  columns_batch 1 [[1%Z]; [2%Z]; [3%Z]; [0%Z]; [1%Z]; [2%Z]] /\
  columns_batch 1 [[3%Z]; [2%Z]; [3%Z]; [0%Z]; [1%Z]; [0%Z]] /\
  exists out out' : signal,
    Wavenet.forward tanh_q sigmoid_q (tiny_net false) []
      [[1%Z]; [2%Z]; [3%Z]; [0%Z]; [1%Z]; [2%Z]] false no_masks = Ok out /\
    Wavenet.forward tanh_q sigmoid_q (tiny_net false) []
      [[3%Z]; [2%Z]; [3%Z]; [0%Z]; [1%Z]; [0%Z]] false no_masks =
      Ok out' /\
    nth 5 out [] = nth 5 out' [].
Proof.
  destruct (tiny_net_well_formed false) as [Hwf _].
  assert (H1 : columns_batch 1 [[1%Z]; [2%Z]; [3%Z]; [0%Z]; [1%Z]; [2%Z]])
    by (repeat constructor).
  assert (H2 : columns_batch 1 [[3%Z]; [2%Z]; [3%Z]; [0%Z]; [1%Z]; [0%Z]])
    by (repeat constructor).
  split; [exact Hwf|]. split; [reflexivity|]. split; [exact H1|].
  split; [exact H2|].
  apply (forward_receptive_field tanh_q sigmoid_q (tiny_net false) []
           [[1%Z]; [2%Z]; [3%Z]; [0%Z]; [1%Z]; [2%Z]]
           [[3%Z]; [2%Z]; [3%Z]; [0%Z]; [1%Z]; [0%Z]] 1 no_masks 5 Hwf
           (tiny_net_no_act false) H1 H2 eq_refl).
  - intros H. discriminate H.
  - simpl. lia.
  - simpl. lia.
  - intros j Hj. change (receptive_span (tiny_net false)) with 3 in Hj.
    assert (Hc : j = 1 \/ j = 2 \/ j = 3 \/ j = 4) by lia.
    destruct Hc as [->|[->|[->| ->]]]; reflexivity.
Defined.
